(** * Mitigata user table: filter, sort, pagination, status update, statistics

    A shallow embedding of [src/components/Table.tsx] and [src/types.ts],
    with the statuses and the date format of the record generator
    [src/data/api.ts].

    Modelling conventions.
    - JavaScript strings are sequences of UTF-16 code units; the model keeps
      the code units below 256 (the Latin-1 range) as [ascii].
    - A JavaScript number that holds an integer or NaN is [option Z] ([None]
      is NaN).  Time values are integers of magnitude at most 8.64e15, far
      below 2^53, so every arithmetic step on them is exact in doubles.  The
      percentages of the statistics cards are genuine doubles and are
      modelled with the kernel's binary64 floats.
    - An array has fewer than 2^32 elements; a statement about the doubles
      computed from the length of the store takes the length below 2^32.
    - The host's local time zone is a parameter [LocalTZA] (milliseconds east
      of UTC), taken constant over the dates involved.
    - [String.prototype.localeCompare] depends on the host's collation and is
      a parameter. *)

From Stdlib Require Import ZArith List String Ascii Lia Bool Floats.
From Stdlib Require Import Sorting.Permutation Sorting.Sorted.
From Stdlib Require DecimalString.
From stdpp Require Import gmap strings list sorting.

Local Open Scope string_scope.
Local Open Scope Z_scope.

(** ** Numbers *)

(** An integer-valued JavaScript number or NaN. *)
Definition number := option Z.

Definition NaN : number := None.

(** [a - b] on numbers. *)
Definition num_sub (a b : number) : number :=
  match a, b with
  | Some x, Some y => Some (x - y)
  | _, _ => None
  end.

(** [-a]. *)
Definition num_neg (a : number) : number :=
  match a with Some x => Some (- x) | None => None end.

(** [a >= b]: false as soon as one side is NaN. *)
Definition num_ge (a b : number) : bool :=
  match a, b with
  | Some x, Some y => y <=? x
  | _, _ => false
  end.

(** [a <= b]. *)
Definition num_le (a b : number) : bool :=
  match a, b with
  | Some x, Some y => x <=? y
  | _, _ => false
  end.

(** ** Strings *)

Definition code (c : ascii) : Z := Z.of_N (N_of_ascii c).

(** [String.prototype.toLowerCase] on the Latin-1 range, which is what a
    [string] holds here: A-Z, and the accented capitals U+00C0-U+00DE except
    the multiplication sign U+00D7, move up by 32.  On this range the
    conversion works code unit by code unit; beyond it it does not (a capital
    sigma is converted by its position in the word), so nothing below relies
    on the conversion of a concatenation being the concatenation of the
    conversions. *)
Definition lower_char (c : ascii) : ascii :=
  let n := code c in
  if ((65 <=? n) && (n <=? 90)) || ((192 <=? n) && (n <=? 222) && negb (n =? 215))
  then ascii_of_N (Z.to_N (n + 32))
  else c.

Fixpoint toLowerCase (s : string) : string :=
  match s with
  | EmptyString => EmptyString
  | String c s' => String (lower_char c) (toLowerCase s')
  end.

(** [s.startsWith(p)], the test [includes] repeats at every position. *)
Fixpoint startsWith (p s : string) : bool :=
  match p, s with
  | EmptyString, _ => true
  | String _ _, EmptyString => false
  | String a p', String b s' => Ascii.eqb a b && startsWith p' s'
  end.

(** [String.prototype.includes]: does [search] occur in [s]? *)
Fixpoint includes (s search : string) : bool :=
  startsWith search s ||
  match s with
  | EmptyString => false
  | String _ s' => includes s' search
  end.

(** [s.split(sep)] for a one-character separator. *)
Fixpoint split (sep : ascii) (s : string) : list string :=
  match s with
  | EmptyString => [EmptyString]
  | String c s' =>
      if Ascii.eqb c sep then EmptyString :: split sep s'
      else match split sep s' with
           | [] => [String c EmptyString]
           | w :: ws => String c w :: ws
           end
  end.

(** White space skipped by [parseInt] (Latin-1 range): TAB, LF, VT, FF, CR,
    SP and NBSP. *)
Definition isWhiteSpace (c : ascii) : bool :=
  let n := code c in
  ((9 <=? n) && (n <=? 13)) || (n =? 32) || (n =? 160).

Fixpoint trimStart (s : string) : string :=
  match s with
  | String c s' => if isWhiteSpace c then trimStart s' else s
  | EmptyString => EmptyString
  end.

(** Value of a digit in the given radix (10 or 16). *)
Definition digitValue (radix : Z) (c : ascii) : option Z :=
  let n := code c in
  if (48 <=? n) && (n <=? 57) then Some (n - 48)
  else if (radix =? 16) && (97 <=? n) && (n <=? 102) then Some (n - 87)
  else if (radix =? 16) && (65 <=? n) && (n <=? 70) then Some (n - 55)
  else None.

(** Reads the longest prefix of digits; [acc] is the value read so far and
    [seen] tells whether a digit was read. *)
Fixpoint readDigits (radix : Z) (s : string) (acc : Z) (seen : bool) : number :=
  match s with
  | EmptyString => if seen then Some acc else None
  | String c s' =>
      match digitValue radix c with
      | Some d => readDigits radix s' (radix * acc + d) true
      | None => if seen then Some acc else None
      end
  end.

(** [parseInt(s)] without a radix: leading white space, an optional sign, an
    optional [0x]/[0X] prefix, then digits; NaN when no digit follows.  The
    argument [None] is [undefined], whose string form has no digit.  The
    result is the exact integer; the double differs from it only at 2^53 and
    beyond, where a day or a year gives an invalid date either way. *)
Definition parseInt (arg : option string) : number :=
  match arg with
  | None => NaN
  | Some s =>
      let s1 := trimStart s in
      let '(sign, s2) :=
        match s1 with
        | String "-" r => (-1, r)
        | String "+" r => (1, r)
        | _ => (1, s1)
        end in
      let '(radix, s3) :=
        match s2 with
        | String "0" (String "x" r) => (16, r)
        | String "0" (String "X" r) => (16, r)
        | _ => (10, s2)
        end in
      match readDigits radix s3 0 false with
      | Some n => Some (sign * n)
      | None => NaN
      end
  end.

(** ** Dates (ECMAScript time values) *)

Definition msPerDay : Z := 86400000.

(** [TimeClip]: time values beyond 8.64e15 ms are NaN. *)
Definition TimeClip (t : Z) : number :=
  if Z.abs t <=? 8640000000000000 then Some t else None.

Definition DayFromYear (y : Z) : Z :=
  365 * (y - 1970) + (y - 1969) / 4 - (y - 1901) / 100 + (y - 1601) / 400.

Definition InLeapYear (y : Z) : bool :=
  ((y mod 4 =? 0) && negb (y mod 100 =? 0)) || (y mod 400 =? 0).

(** Day within the year of the first day of month [m] (0 = January). *)
Definition monthStart (leap : bool) (m : Z) : Z :=
  let l := if leap then 1 else 0 in
  match m with
  | 0 => 0 | 1 => 31 | 2 => 59 + l | 3 => 90 + l | 4 => 120 + l
  | 5 => 151 + l | 6 => 181 + l | 7 => 212 + l | 8 => 243 + l
  | 9 => 273 + l | 10 => 304 + l | _ => 334 + l
  end.

(** The day number of a calendar date: months beyond 0..11 carry into the
    year, days beyond the month carry over. *)
Definition dayNumber (year month date : Z) : Z :=
  let ym := year + month / 12 in
  let mn := month mod 12 in
  DayFromYear ym + monthStart (InLeapYear ym) mn + date - 1.

(** [MakeDay(year, month, date)] on finite arguments.  The language lets
    it fail when an argument is out of range.  Engines compute the day
    number for every year and month they accept (V8: a million years and ten
    million months either way), also when the first day of the month lies
    before the first time value, as for 20 April of the year -271821, and
    leave the range of the date to [TimeClip]. *)
Definition MakeDay (year month date : Z) : number :=
  if (Z.abs year <=? 1000000) && (Z.abs month <=? 10000000)
  then Some (dayNumber year month date)
  else None.

(** [Day(t)]. *)
Definition Day (t : Z) : Z := t / msPerDay.

(** [MakeTime(h, m, s, ms)]. *)
Definition MakeTime (h m s ms : Z) : Z :=
  h * 3600000 + m * 60000 + s * 1000 + ms.

(** Days of month [m] (1 = January) of year [y]. *)
Definition DaysInMonth (y m : Z) : Z :=
  match m with
  | 2 => if InLeapYear y then 29 else 28
  | 4 | 6 | 9 | 11 => 30
  | _ => 31
  end.

(** The calendar date a [YYYY-MM-DD] string names: year, month (1..12) and
    day, when they exist. *)
Definition parseIsoDate (s : string) : option (Z * Z * Z) :=
  match s with
  | String y1 (String y2 (String y3 (String y4 (String h1
      (String m1 (String m2 (String h2 (String d1 (String d2 EmptyString))))))))) =>
      if Ascii.eqb h1 "-" && Ascii.eqb h2 "-" then
        match digitValue 10 y1, digitValue 10 y2, digitValue 10 y3, digitValue 10 y4,
              digitValue 10 m1, digitValue 10 m2, digitValue 10 d1, digitValue 10 d2 with
        | Some a, Some b, Some c, Some d, Some e, Some f, Some g, Some h =>
            let y := 1000 * a + 100 * b + 10 * c + d in
            let m := 10 * e + f in
            let dd := 10 * g + h in
            if (1 <=? m) && (m <=? 12) && (1 <=? dd) && (dd <=? DaysInMonth y m)
            then Some (y, m, dd)
            else None
        | _, _, _, _, _, _, _, _ => None
        end
      else None
  | _ => None
  end.

(** [new Date(s)] for the value of a date input: the date-only form
    [YYYY-MM-DD] of the language's date format is read as midnight UTC.  A
    date input holds the empty string or a calendar date, in this form for
    the years 0001 to 9999.  A date with a longer year, and any other
    string, is outside that format: the language leaves its parsing to the
    implementation, and it reads as an invalid date here.  Statements that
    depend on what a bound parses to take the bound empty or in this form
    ([dateInputValue]). *)
Definition newDateFromString (s : string) : number :=
  match parseIsoDate s with
  | Some (y, m, d) =>
      match MakeDay y (m - 1) d with
      | Some day => TimeClip (day * msPerDay)
      | None => NaN
      end
  | None => NaN
  end.

(** A string used as a condition: true unless empty. *)
Definition truthy (s : string) : bool :=
  match s with EmptyString => false | String _ _ => true end.

(** ** Records ([types.ts]) *)

(** Status values are strings at run time.  [types.ts] declares
    [Status = "ACTIVE" | "INVITED" | "BLOCKED"]. *)
Definition Status := string.

Definition is_Status (s : string) : bool :=
  String.eqb s "ACTIVE" || String.eqb s "INVITED" || String.eqb s "BLOCKED".

Record About := mkAbout { name : string; status : Status; email : string }.

Record Details := mkDetails { date : string; invitedBy : string }.

Record RecordT := mkRecord { id : string; about : About; details : Details }.

(** ** Arrays *)

(** [Array.prototype.sort(comparefn)].  A comparator result that is NaN
    counts as +0.  The sort is stable, so for a consistent comparator its
    result is determined: each element is placed, from the right, before the
    first element it does not have to follow.  For a comparator that is not
    consistent (the date comparator when two valid dates differ and a third
    date is invalid, which compares as equal to both) the language leaves
    the order to the implementation, and only what every order satisfies is
    stated of the result: that it is a rearrangement, its length, its pages.
    The statements about the order itself are about consistent comparators:
    dates that are all valid, no two different valid dates beside an invalid
    one, or a collation that is an order. *)
Definition follows (v : number) : bool :=
  match v with Some z => 0 <? z | None => false end.

Fixpoint sortInsert {A} (comparefn : A -> A -> number) (x : A) (sorted : list A)
  : list A :=
  match sorted with
  | [] => [x]
  | y :: rest =>
      if follows (comparefn x y) then y :: sortInsert comparefn x rest
      else x :: sorted
  end.

Definition array_sort {A} (comparefn : A -> A -> number) (l : list A) : list A :=
  fold_right (sortInsert comparefn) [] l.

(** [Array.prototype.slice(start, end)]: negative indices count from the
    end, and both are clamped to the array. *)
Definition array_slice {A} (l : list A) (start end_ : Z) : list A :=
  let len := Z.of_nat (length l) in
  let k := if start <? 0 then Z.max (len + start) 0 else Z.min start len in
  let final := if end_ <? 0 then Z.max (len + end_) 0 else Z.min end_ len in
  firstn (Z.to_nat (final - k)) (skipn (Z.to_nat k) l).

(** [Math.ceil(n / d)] for an array length [n] and the page size: lengths
    are below 2^32, where the double quotient lies strictly between the
    same two integers as the exact one. *)
Definition ceilDiv (n d : Z) : Z := - ((- n) / d).

(** ** Component state ([Table.tsx]) *)

Inductive SortField := ByName | ByEmail | ByDate | ByInvitedBy | ByStatus.

Inductive SortDirection := asc | desc.

Record State := mkState {
  records : list RecordT;
  sortField : option SortField;
  sortDirection : SortDirection;
  currentPage : Z;
  filterStatus : string;
  searchName : string;
  dateFrom : string;
  dateTo : string
}.

Definition recordsPerPage : Z := 10.

(** Initial state of the component for the [data] prop. *)
Definition initialState (data : list RecordT) : State :=
  mkState data None asc 1 "ALL" "" "" "".

Definition SortField_eqb (a b : SortField) : bool :=
  match a, b with
  | ByName, ByName | ByEmail, ByEmail | ByDate, ByDate
  | ByInvitedBy, ByInvitedBy | ByStatus, ByStatus => true
  | _, _ => false
  end.

(** ** Status update *)

(** The updater [handleStatusUpdate] passes to [setRecords]. *)
Definition updateStatus (recordId : string) (newStatus : Status) (record : RecordT)
  : RecordT :=
  if String.eqb (id record) recordId
  then mkRecord (id record)
                (mkAbout (name (about record)) newStatus (email (about record)))
                (details record)
  else record.

Definition handleStatusUpdate (recordId : string) (newStatus : Status) (s : State)
  : State :=
  mkState (List.map (updateStatus recordId newStatus) (records s))
          (sortField s) (sortDirection s) (currentPage s)
          (filterStatus s) (searchName s) (dateFrom s) (dateTo s).

(** ** Statistics *)

Definition countStatus (st : string) (rs : list RecordT) : nat :=
  length (List.filter (fun r => String.eqb (status (about r)) st) rs).

Definition totalUsers (rs : list RecordT) : nat := length rs.
Definition activeCount (rs : list RecordT) : nat := countStatus "ACTIVE" rs.
Definition inactiveCount (rs : list RecordT) : nat := countStatus "INACTIVE" rs.
Definition blockedCount (rs : list RecordT) : nat := countStatus "BLOCKED" rs.

(** The double holding an array length. *)
Definition float_of_length (n : nat) : float :=
  PrimFloat.of_uint63 (Uint63.of_Z (Z.of_nat n)).

(** The integer nearest to [m * 2^e], the larger one on a tie. *)
Definition roundHalfUp (m : positive) (e : Z) : Z :=
  if 0 <=? e then Z.pos m * 2 ^ e
  else (2 * Z.pos m + 2 ^ (- e)) / (2 * 2 ^ (- e)).

Definition decimal (n : Z) : string :=
  DecimalString.NilZero.string_of_int (Z.to_int n).

(** [x.toFixed(0)]: NaN and the infinities print by name; otherwise the
    nearest integer, the larger one on a tie, after the sign.  (Magnitudes
    of 1e21 and more print in exponent form instead; a percentage never
    gets there.) *)
Definition toFixed0 (x : float) : string :=
  match Prim2SF x with
  | S754_nan => "NaN"
  | S754_infinity false => "Infinity"
  | S754_infinity true => "-Infinity"
  | S754_zero _ => "0"
  | S754_finite sg m e =>
      ((if sg then "-" else "") ++ decimal (roundHalfUp m e))%string
  end.

(** [((count / totalUsers) * 100).toFixed(0)]. *)
Definition percentage (count total : nat) : string :=
  toFixed0 (PrimFloat.mul (PrimFloat.div (float_of_length count) (float_of_length total))
                          100%float).

Definition inactivePercentage (rs : list RecordT) : string :=
  percentage (inactiveCount rs) (totalUsers rs).

Definition blockedPercentage (rs : list RecordT) : string :=
  percentage (blockedCount rs) (totalUsers rs).

(** The [months] table of [parseDate]. *)
Definition monthsTable : list (string * Z) :=
  [("Jan", 0); ("Feb", 1); ("Mar", 2); ("Apr", 3); ("May", 4); ("Jun", 5);
   ("Jul", 6); ("Aug", 7); ("Sep", 8); ("Oct", 9); ("Nov", 10); ("Dec", 11)].

Definition mem_string (x : string) (l : list string) : bool :=
  existsb (String.eqb x) l.

Section Host.

(** Offset of local time from UTC, in milliseconds. *)
Variable LocalTZA : Z.

(** The host's collation order, as [a.localeCompare(b)] reports it. *)
Variable localeCompare : string -> string -> Z.

Definition LocalTime (t : Z) : Z := t + LocalTZA.
Definition UTC (t : Z) : Z := t - LocalTZA.

(** [new Date(year, month, day)]: the arguments are local time; a year in
    0..99 means 1900 + year; NaN in any argument gives an invalid date.
    The result is the time value of the fresh Date object. *)
Definition newDate (year month day : number) : number :=
  match year, month, day with
  | Some y, Some m, Some d =>
      let yr := if (0 <=? y) && (y <=? 99) then 1900 + y else y in
      match MakeDay yr m d with
      | Some day => TimeClip (UTC (day * msPerDay))
      | None => NaN
      end
  | _, _, _ => NaN
  end.

(** [d.setHours(h, m, s, ms)]: replaces the time of day, in local time. *)
Definition setHours (tv : number) (h m s ms : Z) : number :=
  match tv with
  | None => NaN
  | Some t => TimeClip (UTC (Day (LocalTime t) * msPerDay + MakeTime h m s ms))
  end.

(** [months[key]] as a number: the index of a key of the table; any other
    key, a missing one ([undefined]) included, reads as a value whose number
    is NaN. *)
Definition months (key : option string) : number :=
  match key with
  | Some k =>
      match List.find (fun e => String.eqb (fst e) k) monthsTable with
      | Some e => Some (snd e)
      | None => NaN
      end
  | None => NaN
  end.

(** [parseDate]: the time value of the Date it returns. *)
Definition parseDate (dateString : string) : number :=
  let parts := split " " dateString in
  let day := parseInt (nth_error parts 0) in
  let month := months (nth_error parts 1) in
  let year := parseInt (nth_error parts 2) in
  newDate year month day.

(** ** Filter stage *)

(** The date-range part of the [filteredData] callback. *)
Definition dateMatch (dateFrom dateTo : string) (record : RecordT) : bool :=
  if truthy dateFrom || truthy dateTo then
    let recordDate := setHours (parseDate (date (details record))) 0 0 0 0 in
    let m1 :=
      if truthy dateFrom
      then num_ge recordDate (setHours (newDateFromString dateFrom) 0 0 0 0)
      else true in
    if truthy dateTo
    then m1 && num_le recordDate (setHours (newDateFromString dateTo) 23 59 59 999)
    else m1
  else true.

(** The callback of [records.filter]. *)
Definition passesFilter (filterStatus searchName dateFrom dateTo : string)
  (record : RecordT) : bool :=
  let statusMatch :=
    String.eqb filterStatus "ALL" || String.eqb (status (about record)) filterStatus in
  let nameMatch :=
    includes (toLowerCase (name (about record))) (toLowerCase searchName) in
  statusMatch && nameMatch && dateMatch dateFrom dateTo record.

Definition filterRecords (filterStatus searchName dateFrom dateTo : string)
  (rs : list RecordT) : list RecordT :=
  List.filter (passesFilter filterStatus searchName dateFrom dateTo) rs.

Definition filteredData (s : State) : list RecordT :=
  filterRecords (filterStatus s) (searchName s) (dateFrom s) (dateTo s) (records s).

(** ** Sort stage *)

Definition directed (dir : SortDirection) (comparison : Z) : number :=
  match dir with asc => Some comparison | desc => Some (- comparison) end.

(** The comparator of [sortedData]. *)
Definition compareRecords (field : option SortField) (dir : SortDirection)
  (a b : RecordT) : number :=
  match field with
  | None => Some 0
  | Some ByName => directed dir (localeCompare (name (about a)) (name (about b)))
  | Some ByEmail => directed dir (localeCompare (email (about a)) (email (about b)))
  | Some ByDate =>
      let aValue := parseDate (date (details a)) in
      let bValue := parseDate (date (details b)) in
      match dir with
      | asc => num_sub aValue bValue
      | desc => num_sub bValue aValue
      end
  | Some ByInvitedBy =>
      directed dir (localeCompare (invitedBy (details a)) (invitedBy (details b)))
  | Some ByStatus => directed dir (localeCompare (status (about a)) (status (about b)))
  end.

Definition sortRecords (field : option SortField) (dir : SortDirection)
  (rs : list RecordT) : list RecordT :=
  array_sort (compareRecords field dir) rs.

Definition sortedData (s : State) : list RecordT :=
  sortRecords (sortField s) (sortDirection s) (filteredData s).

(** ** Pagination stage *)

Definition pagesFor (count : nat) : Z := ceilDiv (Z.of_nat count) recordsPerPage.

Definition totalPages (s : State) : Z := pagesFor (length (sortedData s)).

Definition startIndex (s : State) : Z := (currentPage s - 1) * recordsPerPage.

Definition endIndex (s : State) : Z := startIndex s + recordsPerPage.

Definition currentRecords (s : State) : list RecordT :=
  array_slice (sortedData s) (startIndex s) (endIndex s).

(** ** Event handlers *)

Definition setCurrentPage (p : Z) (s : State) : State :=
  mkState (records s) (sortField s) (sortDirection s) p
          (filterStatus s) (searchName s) (dateFrom s) (dateTo s).

Definition handleSort (field : SortField) (s : State) : State :=
  match sortField s with
  | Some f =>
      if SortField_eqb f field
      then mkState (records s) (sortField s)
                   (match sortDirection s with asc => desc | desc => asc end)
                   (currentPage s) (filterStatus s) (searchName s) (dateFrom s) (dateTo s)
      else mkState (records s) (Some field) asc
                   (currentPage s) (filterStatus s) (searchName s) (dateFrom s) (dateTo s)
  | None => mkState (records s) (Some field) asc
                    (currentPage s) (filterStatus s) (searchName s) (dateFrom s) (dateTo s)
  end.

Definition handleClearFilters (s : State) : State :=
  mkState (records s) (sortField s) (sortDirection s) 1 "ALL" "" "" "".

(** [onChange] of the search box. *)
Definition onSearchChange (v : string) (s : State) : State :=
  mkState (records s) (sortField s) (sortDirection s) 1
          (filterStatus s) v (dateFrom s) (dateTo s).

(** [onChange] of the status select. *)
Definition onStatusChange (v : string) (s : State) : State :=
  mkState (records s) (sortField s) (sortDirection s) 1
          v (searchName s) (dateFrom s) (dateTo s).

(** [onChange] of the two date inputs. *)
Definition onDateFromChange (v : string) (s : State) : State :=
  mkState (records s) (sortField s) (sortDirection s) 1
          (filterStatus s) (searchName s) v (dateTo s).

Definition onDateToChange (v : string) (s : State) : State :=
  mkState (records s) (sortField s) (sortDirection s) 1
          (filterStatus s) (searchName s) (dateFrom s) v.

(** [onClick] of Previous and Next. *)
Definition onPrevious (s : State) : State :=
  setCurrentPage (Z.max (currentPage s - 1) 1) s.

Definition onNext (s : State) : State :=
  setCurrentPage (Z.min (currentPage s + 1) (totalPages s)) s.

(** What the user can do to the rendered component. *)
Inductive Action :=
| TypeSearch (v : string)
| SelectStatus (v : string)
| PickDateFrom (v : string)
| PickDateTo (v : string)
| ClickClearFilters
| ClickHeader (field : SortField)
| ClickPrevious
| ClickNext
| ClickBlock (recordId : string)
| ClickActivate (recordId : string)
| ClickViewDetails (recordId : string).

(** The options of the status select. *)
Definition statusOptions : list string := ["ALL"; "ACTIVE"; "INACTIVE"; "BLOCKED"].

(** The values of a date input that are modelled: the empty string or a
    calendar date [YYYY-MM-DD] (a date input can also hold a year of more
    than four digits, see [newDateFromString]). *)
Definition dateInputValue (v : string) : bool :=
  negb (truthy v) ||
  match newDateFromString v with Some _ => true | None => false end.

(** Which actions the rendered page offers: the select has four options,
    Previous and Next are disabled at the ends, and the row buttons exist
    for the rows of the current page. *)
Definition offered (s : State) (a : Action) : bool :=
  match a with
  | TypeSearch _ => true
  | SelectStatus v => mem_string v statusOptions
  | PickDateFrom v | PickDateTo v => dateInputValue v
  | ClickClearFilters => true
  | ClickHeader _ => true
  | ClickPrevious => negb (currentPage s =? 1)
  | ClickNext => negb (currentPage s =? totalPages s)
  | ClickBlock i | ClickActivate i | ClickViewDetails i =>
      mem_string i (List.map id (currentRecords s))
  end.

(** The handler each action runs. *)
Definition handle (a : Action) (s : State) : State :=
  match a with
  | TypeSearch v => onSearchChange v s
  | SelectStatus v => onStatusChange v s
  | PickDateFrom v => onDateFromChange v s
  | PickDateTo v => onDateToChange v s
  | ClickClearFilters => handleClearFilters s
  | ClickHeader f => handleSort f s
  | ClickPrevious => onPrevious s
  | ClickNext => onNext s
  | ClickBlock i => handleStatusUpdate i "BLOCKED" s
  | ClickActivate i => handleStatusUpdate i "ACTIVE" s
  | ClickViewDetails i => handleStatusUpdate i "INACTIVE" s
  end.

(** One user interaction. *)
Inductive step : State -> Action -> State -> Prop :=
| step_intro s a : offered s a = true -> step s a (handle a s).

(** Actions that change a filter criterion, a sort criterion or the page:
    everything except the row buttons. *)
Definition isTableControl (a : Action) : bool :=
  match a with
  | ClickBlock _ | ClickActivate _ | ClickViewDetails _ => false
  | _ => true
  end.

(** States reached from the initial one through actions allowed by [ok]. *)
Inductive reachable (ok : Action -> bool) (data : list RecordT) : State -> Prop :=
| reach_init : reachable ok data (initialState data)
| reach_step s a s' :
    reachable ok data s -> ok a = true -> step s a s' -> reachable ok data s'.

End Host.

(** ** The filter contract, in the specification's words *)

(** [sub] occurs in [s]. *)
Definition isSubstring (sub s : string) : Prop :=
  exists pre suf : string, s = (pre ++ sub ++ suf)%string.

Section Contract.

Variable LocalTZA : Z.

(** The instant, in local time, of the time of day [tod] on a calendar day. *)
Definition localInstant (ymd : Z * Z * Z) (tod : Z) : Z :=
  let '(y, m, d) := ymd in
  UTC LocalTZA (dayNumber y (m - 1) d * msPerDay + tod).

(** The record's parsed date, taken to the start of its local day. *)
Definition startOfDay (t : Z) : Z :=
  UTC LocalTZA (Day (LocalTime LocalTZA t) * msPerDay).

(** A record passes iff the status filter is ALL or equals its status, the
    case-folded search string is a substring of its case-folded name, and
    either no date bound is set or its parsed date lies within
    [from 00:00:00, to 23:59:59.999], using only the bounds that are set. *)
Definition passesContract (filterStatus searchName dateFrom dateTo : string)
  (record : RecordT) : Prop :=
  (filterStatus = "ALL" \/ status (about record) = filterStatus) /\
  isSubstring (toLowerCase searchName) (toLowerCase (name (about record))) /\
  ((dateFrom = "" /\ dateTo = "") \/
   exists t, parseDate LocalTZA (date (details record)) = Some t /\
     (dateFrom <> "" ->
        exists from, parseIsoDate dateFrom = Some from /\
                     localInstant from 0 <= startOfDay t) /\
     (dateTo <> "" ->
        exists to, parseIsoDate dateTo = Some to /\
                   startOfDay t <= localInstant to (MakeTime 23 59 59 999))).

End Contract.

(** A date string of the form [<day> <month> <year>]: digits, one of the
    twelve month abbreviations, digits, separated by single spaces. *)
Fixpoint allDigits (s : string) : bool :=
  match s with
  | EmptyString => true
  | String c s' =>
      match digitValue 10 c with Some _ => allDigits s' | None => false end
  end.

Definition monthNames : list string := List.map fst monthsTable.

Definition wellFormedDate (s : string) : bool :=
  match split " " s with
  | [d; m; y] =>
      truthy d && allDigits d && mem_string m monthNames && truthy y && allDigits y
  | _ => false
  end.

(** What [parseDate] makes of the tokens: the first and the third must start
    as an integer for [parseInt], the second must be a key of [months]. *)
Definition tokensRecognised (s : string) : bool :=
  match split " " s with
  | d :: m :: y :: _ =>
      match parseInt (Some d), parseInt (Some y) with
      | Some _, Some _ => mem_string m monthNames
      | _, _ => false
      end
  | _ => false
  end.

(** ** Auxiliary notions for the statements below *)

(** What the navigation and filter controls maintain: the page is within
    [1, totalPages], or nothing is shown and the page is 0 or 1. *)
Definition pageInvariant (tza : Z) (lc : string -> string -> Z) (s : State) : Prop :=
  (totalPages tza lc s = 0 /\ (currentPage s = 0 \/ currentPage s = 1)) \/
  1 <= currentPage s <= totalPages tza lc s.

(** The date key of a record, and the test that it is the time value [v]. *)
Definition dateKey (tza : Z) (r : RecordT) : number := parseDate tza (date (details r)).

Definition hasDateKey (tza : Z) (v : Z) (r : RecordT) : bool :=
  match dateKey tza r with Some t => t =? v | None => false end.

(** The time value of a record's date, 0 standing in for an invalid date. *)
Definition dateValue (tza : Z) (r : RecordT) : Z :=
  match dateKey tza r with Some t => t | None => 0 end.

(** ** The component over a heap of objects

    Arrays, records and dates are objects with identity.  The heap maps
    references to objects; an array holds references to its elements, a
    record holds references to its [about] and [details] objects.  A
    computation threads the heap and fails ([None]) on a reference that does
    not hold the kind of object it is used as. *)

Definition loc := positive.

Inductive object :=
| OArray (elems : list loc)
| ORecord (rid : string) (rabout rdetails : loc)
| OAbout (a : About)
| ODetails (d : Details)
| ODate (tv : number).

Abbreviation heap := (gmap loc object).

Definition M (A : Type) : Type := heap -> option (A * heap).

Definition ret {A} (a : A) : M A := fun h => Some (a, h).

Definition bind {A B} (m : M A) (k : A -> M B) : M B :=
  fun h => match m h with
           | Some (a, h') => k a h'
           | None => None
           end.

Definition fail {A} : M A := fun _ => None.

Notation "'let*' x ':=' m 'in' k" := (bind m (fun x => k))
  (at level 10, x name, m at level 100, k at level 200).

(** A new object, at a reference not in use. *)
Definition alloc (o : object) : M loc :=
  fun h => let l := fresh (dom h) in Some (l, <[l := o]> h).

Definition load (l : loc) : M object :=
  fun h => match h !! l with Some o => Some (o, h) | None => None end.

(** Overwrites the object at [l] in place. *)
Definition store (l : loc) (o : object) : M unit :=
  fun h => match h !! l with Some _ => Some (tt, <[l := o]> h) | None => None end.

Definition getElems (arr : loc) : M (list loc) :=
  let* o := load arr in
  match o with OArray es => ret es | _ => fail end.

(** Reads [record.id], [record.about] and [record.details]. *)
Definition readRecord (l : loc) : M RecordT :=
  let* o := load l in
  match o with
  | ORecord i al dl =>
      let* oa := load al in
      let* od := load dl in
      match oa, od with
      | OAbout a, ODetails d => ret (mkRecord i a d)
      | _, _ => fail
      end
  | _ => fail
  end.

Definition getTimeM (l : loc) : M number :=
  let* o := load l in
  match o with ODate tv => ret tv | _ => fail end.

Fixpoint filterM (cb : loc -> M bool) (ls : list loc) : M (list loc) :=
  match ls with
  | [] => ret []
  | l :: rest =>
      let* keep := cb l in
      let* kept := filterM cb rest in
      ret (if keep then l :: kept else kept)
  end.

Fixpoint mapM (f : loc -> M loc) (ls : list loc) : M (list loc) :=
  match ls with
  | [] => ret []
  | l :: rest =>
      let* l' := f l in
      let* rest' := mapM f rest in
      ret (l' :: rest')
  end.

(** [arr.filter(cb)]: a new array of the elements kept. *)
Definition array_filterM (cb : loc -> M bool) (arr : loc) : M loc :=
  let* es := getElems arr in
  let* kept := filterM cb es in
  alloc (OArray kept).

(** [[...arr]]: a new array of the same elements. *)
Definition spreadM (arr : loc) : M loc :=
  let* es := getElems arr in
  alloc (OArray es).

Fixpoint sortInsertM (comparefn : loc -> loc -> M number) (x : loc) (sorted : list loc)
  : M (list loc) :=
  match sorted with
  | [] => ret [x]
  | y :: rest =>
      let* v := comparefn x y in
      if follows v
      then let* rest' := sortInsertM comparefn x rest in ret (y :: rest')
      else ret (x :: sorted)
  end.

Fixpoint sortElemsM (comparefn : loc -> loc -> M number) (ls : list loc) : M (list loc) :=
  match ls with
  | [] => ret []
  | x :: rest =>
      let* sorted := sortElemsM comparefn rest in
      sortInsertM comparefn x sorted
  end.

(** [arr.sort(comparefn)]: sorts [arr] itself, and returns it. *)
Definition array_sortM (comparefn : loc -> loc -> M number) (arr : loc) : M loc :=
  let* es := getElems arr in
  let* sorted := sortElemsM comparefn es in
  let* _ := store arr (OArray sorted) in
  ret arr.

(** [arr.slice(start, end)]: a new array. *)
Definition array_sliceM (arr : loc) (start end_ : Z) : M loc :=
  let* es := getElems arr in
  alloc (OArray (array_slice es start end_)).

(** [arr.map(f)]: a new array of the results. *)
Definition array_mapM (f : loc -> M loc) (arr : loc) : M loc :=
  let* es := getElems arr in
  let* es' := mapM f es in
  alloc (OArray es').

(** The updater of [handleStatusUpdate]: a matching record is copied into a
    new record object with a new [about] object; its [details] object is
    shared with the old record. *)
Definition updateStatusM (recordId : string) (newStatus : Status) (rl : loc) : M loc :=
  let* o := load rl in
  match o with
  | ORecord i al dl =>
      if String.eqb i recordId then
        let* oa := load al in
        match oa with
        | OAbout a =>
            let* al' := alloc (OAbout (mkAbout (name a) newStatus (email a))) in
            alloc (ORecord i al' dl)
        | _ => fail
        end
      else ret rl
  | _ => fail
  end.

(** [setRecords(prev => prev.map(...))]: the reference of the new store. *)
Definition handleStatusUpdateM (recordId : string) (newStatus : Status) (recordsRef : loc)
  : M loc :=
  array_mapM (updateStatusM recordId newStatus) recordsRef.

(** [records.filter(r => r.about.status === st).length]. *)
Definition countStatusM (st : string) (recordsRef : loc) : M nat :=
  let* arr := array_filterM
                (fun l => let* r := readRecord l in
                          ret (String.eqb (status (about r)) st))
                recordsRef in
  let* es := getElems arr in
  ret (length es).

Section HostHeap.

Variable LocalTZA : Z.
Variable localeCompare : string -> string -> Z.

(** [parseDate]: a new Date object. *)
Definition parseDateM (dateString : string) : M loc :=
  alloc (ODate (parseDate LocalTZA dateString)).

(** [new Date(s)]. *)
Definition newDateFromStringM (s : string) : M loc :=
  alloc (ODate (newDateFromString s)).

(** [d.setHours(h, m, s, ms)]: changes the Date object [d]. *)
Definition setHoursM (d : loc) (h m s ms : Z) : M unit :=
  let* o := load d in
  match o with
  | ODate tv => store d (ODate (setHours LocalTZA tv h m s ms))
  | _ => fail
  end.

(** The callback of [records.filter]. *)
Definition passesFilterM (filterStatus searchName dateFrom dateTo : string)
  (rl : loc) : M bool :=
  let* record := readRecord rl in
  let statusMatch :=
    String.eqb filterStatus "ALL" || String.eqb (status (about record)) filterStatus in
  let nameMatch :=
    includes (toLowerCase (name (about record))) (toLowerCase searchName) in
  let* dateMatch :=
    (if truthy dateFrom || truthy dateTo then
       let* recordDate := parseDateM (date (details record)) in
       let* _ := setHoursM recordDate 0 0 0 0 in
       let* m1 :=
         (if truthy dateFrom then
            let* fromDate := newDateFromStringM dateFrom in
            let* _ := setHoursM fromDate 0 0 0 0 in
            let* a := getTimeM recordDate in
            let* b := getTimeM fromDate in
            ret (num_ge a b)
          else ret true) in
       if truthy dateTo then
         let* toDate := newDateFromStringM dateTo in
         let* _ := setHoursM toDate 23 59 59 999 in
         let* a := getTimeM recordDate in
         let* b := getTimeM toDate in
         ret (m1 && num_le a b)
       else ret m1
     else ret true) in
  ret (statusMatch && nameMatch && dateMatch).

(** The comparator of [sortedData]. *)
Definition compareRecordsM (field : option SortField) (dir : SortDirection)
  (al bl : loc) : M number :=
  match field with
  | Some ByDate =>
      let* a := readRecord al in
      let* da := parseDateM (date (details a)) in
      let* aValue := getTimeM da in
      let* b := readRecord bl in
      let* db := parseDateM (date (details b)) in
      let* bValue := getTimeM db in
      ret (match dir with
           | asc => num_sub aValue bValue
           | desc => num_sub bValue aValue
           end)
  | _ =>
      let* a := readRecord al in
      let* b := readRecord bl in
      ret (compareRecords LocalTZA localeCompare field dir a b)
  end.

(** What one rendering computes. *)
Record Rendered := mkRendered {
  filteredRef : loc;
  sortedRef : loc;
  pageCount : Z;
  currentRef : loc;
  shownTotal : nat;
  shownActive : nat;
  shownInactive : string;
  shownBlocked : string
}.

(** The body of the component: the store is the array at [recordsRef], the
    rest of the state is read from [s]. *)
Definition renderM (recordsRef : loc) (s : State) : M Rendered :=
  let* filteredData :=
    array_filterM (passesFilterM (filterStatus s) (searchName s) (dateFrom s) (dateTo s))
                  recordsRef in
  let* copy := spreadM filteredData in
  let* sortedData :=
    array_sortM (compareRecordsM (sortField s) (sortDirection s)) copy in
  let* sortedElems := getElems sortedData in
  let totalPages := pagesFor (length sortedElems) in
  let startIndex := (currentPage s - 1) * recordsPerPage in
  let endIndex := startIndex + recordsPerPage in
  let* currentRecords := array_sliceM sortedData startIndex endIndex in
  let* all := getElems recordsRef in
  let totalUsers := length all in
  let* activeCount := countStatusM "ACTIVE" recordsRef in
  let* inactiveCount := countStatusM "INACTIVE" recordsRef in
  let* blockedCount := countStatusM "BLOCKED" recordsRef in
  ret (mkRendered filteredData sortedData totalPages currentRecords
                  totalUsers activeCount
                  (percentage inactiveCount totalUsers)
                  (percentage blockedCount totalUsers)).

End HostHeap.

(** The heap holds the record [r] at [l]. *)
Definition recordAt (h : heap) (l : loc) (r : RecordT) : Prop :=
  exists al dl : loc,
    h !! l = Some (ORecord (id r) al dl) /\
    h !! al = Some (OAbout (about r)) /\
    h !! dl = Some (ODetails (details r)).

(** The heap holds at [l] an array of the records [rs]. *)
Definition arrayAt (h : heap) (l : loc) (rs : list RecordT) : Prop :=
  exists ls : list loc,
    h !! l = Some (OArray ls) /\ Forall2 (recordAt h) ls rs.

(** [m], run in [h], ends in a result and a heap that satisfy [Q]. *)
Definition wp {A} (m : M A) (Q : A -> heap -> Prop) (h : heap) : Prop :=
  match m h with
  | Some (a, h') => Q a h'
  | None => False
  end.

(** From any heap that extends [h0], [m] ends in a result and a heap that
    satisfy [P], and in that heap every object of [h0] is as it was. *)
Definition keeps {A} (h0 : heap) (m : M A) (P : A -> heap -> Prop) : Prop :=
  forall h : heap, h0 ⊆ h -> wp m (fun a h' => P a h' /\ h0 ⊆ h') h.

(** The heap [h] holds at [l] an array whose elements are, in [hb], the
    records [rs]. *)
Definition arrayOf (hb h : heap) (l : loc) (rs : list RecordT) : Prop :=
  exists ls : list loc,
    h !! l = Some (OArray ls) /\ Forall2 (recordAt hb) ls rs.

(** ** The page-reset effect of the other table component

    The repository's second version of the table adds, after each render,
    the effect
    [useEffect(() => { setDisplayCount(5); setCurrentPage(1); },
               [searchName, filterStatus, dateFrom, dateTo, sortField, sortDirection])]:
    when one of the six criteria differs from the previous render, the page
    goes back to 1. *)
Definition SortDirection_eqb (a b : SortDirection) : bool :=
  match a, b with asc, asc | desc, desc => true | _, _ => false end.

Definition sameCriteria (s1 s2 : State) : bool :=
  String.eqb (searchName s1) (searchName s2) &&
  String.eqb (filterStatus s1) (filterStatus s2) &&
  String.eqb (dateFrom s1) (dateFrom s2) &&
  String.eqb (dateTo s1) (dateTo s2) &&
  match sortField s1, sortField s2 with
  | Some f1, Some f2 => SortField_eqb f1 f2
  | None, None => true
  | _, _ => false
  end &&
  SortDirection_eqb (sortDirection s1) (sortDirection s2).

Definition resetPageEffect (before after : State) : State :=
  if sameCriteria before after then after else setCurrentPage 1 after.

(** ** The record generator ([data/api.ts]) *)

(** [getRandomStatus] draws from this array. *)
Definition statuses : list Status := ["ACTIVE"; "INVITED"; "BLOCKED"].

Definition twoDigits (n : Z) : string :=
  if n <? 10 then ("0" ++ decimal n)%string else decimal n.

(** [date.toLocaleDateString("en-GB")]: day/month/year. *)
Definition toLocaleDateString (y m d : Z) : string :=
  (twoDigits d ++ "/" ++ twoDigits m ++ "/" ++ decimal y)%string.

(** What [generateRandomDate] can return: the days from 1 January 2023 to
    31 December 2024. *)
Definition generatedDates : list string :=
  flat_map (fun y =>
    flat_map (fun m =>
      List.map (fun d => toLocaleDateString y (Z.of_nat m) (Z.of_nat d))
               (seq 1 (Z.to_nat (DaysInMonth y (Z.of_nat m)))))
      (seq 1 12))
    [2023; 2024].

(** ** What a row shows ([Table.tsx]) *)

(** [getStatusClass]. *)
Definition getStatusClass (st : Status) : string :=
  ("status-badge status-" ++ toLowerCase st)%string.

(** The text of the status badge of a row. *)
Definition statusLabel (st : Status) : string :=
  if String.eqb st "ACTIVE" then "Active"
  else if String.eqb st "INACTIVE" then "Inactive"
  else "Blocked".

(** ** The generator's helpers ([data/api.ts]) *)

Definition firstNames : list string :=
  ["John"; "Jane"; "Michael"; "Sarah"; "David"; "Emma"; "Robert"; "Lisa"; "James";
   "Mary"; "William"; "Patricia"; "Richard"; "Jennifer"; "Thomas"; "Linda";
   "Charles"; "Elizabeth"; "Daniel"; "Barbara"].

Definition lastNames : list string :=
  ["Smith"; "Johnson"; "Williams"; "Brown"; "Jones"; "Garcia"; "Miller"; "Davis";
   "Rodriguez"; "Martinez"; "Wilson"; "Anderson"; "Taylor"; "Thomas"; "Hernandez";
   "Moore"; "Martin"; "Jackson"; "Thompson"; "White"].

(** [arr[Math.floor(Math.random() * arr.length)]], for the index [i] that
    the random number gives; a missing element prints as [undefined]. *)
Definition pick (arr : list string) (i : nat) : string := nth i arr "undefined".

(** [generateRandomName], for the two indices drawn. *)
Definition generateRandomName (i j : nat) : string :=
  (pick firstNames i ++ " " ++ pick lastNames j)%string.

(** [s.replace(" ", ".")]-style replacement: the first occurrence only. *)
Fixpoint replaceFirst (c by_ : ascii) (s : string) : string :=
  match s with
  | EmptyString => EmptyString
  | String a s' => if Ascii.eqb a c then String by_ s' else String a (replaceFirst c by_ s')
  end.

(** [generateEmail]. *)
Definition generateEmail (name : string) : string :=
  (replaceFirst " " "." (toLowerCase name) ++ "@demo.com")%string.

(** [getRandomStatus], for the index drawn. *)
Definition getRandomStatus (k : nat) : Status := pick statuses k.

(** The calendar date (year, month 1..12, day) of a day number. *)
Definition civilFromDay (D : Z) : Z * Z * Z :=
  let z := D + 719468 in
  let era := z / 146097 in
  let doe := z - era * 146097 in
  let yoe := (doe - doe / 1460 + doe / 36524 - doe / 146096) / 365 in
  let doy := doe - (365 * yoe + yoe / 4 - yoe / 100) in
  let mp := (5 * doy + 2) / 153 in
  let d := doy - (153 * mp + 2) / 5 + 1 in
  let m := if mp <? 10 then mp + 3 else mp - 9 in
  let y := yoe + era * 400 + (if m <=? 2 then 1 else 0) in
  (y, m, d).

(** What the generator draws for one record: four name indices, a status
    index, and the whole milliseconds added to the start date. *)
Record Draw := mkDraw {
  nameFirst : nat; nameLast : nat;
  inviterFirst : nat; inviterLast : nat;
  statusIndex : nat;
  dateOffset : Z
}.

Definition wellFormedDraw (span : Z) (d : Draw) : Prop :=
  (nameFirst d < 20)%nat /\ (nameLast d < 20)%nat /\
  (inviterFirst d < 20)%nat /\ (inviterLast d < 20)%nat /\
  (statusIndex d < 3)%nat /\ 0 <= dateOffset d < span.

Section HostGenerator.

Variable LocalTZA : Z.

(** [date.toLocaleDateString("en-GB")] of a time value: the local day. *)
Definition toLocaleDateStringOf (t : Z) : string :=
  let '(y, m, d) := civilFromDay (Day (LocalTime LocalTZA t)) in
  toLocaleDateString y m d.

(** The two ends of [generateRandomDate], local midnights of 1 January 2023
    and 31 December 2024. *)
Definition generatorStart : Z := UTC LocalTZA (dayNumber 2023 0 1 * msPerDay).
Definition generatorEnd : Z := UTC LocalTZA (dayNumber 2024 11 31 * msPerDay).

(** [generateRandomDate], for the milliseconds drawn. *)
Definition generateRandomDate (offset : Z) : string :=
  toLocaleDateStringOf (generatorStart + offset).

(** The record pushed at step [i] of [generateRecords]. *)
Definition generateRecord (i : nat) (d : Draw) : RecordT :=
  let name := generateRandomName (nameFirst d) (nameLast d) in
  let inviterName := generateRandomName (inviterFirst d) (inviterLast d) in
  mkRecord (decimal (Z.of_nat i))
           (mkAbout name (getRandomStatus (statusIndex d)) (generateEmail name))
           (mkDetails (generateRandomDate (dateOffset d)) inviterName).

(** [generateRecords]: steps 1 to 100, [draw i] being what step [i] draws. *)
Definition generateRecords (draw : nat -> Draw) : list RecordT :=
  List.map (fun i => generateRecord i (draw i)) (seq 1 100).

End HostGenerator.

(** The milliseconds between the two ends. *)
Definition generatorSpan : Z := (dayNumber 2024 11 31 - dayNumber 2023 0 1) * msPerDay.

(** The string a sort field compares. *)
Definition fieldText (f : SortField) (r : RecordT) : string :=
  match f with
  | ByName => name (about r)
  | ByEmail => email (about r)
  | ByDate => date (details r)
  | ByInvitedBy => invitedBy (details r)
  | ByStatus => status (about r)
  end.

(** Page [p] of a sequence, as the pagination stage slices it. *)
Definition pageOf {A} (l : list A) (p : Z) : list A :=
  array_slice l ((p - 1) * recordsPerPage) ((p - 1) * recordsPerPage + recordsPerPage).

(** The page numbers 1 .. n. *)
Definition pageNumbers (n : Z) : list Z :=
  List.map Z.of_nat (seq 1 (Z.to_nat n)).

(** No string occurs twice in the list. *)
Fixpoint allDistinct (l : list string) : bool :=
  match l with
  | [] => true
  | x :: rest => negb (mem_string x rest) && allDistinct rest
  end.

(** ** The second table component (progressive loading)

    The repository's other version of the table keeps the state of the
    first and adds [displayCount]: a page shows its first rows and loads the
    rest when the list reaches its end.  It also adds First, Last and a page
    select to the pagination, and the two effects that reset [displayCount]
    and the page. *)
Module Virtuoso.

Record VState := mkV { base : State; displayCount : Z }.

Definition initial (data : list RecordT) : VState := mkV (initialState data) 5.

Inductive VAction :=
| Table (a : Action)
| ClickFirst
| ClickLast
| SelectPage (p : Z)
| EndReached.

Section Host.

Variable LocalTZA : Z.
Variable localeCompare : string -> string -> Z.

Definition pageRecords (v : VState) : list RecordT :=
  array_slice (sortedData LocalTZA localeCompare (base v))
              (startIndex (base v)) (endIndex (base v)).

Definition currentRecords (v : VState) : list RecordT :=
  array_slice (pageRecords v) 0
              (Z.min (displayCount v) (Z.of_nat (length (pageRecords v)))).

Definition handleClearFilters (v : VState) : VState :=
  mkV (handleClearFilters (base v)) 5.

Definition handleEndReached (v : VState) : VState :=
  if (displayCount v <? recordsPerPage) &&
     (displayCount v <? Z.of_nat (length (pageRecords v)))
  then mkV (base v) (Z.min (displayCount v + 5) recordsPerPage)
  else v.

(** The two effects, run after the handler of an event has changed the
    state from [before] to [after]: a new page resets [displayCount]; a new
    criterion resets [displayCount] and the page. *)
Definition runEffects (before after : VState) : VState :=
  let after1 :=
    if currentPage (base before) =? currentPage (base after) then after
    else mkV (base after) 5 in
  if sameCriteria (base before) (base after) then after1
  else mkV (setCurrentPage 1 (base after)) 5.

(** The handler of each action; the controls shared with the first version
    run the same handlers, except Clear All Filters. *)
Definition handler (a : VAction) (v : VState) : VState :=
  match a with
  | Table ClickClearFilters => handleClearFilters v
  | Table t => mkV (handle LocalTZA localeCompare t (base v)) (displayCount v)
  | ClickFirst => mkV (setCurrentPage 1 (base v)) (displayCount v)
  | ClickLast =>
      mkV (setCurrentPage (totalPages LocalTZA localeCompare (base v)) (base v))
          (displayCount v)
  | SelectPage p => mkV (setCurrentPage p (base v)) (displayCount v)
  | EndReached => handleEndReached v
  end.

(** One event: the handler, then the effects. *)
Definition handle (a : VAction) (v : VState) : VState :=
  runEffects v (handler a v).

Definition nonEmpty {A} (l : list A) : bool :=
  match l with [] => false | _ :: _ => true end.

(** Which actions the rendered page offers.  The headers and the rows are
    part of the list, which is rendered when it has a row to show; the page
    select lists the pages 1 .. totalPages. *)
Definition offered (v : VState) (a : VAction) : bool :=
  match a with
  | Table (ClickHeader _) => nonEmpty (currentRecords v)
  | Table (ClickBlock i) | Table (ClickActivate i) | Table (ClickViewDetails i) =>
      mem_string i (List.map id (currentRecords v))
  | Table t => offered LocalTZA localeCompare (base v) t
  | ClickFirst => negb (currentPage (base v) =? 1)
  | ClickLast =>
      negb (currentPage (base v) =? totalPages LocalTZA localeCompare (base v))
  | SelectPage p => (1 <=? p) && (p <=? totalPages LocalTZA localeCompare (base v))
  | EndReached => nonEmpty (currentRecords v)
  end.

Definition isControl (a : VAction) : bool :=
  match a with
  | Table t => isTableControl t
  | _ => true
  end.

Inductive reachable (ok : VAction -> bool) (data : list RecordT) : VState -> Prop :=
| reach_init : reachable ok data (initial data)
| reach_step v a :
    reachable ok data v -> ok a = true -> offered v a = true ->
    reachable ok data (handle a v).

End Host.

End Virtuoso.

(** * Properties *)

(** ** Pagination arithmetic *)

Lemma ceilDiv_10 (n : Z) : ceilDiv n recordsPerPage = (n + 9) / 10.
Proof.
  unfold ceilDiv, recordsPerPage.
  pose proof (Z.div_mod (- n) 10 ltac:(lia)) as H1.
  pose proof (Z.mod_pos_bound (- n) 10 ltac:(lia)) as H2.
  pose proof (Z.div_mod (n + 9) 10 ltac:(lia)) as H3.
  pose proof (Z.mod_pos_bound (n + 9) 10 ltac:(lia)) as H4.
  lia.
Qed.

Lemma pagesFor_bounds (n : nat) :
  10 * pagesFor n - 10 < Z.of_nat n <= 10 * pagesFor n.
Proof.
  unfold pagesFor. rewrite ceilDiv_10.
  pose proof (Z.div_mod (Z.of_nat n + 9) 10 ltac:(lia)) as H3.
  pose proof (Z.mod_pos_bound (Z.of_nat n + 9) 10 ltac:(lia)) as H4.
  lia.
Qed.

Lemma pagesFor_nonneg (n : nat) : 0 <= pagesFor n.
Proof. pose proof (pagesFor_bounds n). lia. Qed.

Lemma pagesFor_pos (n : nat) : (0 < n)%nat -> 1 <= pagesFor n.
Proof. pose proof (pagesFor_bounds n). lia. Qed.

Lemma pagesFor_0 : pagesFor 0 = 0.
Proof. reflexivity. Qed.

(** C2, as the code has it: [totalPages] is the ceiling of n / 10, the one
    integer k with 10 (k - 1) < n <= 10 k, for the n records of the sorted and
    filtered sequence.  It is 0 exactly when n = 0: no minimum of 1 is
    applied. *)
Theorem totalPages_is_ceiling (tza : Z) (lc : string -> string -> Z) (s : State) :
  let n := Z.of_nat (length (sortedData tza lc s)) in
  totalPages tza lc s = (n + 9) / 10 /\
  10 * (totalPages tza lc s - 1) < n <= 10 * totalPages tza lc s /\
  (totalPages tza lc s =? 0) = (n =? 0) /\
  (1 <=? totalPages tza lc s) = (1 <=? n).
Proof.
  intros n. unfold totalPages.
  pose proof (pagesFor_bounds (length (sortedData tza lc s))) as Hb.
  fold n in Hb. split; [apply ceilDiv_10 |].
  split; [lia |]. split.
  - destruct (Z.eqb_spec (pagesFor (length (sortedData tza lc s))) 0);
      destruct (Z.eqb_spec n 0); lia.
  - destruct (Z.leb_spec 1 (pagesFor (length (sortedData tza lc s))));
      destruct (Z.leb_spec 1 n); lia.
Qed.

(** C2 as stated fails: with no record to show, [totalPages] is 0, below
    the claimed minimum of 1. *)
Lemma totalPages_empty_below_one :
  totalPages 0 (fun _ _ => 0) (initialState []) = 0 /\
  ~ 1 <= totalPages 0 (fun _ _ => 0) (initialState []).
Proof. split; [reflexivity | intros H; vm_compute in H; apply H; reflexivity]. Qed.

(** ** Page reset *)

(** Every filter control, and Clear All Filters, puts the page back to 1. *)
Lemma filter_change_resets_page (v : string) (s : State) :
  currentPage (onSearchChange v s) = 1 /\
  currentPage (onStatusChange v s) = 1 /\
  currentPage (onDateFromChange v s) = 1 /\
  currentPage (onDateToChange v s) = 1 /\
  currentPage (handleClearFilters s) = 1.
Proof. repeat split. Qed.

(** [handleSort] changes the sort field or the direction and nothing else:
    the page stays where it was. *)
Lemma handleSort_keeps_page (field : SortField) (s : State) :
  currentPage (handleSort field s) = currentPage s /\
  records (handleSort field s) = records s /\
  (sortField (handleSort field s), sortDirection (handleSort field s))
    <> (sortField s, sortDirection s).
Proof.
  unfold handleSort. destruct (sortField s) as [f|] eqn:E.
  - destruct (SortField_eqb f field) eqn:Ef; cbn; rewrite ?E.
    + repeat split. destruct (sortDirection s); intros [=].
    + repeat split. intros H. inversion H; subst. destruct f; discriminate.
  - cbn. repeat split. intros [=].
Qed.

(** With the page-reset effect of the second version of the table, a click
    on a header does put the page back to 1. *)
Lemma handleSort_with_effect_resets_page (field : SortField) (s : State) :
  currentPage (resetPageEffect s (handleSort field s)) = 1.
Proof.
  unfold resetPageEffect.
  assert (E : sameCriteria s (handleSort field s) = false).
  { unfold sameCriteria, handleSort.
    destruct (sortField s) as [f|] eqn:Ef; cbn; rewrite ?Ef.
    - destruct (SortField_eqb f field) eqn:E1; cbn; rewrite ?Ef.
      + destruct (sortDirection s), f; cbn; apply andb_false_r.
      + rewrite E1. apply andb_false_iff. left. apply andb_false_r.
    - apply andb_false_iff. left. apply andb_false_r. }
  now rewrite E.
Qed.

(** C3 at a failing input: on page 2 of twelve records, reached with Next,
    clicking the Name header changes the sort criterion and leaves
    [currentPage] at 2. *)
Theorem handleSort_on_page_2 :
  let lc : string -> string -> Z := fun _ _ => 0 in
  let mk i := mkRecord i (mkAbout "Ann Lee" "ACTIVE" "ann.lee@demo.com")
                         (mkDetails "05 Mar 2024" "Bob Ray") in
  let data := List.map mk ["1";"2";"3";"4";"5";"6";"7";"8";"9";"10";"11";"12"] in
  let s := handle 0 lc ClickNext (initialState data) in
  let s' := handle 0 lc (ClickHeader ByName) s in
  offered 0 lc (initialState data) ClickNext = true /\
  currentPage s = 2 /\
  offered 0 lc s (ClickHeader ByName) = true /\
  (sortField s, sortDirection s) = (None, asc) /\
  (sortField s', sortDirection s') = (Some ByName, asc) /\
  currentPage s' = 2.
Proof. repeat split. Qed.

(** ** Sorting keeps the elements *)

Lemma sortInsert_perm {A} (cmp : A -> A -> number) (x : A) (l : list A) :
  Permutation (sortInsert cmp x l) (x :: l).
Proof.
  induction l as [|y l IH]; cbn; [reflexivity |].
  destruct (follows (cmp x y)); [| reflexivity].
  rewrite IH. apply perm_swap.
Qed.

Lemma array_sort_perm {A} (cmp : A -> A -> number) (l : list A) :
  Permutation (array_sort cmp l) l.
Proof.
  induction l as [|x l IH]; cbn; [reflexivity |].
  rewrite sortInsert_perm. now constructor.
Qed.

Lemma array_sort_length {A} (cmp : A -> A -> number) (l : list A) :
  length (array_sort cmp l) = length l.
Proof. apply Permutation_length, array_sort_perm. Qed.

Lemma totalPages_filtered (tza : Z) (lc : string -> string -> Z) (s : State) :
  totalPages tza lc s = pagesFor (length (filteredData tza s)).
Proof. unfold totalPages, sortedData, sortRecords. now rewrite array_sort_length. Qed.

(** ** The page stays in range while there is something to show *)

Lemma pageInvariant_page_1 tza lc (s : State) :
  currentPage s = 1 -> pageInvariant tza lc s.
Proof.
  intros Hp. unfold pageInvariant. rewrite Hp.
  pose proof (pagesFor_nonneg (length (filteredData tza s))) as Hn.
  rewrite <- totalPages_filtered with (lc := lc) in Hn. lia.
Qed.

Lemma handleSort_filteredData tza (field : SortField) (s : State) :
  filteredData tza (handleSort field s) = filteredData tza s.
Proof.
  unfold handleSort. destruct (sortField s) as [f|]; [| reflexivity].
  now destruct (SortField_eqb f field).
Qed.

Lemma filteredData_setCurrentPage tza (p : Z) (s : State) :
  filteredData tza (setCurrentPage p s) = filteredData tza s.
Proof. reflexivity. Qed.

Lemma currentPage_setCurrentPage (p : Z) (s : State) :
  currentPage (setCurrentPage p s) = p.
Proof. reflexivity. Qed.

Lemma pageInvariant_step tza lc (s s' : State) (a : Action) :
  isTableControl a = true -> step tza lc s a s' ->
  pageInvariant tza lc s -> pageInvariant tza lc s'.
Proof.
  intros Hc Hs Hi. destruct Hs as [s a Ho].
  destruct a; try discriminate Hc; cbn [handle];
    try (apply pageInvariant_page_1; reflexivity).
  - (* header *)
    unfold pageInvariant in *. rewrite !totalPages_filtered in *.
    rewrite handleSort_filteredData.
    now destruct (handleSort_keeps_page field s) as [-> _].
  - (* previous *)
    unfold pageInvariant in *. rewrite !totalPages_filtered in *.
    unfold onPrevious. rewrite filteredData_setCurrentPage, currentPage_setCurrentPage.
    lia.
  - (* next *)
    unfold pageInvariant in *. unfold onNext.
    rewrite !totalPages_filtered in *.
    rewrite filteredData_setCurrentPage, currentPage_setCurrentPage. lia.
Qed.

Lemma reachable_pageInvariant tza lc (data : list RecordT) (s : State) :
  reachable tza lc isTableControl data s -> pageInvariant tza lc s.
Proof.
  induction 1 as [|s a s' _ IH Hok Hstep].
  - now apply pageInvariant_page_1.
  - eapply pageInvariant_step; eauto.
Qed.

(** C4, as the code has it: in every state reached from the initial one
    through the navigation, filter, sort and clear controls in which the
    filtered sequence is not empty, [currentPage] lies in [1, totalPages]. *)
Theorem currentPage_in_range tza lc (data : list RecordT) (s : State) :
  reachable tza lc isTableControl data s ->
  filteredData tza s <> [] ->
  1 <= currentPage s <= totalPages tza lc s.
Proof.
  intros Hr Hne. destruct (reachable_pageInvariant _ _ _ _ Hr) as [[H0 _]|H]; [| exact H].
  rewrite totalPages_filtered in H0.
  destruct (filteredData tza s) as [|r l]; [congruence |].
  pose proof (pagesFor_pos (length (r :: l)) ltac:(cbn; lia)). lia.
Qed.

(** C4 as stated fails when nothing passes the filter: after a search
    that matches no record, [totalPages] is 0 while [currentPage] is 1, Next
    is enabled, and clicking it takes [currentPage] to 0. *)
Lemma currentPage_out_of_range_when_empty :
  let lc : string -> string -> Z := fun _ _ => 0 in
  let data := [mkRecord "1" (mkAbout "Ann Lee" "ACTIVE" "ann.lee@demo.com")
                            (mkDetails "05 Mar 2024" "Bob Ray")] in
  let s1 := handle 0 lc (TypeSearch "zzz") (initialState data) in
  let s2 := handle 0 lc ClickNext s1 in
  reachable 0 lc isTableControl data s1 /\
  reachable 0 lc isTableControl data s2 /\
  filteredData 0 s1 = [] /\
  ~ (1 <= currentPage s1 <= totalPages 0 lc s1) /\
  currentPage s2 = 0 /\
  ~ (1 <= currentPage s2 <= totalPages 0 lc s2).
Proof.
  intros lc data s1 s2.
  assert (R1 : reachable 0 lc isTableControl data s1).
  { apply reach_step with (s := initialState data) (a := TypeSearch "zzz");
      [apply reach_init | reflexivity |].
    now apply step_intro. }
  split; [exact R1 |]. split.
  { apply reach_step with (s := s1) (a := ClickNext); [exact R1 | reflexivity |].
    now apply step_intro. }
  split; [reflexivity |].
  assert (T1 : totalPages 0 lc s1 = 0) by reflexivity.
  assert (T2 : totalPages 0 lc s2 = 0) by reflexivity.
  assert (P1 : currentPage s1 = 1) by reflexivity.
  assert (P2 : currentPage s2 = 0) by reflexivity.
  rewrite T1, T2, P1, P2. repeat split; lia.
Qed.

(** ** Status update *)

Lemma updateStatus_other (i : string) (st : Status) (r : RecordT) :
  id r <> i -> updateStatus i st r = r.
Proof.
  intros Hne. unfold updateStatus.
  destruct (String.eqb_spec (id r) i); [contradiction | reflexivity].
Qed.

Lemma updateStatus_target (i : string) (st : Status) (r : RecordT) :
  id r = i ->
  updateStatus i st r =
  mkRecord (id r) (mkAbout (name (about r)) st (email (about r))) (details r).
Proof. intros <-. unfold updateStatus. now rewrite String.eqb_refl. Qed.

Lemma updateStatus_absent (i : string) (st : Status) (rs : list RecordT) :
  ~ In i (List.map id rs) -> List.map (updateStatus i st) rs = rs.
Proof.
  induction rs as [|r rs IH]; cbn; [reflexivity |].
  intros Hn. rewrite updateStatus_other by tauto. f_equal. apply IH. tauto.
Qed.

Lemma countStatus_cons (st : string) (r : RecordT) (rs : list RecordT) :
  countStatus st (r :: rs) =
  ((if String.eqb (status (about r)) st then 1 else 0) + countStatus st rs)%nat.
Proof. unfold countStatus. cbn. now destruct (String.eqb (status (about r)) st). Qed.

Lemma blockedCount_update (i : string) (rs : list RecordT) (r : RecordT) :
  List.NoDup (List.map id rs) -> In r rs -> id r = i ->
  blockedCount (List.map (updateStatus i "BLOCKED") rs) =
  if String.eqb (status (about r)) "BLOCKED"
  then blockedCount rs else S (blockedCount rs).
Proof.
  unfold blockedCount.
  induction rs as [|x rs IH]; cbn [List.map]; intros Hnd Hin Hid; [destruct Hin |].
  inversion Hnd as [|? ? Hx Hnd']; subst.
  rewrite !countStatus_cons. destruct Hin as [-> | Hin].
  - rewrite updateStatus_absent by exact Hx.
    rewrite updateStatus_target by reflexivity. cbn.
    now destruct (String.eqb (status (about r)) "BLOCKED").
  - assert (id x <> id r).
    { intros E. apply Hx. rewrite E. now apply in_map. }
    rewrite updateStatus_other by assumption.
    rewrite (IH Hnd' Hin eq_refl).
    destruct (String.eqb (status (about r)) "BLOCKED"); lia.
Qed.

(** C6: updating the status of a record present in the store, whose ids are
    unique, touches nothing but that record's [about.status]: every record
    stays at its position, records with another id are unchanged, the target
    keeps its id, name, email, date and inviter, and the rest of the
    component state is unchanged.  Setting BLOCKED raises the blocked count
    by one when the record was not blocked, and leaves it when it was. *)
Theorem handleStatusUpdate_frame (recordId : string) (newStatus : Status) (s : State) :
  In recordId (List.map id (records s)) ->
  List.NoDup (List.map id (records s)) ->
  let s' := handleStatusUpdate recordId newStatus s in
  length (records s') = length (records s) /\
  (forall (i : nat) (r : RecordT), nth_error (records s) i = Some r ->
     exists r', nth_error (records s') i = Some r' /\
       id r' = id r /\ name (about r') = name (about r) /\
       email (about r') = email (about r) /\ details r' = details r /\
       (id r <> recordId -> r' = r) /\
       (id r = recordId -> status (about r') = newStatus)) /\
  (sortField s', sortDirection s', currentPage s') =
    (sortField s, sortDirection s, currentPage s) /\
  (filterStatus s', searchName s', dateFrom s', dateTo s') =
    (filterStatus s, searchName s, dateFrom s, dateTo s) /\
  (forall r : RecordT, In r (records s) -> id r = recordId ->
     blockedCount (records (handleStatusUpdate recordId "BLOCKED" s)) =
     if String.eqb (status (about r)) "BLOCKED"
     then blockedCount (records s) else S (blockedCount (records s))).
Proof.
  intros Hin Hnd s'. subst s'. cbn [handleStatusUpdate records sortField
    sortDirection currentPage filterStatus searchName dateFrom dateTo].
  split; [apply length_map |]. split; [| split; [reflexivity | split; [reflexivity |]]].
  - intros i r Hi. exists (updateStatus recordId newStatus r).
    split; [now rewrite nth_error_map, Hi |].
    destruct (String.eqb_spec (id r) recordId) as [E | E].
    + rewrite (updateStatus_target _ _ _ E). cbn. repeat split; tauto.
    + rewrite (updateStatus_other _ _ _ E). repeat split; tauto.
  - intros r Hr E. now apply blockedCount_update.
Qed.

(** ** Status values *)

(** Block and Activate store a declared [Status]. *)
Lemma block_activate_keep_Status tza lc (a : Action) (s : State) :
  (forall i, a <> ClickViewDetails i) ->
  Forall (fun r => is_Status (status (about r)) = true) (records s) ->
  Forall (fun r => is_Status (status (about r)) = true) (records (handle tza lc a s)).
Proof.
  intros Ha Hs.
  assert (U : forall i st, is_Status st = true ->
    Forall (fun r => is_Status (status (about r)) = true)
           (List.map (updateStatus i st) (records s))).
  { intros i st Hst. apply List.Forall_map. eapply List.Forall_impl; [| exact Hs].
    intros r Hr. unfold updateStatus. cbv beta.
    now destruct (String.eqb (id r) i). }
  destruct a; cbn; try exact Hs.
  - unfold handleSort. destruct (sortField s) as [f|]; [| exact Hs].
    now destruct (SortField_eqb f field).
  - now apply U.
  - now apply U.
  - now destruct (Ha recordId).
Qed.

(** C7 at a failing input: from a store whose one record is ACTIVE, the
    View Details button of its row is offered, and clicking it stores the
    status INACTIVE, which is not a declared [Status]. *)
Theorem viewDetails_stores_INACTIVE :
  let lc : string -> string -> Z := fun _ _ => 0 in
  let data := [mkRecord "1" (mkAbout "Ann Lee" "ACTIVE" "ann.lee@demo.com")
                            (mkDetails "05 Mar 2024" "Bob Ray")] in
  let s := handle 0 lc (ClickViewDetails "1") (initialState data) in
  Forall (fun r => is_Status (status (about r)) = true) data /\
  reachable 0 lc (fun _ => true) data s /\
  List.map (fun r => status (about r)) (records s) = ["INACTIVE"] /\
  is_Status "INACTIVE" = false.
Proof.
  intros lc data s. split; [repeat constructor |]. split; [| split; reflexivity].
  apply reach_step with (s := initialState data) (a := ClickViewDetails "1");
    [apply reach_init | reflexivity | now apply step_intro].
Qed.

(** ** Statistics *)

Lemma forallb_seq (f : nat -> bool) (n : nat) :
  forallb f (seq 0 n) = true -> forall i : nat, (i < n)%nat -> f i = true.
Proof.
  intros H i Hi. rewrite forallb_forall in H. apply H, in_seq. lia.
Qed.

(** *** The doubles of the percentages

    The percentage is computed in doubles: the quotient of the two counts is
    rounded, then its product by 100.  The lemmas below follow the
    specification of the binary64 operations through both roundings. *)

(** Binary digits of a positive number. *)
Lemma digits2_pos_bounds (p : positive) :
  2 ^ (Z.pos (digits2_pos p) - 1) <= Z.pos p < 2 ^ Z.pos (digits2_pos p).
Proof.
  induction p as [p IH | p IH |]; cbn [digits2_pos].
  - rewrite Pos2Z.inj_succ.
    replace (Z.succ (Z.pos (digits2_pos p)) - 1) with (Z.succ (Z.pos (digits2_pos p) - 1)) by lia.
    rewrite !Z.pow_succ_r by lia. lia.
  - rewrite Pos2Z.inj_succ.
    replace (Z.succ (Z.pos (digits2_pos p)) - 1) with (Z.succ (Z.pos (digits2_pos p) - 1)) by lia.
    rewrite !Z.pow_succ_r by lia. lia.
  - cbn. lia.
Qed.

Lemma digits2_pos_unique (p : positive) (d : Z) :
  2 ^ (d - 1) <= Z.pos p < 2 ^ d -> 1 <= d -> Z.pos (digits2_pos p) = d.
Proof.
  intros [H1 H2] Hd. pose proof (digits2_pos_bounds p) as [H3 H4].
  set (k := Z.pos (digits2_pos p)) in *.
  destruct (Z.lt_trichotomy k d) as [Hlt | [Heq | Hgt]]; [| exact Heq |].
  - assert (2 ^ k <= 2 ^ (d - 1)) by (apply Z.pow_le_mono_r; lia). lia.
  - assert (2 ^ d <= 2 ^ (k - 1)) by (apply Z.pow_le_mono_r; lia). lia.
Qed.

(** Shifting right keeps the quotient. *)
Lemma shr_1_m (r : shr_record) :
  0 <= shr_m r -> shr_m (shr_1 r) = shr_m r / 2.
Proof.
  destruct r as [m rb sb]. cbn [shr_m]. intros Hm.
  destruct m as [|[p|p|]|p]; cbn [shr_1 shr_m]; try lia.
  - reflexivity.
  - rewrite Pos2Z.inj_xI. apply Z.div_unique with (r := 1); lia.
  - rewrite Pos2Z.inj_xO. apply Z.div_unique with (r := 0); lia.
  - reflexivity.
Qed.

Lemma iter_shr_1_m (p : positive) :
  forall r, 0 <= shr_m r -> shr_m (SpecFloat.iter_pos shr_1 p r) = shr_m r / 2 ^ Z.pos p.
Proof.
  induction p as [p IH | p IH |]; intros r Hr; cbn [SpecFloat.iter_pos].
  - assert (H1 : 0 <= shr_m (shr_1 r)) by (rewrite shr_1_m by lia; apply Z.div_pos; lia).
    assert (H2 : 0 <= shr_m (SpecFloat.iter_pos shr_1 p (shr_1 r)))
      by (rewrite IH by lia; apply Z.div_pos; [lia | apply Z.pow_pos_nonneg; lia]).
    rewrite IH by lia. rewrite IH by lia. rewrite shr_1_m by lia.
    rewrite !Z.div_div by (try apply Z.pow_pos_nonneg; lia).
    f_equal. replace (Z.pos p~1) with (1 + Z.pos p + Z.pos p) by lia.
    rewrite !Z.pow_add_r by lia. change (2 ^ 1) with 2. lia.
  - assert (H2 : 0 <= shr_m (SpecFloat.iter_pos shr_1 p r))
      by (rewrite IH by lia; apply Z.div_pos; [lia | apply Z.pow_pos_nonneg; lia]).
    rewrite IH by lia. rewrite IH by lia.
    rewrite !Z.div_div by (try apply Z.pow_pos_nonneg; lia).
    f_equal. replace (Z.pos p~0) with (Z.pos p + Z.pos p) by lia.
    rewrite !Z.pow_add_r by lia. lia.
  - rewrite shr_1_m by lia. reflexivity.
Qed.

Lemma shr_record_of_loc_m (m : Z) (l : location) : shr_m (shr_record_of_loc m l) = m.
Proof. destruct l as [|[]]; reflexivity. Qed.

(** After a shift by [n >= 0]: mantissa and exponent. *)
Lemma shr_m_e (m e n : Z) (l : location) :
  0 <= m -> 0 <= n ->
  shr_m (fst (shr (shr_record_of_loc m l) e n)) = m / 2 ^ n /\
  snd (shr (shr_record_of_loc m l) e n) = e + n.
Proof.
  intros Hm Hn. destruct n as [|p|p]; [| | lia]; cbn [shr fst snd].
  - rewrite shr_record_of_loc_m, Z.div_1_r. split; [reflexivity | lia].
  - rewrite iter_shr_1_m by (rewrite shr_record_of_loc_m; lia).
    now rewrite shr_record_of_loc_m.
Qed.

Lemma round_nearest_even_cases (m : Z) (l : location) :
  round_nearest_even m l = m \/ round_nearest_even m l = m + 1.
Proof. destruct l as [|[]]; cbn; auto. destruct (Z.even m); auto. Qed.

Lemma fexp_normal (x : Z) : -1074 <= x - 53 -> fexp prec emax x = x - 53.
Proof. intros H. unfold fexp, SpecFloat.emin, prec, emax. lia. Qed.

Lemma Zdigits2_unique (m d : Z) :
  2 ^ (d - 1) <= m < 2 ^ d -> 1 <= d -> Zdigits2 m = d.
Proof.
  intros H Hd. assert (0 < 2 ^ (d - 1)) by (apply Z.pow_pos_nonneg; lia).
  destruct m as [|p|p]; try lia. cbn [Zdigits2]. now apply digits2_pos_unique.
Qed.

Lemma shr_fexp_normal (m e n : Z) (l : location) :
  0 <= n -> 2 ^ (n + 52) <= m < 2 ^ (n + 53) -> -1074 <= e + n ->
  shr_m (fst (shr_fexp prec emax m e l)) = m / 2 ^ n /\
  snd (shr_fexp prec emax m e l) = e + n.
Proof.
  intros Hn Hm He. unfold shr_fexp.
  rewrite (Zdigits2_unique m (n + 53)) by (replace (n + 53 - 1) with (n + 52) by lia; lia).
  rewrite fexp_normal by lia.
  replace (n + 53 + e - 53 - e) with n by lia.
  assert (0 < 2 ^ (n + 52)) by (apply Z.pow_pos_nonneg; lia).
  apply shr_m_e; lia.
Qed.

Lemma shr_fexp_exact (m e : Z) :
  2 ^ 52 <= m < 2 ^ 53 -> -1074 <= e ->
  shr_fexp prec emax m e loc_Exact = (Build_shr_record m false false, e).
Proof.
  intros Hm He. unfold shr_fexp.
  rewrite (Zdigits2_unique m 53) by (change (53 - 1) with 52; lia).
  rewrite fexp_normal by lia.
  replace (53 + e - 53 - e) with 0 by lia. reflexivity.
Qed.

(** What rounding to 53 bits returns for a mantissa of [n + 53] bits, away
    from underflow and overflow: the quotient by [2 ^ n] or its successor,
    at the exponent raised by [n]. *)
Lemma binary_round_aux_normal (sx : bool) (mx ex : Z) (lx : location) (n : Z) :
  0 <= n -> 2 ^ (n + 52) <= mx < 2 ^ (n + 53) ->
  -1074 <= ex + n -> ex + n + 1 <= 971 ->
  exists (m : positive) (e k : Z),
    binary_round_aux prec emax sx mx ex lx = S754_finite sx m e /\
    (k = mx / 2 ^ n \/ k = mx / 2 ^ n + 1) /\
    2 ^ 52 <= Z.pos m < 2 ^ 53 /\
    ((e = ex + n /\ Z.pos m = k) \/ (e = ex + n + 1 /\ 2 * Z.pos m = k)).
Proof.
  intros Hn Hm He Ho. unfold binary_round_aux.
  destruct (shr_fexp_normal mx ex n lx Hn Hm He) as [H1 H2].
  destruct (shr_fexp prec emax mx ex lx) as [mrs' e'] eqn:E1. cbn [fst snd] in H1, H2.
  subst e'.
  assert (Hq : 2 ^ 52 <= mx / 2 ^ n < 2 ^ 53).
  { assert (0 < 2 ^ n) by (apply Z.pow_pos_nonneg; lia).
    rewrite !Z.pow_add_r in Hm by lia. split.
    - apply Z.div_le_lower_bound; lia.
    - apply Z.div_lt_upper_bound; lia. }
  set (k := round_nearest_even (shr_m mrs') (loc_of_shr_record mrs')).
  assert (Hk : k = mx / 2 ^ n \/ k = mx / 2 ^ n + 1).
  { unfold k. rewrite <- H1. apply round_nearest_even_cases. }
  destruct (Z.eq_dec k (2 ^ 53)) as [Ek | Nk].
  - (* the rounding carried into a 54th bit *)
    assert (S : shr_fexp prec emax k (ex + n) loc_Exact
                = (Build_shr_record (2 ^ 52) false false, ex + n + 1)).
    { rewrite Ek. unfold shr_fexp.
      rewrite (Zdigits2_unique (2 ^ 53) 54) by (cbn; lia).
      rewrite fexp_normal by lia.
      replace (54 + (ex + n) - 53 - (ex + n)) with 1 by lia. reflexivity. }
    rewrite S. cbn [shr_m].
    change (2 ^ 52) with (Z.pos 4503599627370496).
    destruct (Z.leb_spec (ex + n + 1) (emax - prec)) as [_ | Hc];
      [| unfold emax, prec in Hc; lia].
    exists 4503599627370496%positive, (ex + n + 1), k.
    split; [reflexivity |]. split; [exact Hk |]. split; [lia |].
    right. split; [reflexivity |]. rewrite Ek. reflexivity.
  - assert (Hk2 : 2 ^ 52 <= k < 2 ^ 53) by lia.
    rewrite (shr_fexp_exact k (ex + n) Hk2 He). cbn [shr_m].
    destruct k as [|pk|pk]; try lia.
    destruct (Z.leb_spec (ex + n) (emax - prec)) as [_ | Hc];
      [| unfold emax, prec in Hc; lia].
    exists pk, (ex + n), (Z.pos pk).
    split; [reflexivity |]. split; [exact Hk |]. split; [exact Hk2 |].
    left. split; reflexivity.
Qed.

(** A mantissa of 53 bits that is exact is kept. *)
Lemma binary_round_aux_exact (sx : bool) (m : positive) (e : Z) :
  2 ^ 52 <= Z.pos m < 2 ^ 53 -> -1074 <= e <= 971 ->
  binary_round_aux prec emax sx (Z.pos m) e loc_Exact = S754_finite sx m e.
Proof.
  intros Hm He. unfold binary_round_aux.
  rewrite (shr_fexp_exact (Z.pos m) e Hm) by lia.
  cbn [shr_m loc_of_shr_record round_nearest_even].
  rewrite (shr_fexp_exact (Z.pos m) e Hm) by lia. cbn [shr_m].
  destruct (Z.leb_spec e (emax - prec)) as [_ | Hc]; [reflexivity |].
  unfold emax, prec in Hc. lia.
Qed.

Lemma pos_iter_xO (k p : positive) :
  Z.pos (Pos.iter xO p k) = Z.pos p * 2 ^ Z.pos k.
Proof.
  induction k as [|k IH] using Pos.peano_ind.
  - cbn. lia.
  - rewrite Pos.iter_succ, Pos2Z.inj_xO, IH, Pos2Z.inj_succ, Z.pow_succ_r by lia. lia.
Qed.

(** The double of an integer with at most 53 bits: the integer itself, shifted
    to 53 bits. *)
Lemma binary_normalize_int (c : Z) (d : Z) :
  1 <= d <= 53 -> 2 ^ (d - 1) <= c < 2 ^ d ->
  exists m : positive,
    binary_normalize prec emax c 0 false = S754_finite false m (d - 53) /\
    Z.pos m = c * 2 ^ (53 - d) /\ 2 ^ 52 <= Z.pos m < 2 ^ 53.
Proof.
  intros Hd Hc. assert (0 < 2 ^ (d - 1)) by (apply Z.pow_pos_nonneg; lia).
  destruct c as [|p|p]; try lia. cbn [binary_normalize]. unfold binary_round.
  rewrite (digits2_pos_unique p d Hc) by lia. rewrite Z.add_0_r.
  rewrite fexp_normal by lia. unfold shl_align. rewrite Z.sub_0_r.
  assert (Hb : forall m : positive, Z.pos m = Z.pos p * 2 ^ (53 - d) ->
               2 ^ 52 <= Z.pos m < 2 ^ 53).
  { intros m ->.
    assert (E52 : 2 ^ 52 = 2 ^ (d - 1) * 2 ^ (53 - d))
      by (rewrite <- Z.pow_add_r by lia; f_equal; lia).
    assert (E53 : 2 ^ 53 = 2 ^ d * 2 ^ (53 - d))
      by (rewrite <- Z.pow_add_r by lia; f_equal; lia).
    rewrite E52, E53.
    assert (0 < 2 ^ (53 - d)) by (apply Z.pow_pos_nonneg; lia).
    split; [apply Z.mul_le_mono_nonneg_r; lia | apply Z.mul_lt_mono_pos_r; lia]. }
  destruct (d - 53) as [|k|k] eqn:E; try lia.
  - exists p. assert (Ep : Z.pos p = Z.pos p * 2 ^ (53 - d))
      by (replace (53 - d) with 0 by lia; lia).
    split; [| split; [exact Ep | exact (Hb p Ep)]].
    apply binary_round_aux_exact; [exact (Hb p Ep) | lia].
  - exists (Pos.iter xO p k).
    assert (Ep : Z.pos (Pos.iter xO p k) = Z.pos p * 2 ^ (53 - d))
      by (rewrite pos_iter_xO; f_equal; f_equal; lia).
    split; [| split; [exact Ep | exact (Hb _ Ep)]].
    apply binary_round_aux_exact; [exact (Hb _ Ep) | lia].
Qed.

Lemma digits_exist (c : Z) :
  1 <= c < 2 ^ 32 -> exists d, 1 <= d <= 32 /\ 2 ^ (d - 1) <= c < 2 ^ d.
Proof.
  intros Hc. destruct c as [|p|p]; try lia.
  exists (Z.pos (digits2_pos p)). pose proof (digits2_pos_bounds p) as Hb.
  split; [| exact Hb]. split; [lia |].
  destruct (Z.le_gt_cases (Z.pos (digits2_pos p)) 32) as [Hle | Hgt]; [exact Hle |].
  assert (2 ^ 32 <= 2 ^ (Z.pos (digits2_pos p) - 1)) by (apply Z.pow_le_mono_r; lia).
  lia.
Qed.

(** The double that holds a count below 2^32. *)
Lemma Prim2SF_of_count (c : Z) :
  1 <= c < 2 ^ 32 ->
  exists (m : positive) (a : Z),
    Prim2SF (of_uint63 (Uint63.of_Z c)) = S754_finite false m (- a) /\
    21 <= a <= 52 /\ Z.pos m = c * 2 ^ a /\ 2 ^ 52 <= Z.pos m < 2 ^ 53.
Proof.
  intros Hc. rewrite of_uint63_spec, Uint63.of_Z_spec.
  rewrite Z.mod_small by (change Uint63.wB with (2 ^ 63); lia).
  destruct (digits_exist c Hc) as (d & Hd & Hb).
  destruct (binary_normalize_int c d ltac:(lia) Hb) as (m & E & Em & Hm).
  exists m, (53 - d). replace (- (53 - d)) with (d - 53) by lia.
  repeat split; try assumption; lia.
Qed.

(** [k] is the quotient of [x] by [w] or its successor, and [x] is itself
    the quotient of [a] by [b]: then [k w] is within [w] of [a / b]. *)
Lemma bracket_quotient (a b x r w f rq k t : Z) :
  0 < b -> a = b * x + r -> 0 <= r < b ->
  0 < w -> x = w * f + rq -> 0 <= rq < w ->
  k = f \/ k = f + 1 ->
  0 < t -> w * t <= x ->
  Z.abs (k * w * b - a) * t <= a.
Proof.
  intros Hb Ha Hr Hw Hx Hrq Hk Ht Hwt.
  assert (H1 : b * rq <= b * (w - 1)) by (apply Z.mul_le_mono_nonneg_l; lia).
  assert (H2 : 0 <= b * rq) by (apply Z.mul_nonneg_nonneg; lia).
  assert (H3 : Z.abs (k * w * b - a) <= w * b).
  { subst a x. destruct Hk as [-> | ->]; lia. }
  assert (H4 : b * (w * t) <= b * x) by (apply Z.mul_le_mono_nonneg_l; lia).
  assert (H5 : Z.abs (k * w * b - a) * t <= w * b * t)
    by (apply Z.mul_le_mono_nonneg_r; lia).
  lia.
Qed.

(** The quotient of two doubles with 53-bit mantissas: within one part in
    2^52 of the exact quotient. *)
Lemma SF64div_normal (ma mb : positive) (ea eb : Z) :
  2 ^ 52 <= Z.pos ma < 2 ^ 53 -> 2 ^ 52 <= Z.pos mb < 2 ^ 53 ->
  -1000 <= ea - eb <= 900 ->
  exists (m : positive) (e g : Z),
    SF64div (S754_finite false ma ea) (S754_finite false mb eb) = S754_finite false m e /\
    2 ^ 52 <= Z.pos m < 2 ^ 53 /\
    e = ea - eb - 53 + g /\ 0 <= g <= 2 /\
    Z.abs (Z.pos m * 2 ^ g * Z.pos mb - Z.pos ma * 2 ^ 53) * 2 ^ 52 <= Z.pos ma * 2 ^ 53.
Proof.
  intros Ha Hb He. unfold SF64div, SFdiv, SFdiv_core_binary. cbn [xorb].
  rewrite (Zdigits2_unique (Z.pos ma) 53) by (change (53 - 1) with 52; lia).
  rewrite (Zdigits2_unique (Z.pos mb) 53) by (change (53 - 1) with 52; lia).
  replace (53 + ea - (53 + eb)) with (ea - eb) by lia.
  rewrite fexp_normal by lia.
  rewrite Z.min_l by lia.
  replace (ea - eb - (ea - eb - 53)) with 53 by lia.
  rewrite Z.shiftl_mul_pow2 by lia.
  pose proof (Z_div_mod (Z.pos ma * 2 ^ 53) (Z.pos mb) ltac:(lia)) as Hdm.
  destruct (Z.div_eucl (Z.pos ma * 2 ^ 53) (Z.pos mb)) as [q r].
  destruct Hdm as [Hq Hr].
  set (A := Z.pos ma) in *. set (B := Z.pos mb) in *.
  assert (Hq1 : 2 ^ 52 <= q < 2 ^ 54).
  { change (2 ^ 54) with (4 * 2 ^ 52). change (2 ^ 53) with (2 * 2 ^ 52) in *.
    set (T := 2 ^ 52) in *. assert (0 < T) by (unfold T; lia).
    assert (T * T <= A * T) by (apply Z.mul_le_mono_nonneg_r; lia).
    assert (A * T < 2 * T * T) by (apply Z.mul_lt_mono_pos_r; lia).
    assert (T * T <= B * T) by (apply Z.mul_le_mono_nonneg_r; lia).
    assert (B * T < 2 * T * T) by (apply Z.mul_lt_mono_pos_r; lia).
    split.
    - destruct (Z.le_gt_cases T q) as [H' | H']; [exact H' |].
      assert (B * q <= B * (T - 1)) by (apply Z.mul_le_mono_nonneg_l; lia). lia.
    - destruct (Z.lt_ge_cases q (4 * T)) as [H' | H']; [exact H' |].
      assert (B * (4 * T) <= B * q) by (apply Z.mul_le_mono_nonneg_l; lia). lia. }
  assert (Hn : exists n, 0 <= n <= 1 /\ 2 ^ (n + 52) <= q < 2 ^ (n + 53)).
  { destruct (Z.lt_ge_cases q (2 ^ 53)); [exists 0 | exists 1]; cbn; lia. }
  destruct Hn as (n & Hn & Hqn).
  destruct (binary_round_aux_normal false q (ea - eb - 53) (new_location B r) n
              ltac:(lia) Hqn ltac:(lia) ltac:(lia)) as (m & e & k & E & Hk & Hm & Hek).
  assert (P2 : 0 < 2 ^ n) by (apply Z.pow_pos_nonneg; lia).
  pose proof (Z.div_mod q (2 ^ n) ltac:(lia)) as Hd2.
  pose proof (Z.mod_pos_bound q (2 ^ n) P2) as Hm2.
  assert (Hn52 : 2 ^ n * 2 ^ 52 <= q)
    by (rewrite <- Z.pow_add_r by lia; lia).
  assert (Kb : Z.abs (k * 2 ^ n * B - A * 2 ^ 53) * 2 ^ 52 <= A * 2 ^ 53).
  { apply (bracket_quotient (A * 2 ^ 53) B q r (2 ^ n) (q / 2 ^ n) (q mod 2 ^ n) k (2 ^ 52));
      try assumption; lia. }
  destruct Hek as [[-> Hmk] | [-> Hk2]].
  - exists m, (ea - eb - 53 + n), n. rewrite Hmk. repeat split; try lia. exact E.
  - exists m, (ea - eb - 53 + n + 1), (n + 1). repeat split; try lia. exact E.
    rewrite Z.pow_add_r by lia. change (2 ^ 1) with 2.
    replace (Z.pos m * (2 ^ n * 2)) with (k * 2 ^ n) by lia. exact Kb.
Qed.

(** The product of a double with a 53-bit mantissa by 100: within one part
    in 2^52 of the exact product. *)
Lemma SF64mul_100 (m : positive) (e : Z) :
  2 ^ 52 <= Z.pos m < 2 ^ 53 -> -1000 <= e <= 800 ->
  exists (my : positive) (ey h : Z),
    SF64mul (S754_finite false m e) (Prim2SF 100%float) = S754_finite false my ey /\
    2 ^ 52 <= Z.pos my < 2 ^ 53 /\
    ey = e - 46 + h /\ 52 <= h <= 54 /\
    Z.abs (Z.pos my * 2 ^ h - Z.pos m * (100 * 2 ^ 46)) * 2 ^ 52
      <= Z.pos m * (100 * 2 ^ 46).
Proof.
  intros Hm He.
  change (Prim2SF 100%float) with (S754_finite false 7036874417766400 (-46)).
  unfold SF64mul, SFmul. cbn [xorb].
  rewrite Pos2Z.inj_mul.
  change (Z.pos 7036874417766400) with (100 * 2 ^ 46).
  set (P := Z.pos m * (100 * 2 ^ 46)).
  assert (HP : 2 ^ 104 <= P < 2 ^ 106) by (unfold P; lia).
  assert (Hn : exists n, 52 <= n <= 53 /\ 2 ^ (n + 52) <= P < 2 ^ (n + 53)).
  { destruct (Z.lt_ge_cases P (2 ^ 105)); [exists 52 | exists 53]; cbn; lia. }
  destruct Hn as (n & Hn & HPn).
  destruct (binary_round_aux_normal false P (e + -46) loc_Exact n
              ltac:(lia) HPn ltac:(lia) ltac:(lia)) as (my & ey & k & E & Hk & Hmy & Hek).
  assert (P2 : 0 < 2 ^ n) by (apply Z.pow_pos_nonneg; lia).
  pose proof (Z.div_mod P (2 ^ n) ltac:(lia)) as Hd2.
  pose proof (Z.mod_pos_bound P (2 ^ n) P2) as Hm2.
  assert (Hn52 : 2 ^ n * 2 ^ 52 <= P)
    by (rewrite <- Z.pow_add_r by lia; lia).
  assert (Kb : Z.abs (k * 2 ^ n - P) * 2 ^ 52 <= P).
  { pose proof (bracket_quotient P 1 P 0 (2 ^ n) (P / 2 ^ n) (P mod 2 ^ n) k (2 ^ 52)
                  ltac:(lia) ltac:(lia) ltac:(lia) P2 Hd2 Hm2 Hk ltac:(lia) Hn52) as Hbq.
    now rewrite Z.mul_1_r in Hbq. }
  destruct Hek as [[-> Hmk] | [-> Hk2]].
  - exists my, (e + -46 + n), n. rewrite Hmk. repeat split; try lia. exact E.
  - exists my, (e + -46 + n + 1), (n + 1). repeat split; try lia. exact E.
    rewrite Z.pow_add_r by lia. change (2 ^ 1) with 2.
    replace (Z.pos my * (2 ^ n * 2)) with (k * 2 ^ n) by lia. exact Kb.
Qed.

(** The arithmetic of the two roundings: [m / A] is the quotient [c / t]
    and [my / B] its product by 100, each within one part in 2^52; then the
    integer nearest to [my / B] is an integer nearest to [100 c / t]. *)
Lemma percent_arith (c t m my A B : Z) :
  0 < c <= t -> t < 2 ^ 32 -> 0 < A -> 0 < B -> 0 < m -> 0 < my ->
  Z.abs (m * t - c * A) * 2 ^ 52 <= c * A ->
  Z.abs (my * A - 100 * m * B) * 2 ^ 52 <= 100 * m * B ->
  2 * Z.abs ((2 * my + B) / (2 * B) * t - 100 * c) <= t.
Proof.
  intros Hc Ht HA HB Hm Hmy H1 H2.
  change (2 ^ 32) with 4294967296 in Ht.
  change (2 ^ 52) with 4503599627370496 in *.
  set (T := 4503599627370496) in *.
  set (X1 := Z.abs (m * t - c * A)) in *.
  set (X2 := Z.abs (my * A - 100 * m * B)) in *.
  assert (P1 : 0 <= X1) by apply Z.abs_nonneg.
  assert (P2 : 0 <= X2) by apply Z.abs_nonneg.
  set (W := A * B). assert (HW : 0 < W) by (apply Z.mul_pos_pos; lia).
  assert (HcA : 0 < c * A) by (apply Z.mul_pos_pos; lia).
  assert (HmB : 0 < m * B) by (apply Z.mul_pos_pos; lia).
  (* m t <= 2 c A *)
  assert (Q1 : X1 <= c * A) by (unfold T in H1; lia).
  assert (Q2 : m * t <= 2 * (c * A)) by (unfold X1 in Q1; lia).
  set (D := my * A * t - 100 * c * W).
  assert (ED : D = t * (my * A - 100 * m * B) + 100 * B * (m * t - c * A))
    by (unfold D, W; ring).
  assert (Q3 : Z.abs D <= t * X2 + 100 * B * X1).
  { rewrite ED. etransitivity; [apply Z.abs_triangle |].
    rewrite (Z.abs_mul t), (Z.abs_mul (100 * B)). fold X1 X2.
    rewrite (Z.abs_eq t) by lia. rewrite (Z.abs_eq (100 * B)) by lia. lia. }
  assert (Q4 : t * (X2 * T) <= t * (100 * m * B))
    by (apply Z.mul_le_mono_nonneg_l; lia).
  assert (Q5 : B * (m * t) <= B * (2 * (c * A)))
    by (apply Z.mul_le_mono_nonneg_l; lia).
  assert (Q6 : 100 * B * (X1 * T) <= 100 * B * (c * A))
    by (apply Z.mul_le_mono_nonneg_l; lia).
  assert (Q7 : c * W <= t * W) by (apply Z.mul_le_mono_nonneg_r; lia).
  assert (Q8 : Z.abs D * T <= 300 * (t * W)).
  { assert (Z.abs D * T <= (t * X2 + 100 * B * X1) * T)
      by (apply Z.mul_le_mono_nonneg_r; unfold T; lia).
    unfold W in *. lia. }
  assert (Q9 : W * t <= W * 4294967295) by (apply Z.mul_le_mono_nonneg_l; lia).
  (* the printed integer *)
  pose proof (Z.div_mod (2 * my + B) (2 * B) ltac:(lia)) as Hd.
  pose proof (Z.mod_pos_bound (2 * my + B) (2 * B) ltac:(lia)) as Hr.
  set (n := (2 * my + B) / (2 * B)) in *.
  set (r := (2 * my + B) mod (2 * B)) in *.
  clearbody n r.
  assert (At : 0 < A * t) by (apply Z.mul_pos_pos; lia).
  assert (U1 : (2 * B * n) * (A * t) <= (2 * my + B) * (A * t))
    by (apply Z.mul_le_mono_nonneg_r; lia).
  assert (U2 : (2 * my + B) * (A * t) < (2 * B * n + 2 * B) * (A * t))
    by (apply Z.mul_lt_mono_pos_r; lia).
  assert (V1 : W * (2 * (n * t) - 200 * c - t) <= 2 * D).
  { unfold D, W. clear - U1. lia. }
  assert (V2 : 2 * D < W * (2 * (n * t) + t - 200 * c)).
  { unfold D, W. clear - U2. lia. }
  assert (AD : D <= Z.abs D /\ - D <= Z.abs D) by lia.
  assert (S1 : 2 * (n * t) - 200 * c - t <= 0).
  { destruct (Z.le_gt_cases (2 * (n * t) - 200 * c - t) 0) as [H | H]; [exact H |].
    assert (W * 1 <= W * (2 * (n * t) - 200 * c - t))
      by (apply Z.mul_le_mono_nonneg_l; lia).
    assert (W * T <= 2 * Z.abs D * T) by (apply Z.mul_le_mono_nonneg_r; unfold T; lia).
    unfold T in *. lia. }
  assert (S2 : 0 <= 2 * (n * t) + t - 200 * c).
  { destruct (Z.le_gt_cases 0 (2 * (n * t) + t - 200 * c)) as [H | H]; [exact H |].
    assert (W * (2 * (n * t) + t - 200 * c) <= W * (-1))
      by (apply Z.mul_le_mono_nonneg_l; lia).
    assert (W * T <= 2 * Z.abs D * T) by (apply Z.mul_le_mono_nonneg_r; unfold T; lia).
    unfold T in *. lia. }
  lia.
Qed.

Lemma pow2_pos (x : Z) : 0 <= x -> 0 < 2 ^ x.
Proof. intros. apply Z.pow_pos_nonneg; lia. Qed.

(** The printed percentage of [c] out of [t] records, for an array of [t]
    records, is an integer nearest to 100 c / t. *)
Lemma percentage_nearest_integer (c t : nat) :
  (1 <= t)%nat -> Z.of_nat t < 2 ^ 32 -> (c <= t)%nat ->
  exists n : Z, percentage c t = decimal n /\
    2 * Z.abs (n * Z.of_nat t - 100 * Z.of_nat c) <= Z.of_nat t.
Proof.
  intros Ht Hb Hc. unfold percentage, toFixed0, float_of_length.
  rewrite mul_spec, div_spec.
  destruct (Prim2SF_of_count (Z.of_nat t) ltac:(lia)) as (mb & be & Eb & Hbe & Emb & Hmb).
  rewrite Eb.
  destruct c as [|c'].
  - (* no record counted *)
    change (Prim2SF (of_uint63 (Uint63.of_Z (Z.of_nat 0)))) with (S754_zero false).
    change (Prim2SF 100%float) with (S754_finite false 7036874417766400 (-46)).
    cbn. exists 0. split; [reflexivity | lia].
  - set (c := S c') in *.
    destruct (Prim2SF_of_count (Z.of_nat c) ltac:(unfold c in *; lia))
      as (ma & al & Ea & Hal & Ema & Hma).
    rewrite Ea.
    destruct (SF64div_normal ma mb (- al) (- be) Hma Hmb ltac:(lia))
      as (m & e & g & Ed & Hm & He & Hg & Hd).
    rewrite Ed.
    destruct (SF64mul_100 m e Hm ltac:(lia)) as (my & ey & h & Em & Hmy & Hey & Hh & Hp).
    rewrite Em. cbn [String.append].
    exists (roundHalfUp my ey). split; [reflexivity |].
    unfold roundHalfUp. destruct (Z.leb_spec 0 ey) as [Hpos | Hneg]; [lia |].
    set (A := 2 ^ (- e)). set (B := 2 ^ (- ey)).
    assert (HA : 0 < A) by (apply pow2_pos; lia).
    assert (HB : 0 < B) by (apply pow2_pos; lia).
    apply (percent_arith (Z.of_nat c) (Z.of_nat t) (Z.pos m) (Z.pos my) A B);
      try lia.
    + (* the quotient *)
      set (G := 2 ^ (g + be)). assert (HG : 0 < G) by (apply pow2_pos; lia).
      assert (EG1 : G = 2 ^ g * 2 ^ be) by (apply Z.pow_add_r; lia).
      assert (EG2 : A * G = 2 ^ al * 2 ^ 53).
      { unfold A, G. rewrite <- !Z.pow_add_r by lia. f_equal. lia. }
      assert (X : Z.pos m * 2 ^ g * Z.pos mb - Z.pos ma * 2 ^ 53
                  = (Z.pos m * Z.of_nat t - Z.of_nat c * A) * G).
      { rewrite Ema, Emb.
        transitivity (Z.pos m * Z.of_nat t * (2 ^ g * 2 ^ be)
                      - Z.of_nat c * (2 ^ al * 2 ^ 53)); [ring |].
        rewrite <- EG1, <- EG2. ring. }
      rewrite X, Z.abs_mul, (Z.abs_eq G) in Hd by lia.
      replace (Z.pos ma * 2 ^ 53) with (Z.of_nat c * A * G) in Hd
        by (rewrite Ema, <- Z.mul_assoc, EG2; ring).
      apply (Z.mul_le_mono_pos_r _ _ G HG). lia.
    + (* the product by 100 *)
      set (H2 := 2 ^ h). assert (HH : 0 < H2) by (apply pow2_pos; lia).
      assert (EB : B * H2 = A * 2 ^ 46).
      { unfold A, B, H2. rewrite <- !Z.pow_add_r by lia. f_equal. lia. }
      assert (X : (Z.pos my * A - 100 * Z.pos m * B) * H2
                  = A * (Z.pos my * 2 ^ h - Z.pos m * (100 * 2 ^ 46))).
      { transitivity (Z.pos my * A * H2 - 100 * Z.pos m * (B * H2)); [ring |].
        rewrite EB. unfold H2. ring. }
      apply (Z.mul_le_mono_pos_r _ _ H2 HH).
      replace (Z.abs (Z.pos my * A - 100 * Z.pos m * B) * 2 ^ 52 * H2)
        with (Z.abs ((Z.pos my * A - 100 * Z.pos m * B) * H2) * 2 ^ 52)
        by (rewrite Z.abs_mul, (Z.abs_eq H2) by lia; ring).
      rewrite X, Z.abs_mul, (Z.abs_eq A) by lia.
      replace (100 * Z.pos m * B * H2) with (A * (Z.pos m * (100 * 2 ^ 46)))
        by (rewrite <- Z.mul_assoc, EB; ring).
      rewrite <- Z.mul_assoc. apply Z.mul_le_mono_nonneg_l; lia.
Qed.

Lemma countStatus_le (st : string) (rs : list RecordT) :
  (countStatus st rs <= length rs)%nat.
Proof. apply List.filter_length_le. Qed.

(** C8, as the code has it: for a nonempty store (an array, so of fewer
    than 2^32 records) each percentage is printed as an integer nearest to
    100 * count / total (the quotient is rounded to a double before it is
    multiplied, so an exact half may go either way); for the empty store
    both percentages print as NaN. *)
Theorem percentages_as_computed (rs : list RecordT) :
  Z.of_nat (length rs) < 2 ^ 32 ->
  match rs with
  | [] => inactivePercentage rs = "NaN" /\ blockedPercentage rs = "NaN"
  | _ :: _ =>
      exists ni nb : Z,
        inactivePercentage rs = decimal ni /\
        2 * Z.abs (ni * Z.of_nat (totalUsers rs) - 100 * Z.of_nat (inactiveCount rs))
          <= Z.of_nat (totalUsers rs) /\
        blockedPercentage rs = decimal nb /\
        2 * Z.abs (nb * Z.of_nat (totalUsers rs) - 100 * Z.of_nat (blockedCount rs))
          <= Z.of_nat (totalUsers rs)
  end.
Proof.
  intros Hlen. destruct rs as [|r rs]; [split; reflexivity |].
  set (l := r :: rs) in *.
  assert (Ht : (1 <= totalUsers l)%nat) by (unfold totalUsers, l; cbn; lia).
  destruct (percentage_nearest_integer (inactiveCount l) (totalUsers l) Ht Hlen
              (countStatus_le _ _)) as (ni & Hi1 & Hi2).
  destruct (percentage_nearest_integer (blockedCount l) (totalUsers l) Ht Hlen
              (countStatus_le _ _)) as (nb & Hb1 & Hb2).
  exists ni, nb. auto.
Qed.

(** C8 as stated fails for the empty store: 0 / 0 is NaN, and the cards
    print NaN, not 0. *)
Lemma percentage_of_empty_store_is_NaN :
  inactivePercentage [] = "NaN" /\ blockedPercentage [] = "NaN" /\
  inactivePercentage [] <> "0" /\ blockedPercentage [] <> "0".
Proof. repeat split; try reflexivity; vm_compute; discriminate. Qed.

(** The double arithmetic shows at exact halves: 29 of 200 is 14.5 percent,
    printed as 14, while 1 of 8 is 12.5 percent, printed as 13. *)
Example percentage_ties : percentage 29 200 = "14" /\ percentage 1 8 = "13".
Proof. split; vm_compute; reflexivity. Qed.

(** ** Unparsable dates *)

Lemma months_unknown (m : string) :
  mem_string m monthNames = false -> months (Some m) = NaN.
Proof.
  unfold months, monthNames, mem_string.
  induction monthsTable as [|e l IH]; cbn; [reflexivity |].
  rewrite (String.eqb_sym m (fst e)).
  destruct (String.eqb (fst e) m); cbn; [discriminate | exact IH].
Qed.

Lemma tokens_unrecognised_NaN (tza : Z) (s : string) :
  tokensRecognised s = false -> parseDate tza s = NaN.
Proof.
  unfold tokensRecognised, parseDate.
  destruct (split " " s) as [|d [|m [|y rest]]]; cbn [nth_error].
  - reflexivity.
  - reflexivity.
  - reflexivity.
  - destruct (parseInt (Some d)) as [dv|], (parseInt (Some y)) as [yv|];
      try (intros _; unfold newDate; now destruct (months (Some m))).
    intros Hm. now rewrite (months_unknown _ Hm).
Qed.

Lemma dateMatch_invalid (tza : Z) (df dt : string) (r : RecordT) :
  parseDate tza (date (details r)) = NaN ->
  truthy df || truthy dt = true ->
  dateMatch tza df dt r = false.
Proof.
  intros Hp Hb. unfold dateMatch. rewrite Hb, Hp. cbn.
  destruct (truthy df), (truthy dt); try reflexivity; discriminate.
Qed.

Lemma invalid_date_excluded (tza : Z) (fs sn df dt : string) (r : RecordT) :
  parseDate tza (date (details r)) = NaN ->
  truthy df || truthy dt = true ->
  passesFilter tza fs sn df dt r = false.
Proof.
  intros Hp Hb. unfold passesFilter.
  rewrite (dateMatch_invalid _ _ _ _ Hp Hb). apply andb_false_r.
Qed.

(** C9, as the code has it: [parseDate] is total, and when the tokens of a
    date string are not an integer-led day, one of the twelve month keys and
    an integer-led year, it yields the invalid date; a record with such a
    date passes no filter in which [dateFrom] or [dateTo] is set. *)
Theorem unrecognised_date_excluded (tza : Z) (fs sn df dt : string) (r : RecordT) :
  tokensRecognised (date (details r)) = false ->
  truthy df || truthy dt = true ->
  parseDate tza (date (details r)) = NaN /\
  passesFilter tza fs sn df dt r = false.
Proof.
  intros Ht Hb. pose proof (tokens_unrecognised_NaN tza _ Ht) as Hp.
  split; [exact Hp | now apply invalid_date_excluded].
Qed.

(** C9 as stated fails: a date string with a trailing token is not of the
    form day, month, year, yet [parseDate] reads it as 5 March 2024 and the
    record passes a March 2024 date range. *)
Lemma trailing_token_date_passes_range :
  let r := mkRecord "1" (mkAbout "Ann Lee" "ACTIVE" "ann.lee@demo.com")
                        (mkDetails "5 Mar 2024 x" "Bob Ray") in
  wellFormedDate (date (details r)) = false /\
  parseDate 0 (date (details r)) = parseDate 0 "5 Mar 2024" /\
  parseDate 0 (date (details r)) = Some 1709596800000 /\
  passesFilter 0 "ALL" "" "2024-03-01" "2024-03-31" r = true.
Proof. repeat split. Qed.

(** The dates the generator writes, day/month/year with slashes, are of the
    unrecognised kind. *)
Example generated_date_unrecognised :
  tokensRecognised "31/12/2024" = false /\ parseDate 0 "31/12/2024" = NaN.
Proof. split; reflexivity. Qed.

(** ** Sorting by a key *)

Section KeySort.

Context {A : Type} (k : A -> Z) (cmp : A -> A -> number).

(** The comparator orders by the key [k]: [x] has to follow [y] exactly
    when its key is larger. *)
Hypothesis cmp_key : forall x y : A, follows (cmp x y) = (k y <? k x).

Lemma sortInsert_sorted (x : A) (l : list A) :
  StronglySorted (fun a b => k a <= k b) l -> StronglySorted (fun a b => k a <= k b) (sortInsert cmp x l).
Proof.
  induction 1 as [|y l Hs IH Hy]; cbn.
  - repeat constructor.
  - rewrite cmp_key. destruct (Z.ltb_spec (k y) (k x)) as [Hlt | Hge].
    + constructor; [exact IH |].
      rewrite (sortInsert_perm cmp x l). constructor; [lia | exact Hy].
    + constructor; [now constructor |].
      constructor; [exact Hge |].
      eapply List.Forall_impl; [| exact Hy]. intros a Ha. cbv beta in *. lia.
Qed.

Lemma array_sort_sorted (l : list A) :
  StronglySorted (fun a b => k a <= k b) (array_sort cmp l).
Proof.
  induction l as [|x l IH]; cbn; [constructor | now apply sortInsert_sorted].
Qed.

Lemma sortInsert_stable (v : Z) (x : A) (l : list A) :
  List.filter (fun a => k a =? v) (sortInsert cmp x l) =
  List.filter (fun a => k a =? v) (x :: l).
Proof.
  induction l as [|y l IH]; [reflexivity |].
  cbn [sortInsert]. rewrite cmp_key.
  destruct (Z.ltb_spec (k y) (k x)) as [Hlt | Hge]; [| reflexivity].
  cbn [List.filter] in *. rewrite IH.
  destruct (Z.eqb_spec (k y) v), (Z.eqb_spec (k x) v); try reflexivity. lia.
Qed.

Lemma array_sort_stable (v : Z) (l : list A) :
  List.filter (fun a => k a =? v) (array_sort cmp l) =
  List.filter (fun a => k a =? v) l.
Proof.
  induction l as [|x l IH]; [reflexivity |].
  cbn [array_sort fold_right]. fold (array_sort cmp l).
  rewrite sortInsert_stable. cbn [List.filter]. now rewrite IH.
Qed.

End KeySort.

Lemma sortInsert_ext {A} (c1 c2 : A -> A -> number) (x : A) (l : list A) :
  (forall y, In y l -> follows (c1 x y) = follows (c2 x y)) ->
  sortInsert c1 x l = sortInsert c2 x l.
Proof.
  induction l as [|y l IH]; intros H; [reflexivity |].
  cbn. rewrite (H y) by now left.
  destruct (follows (c2 x y)); [| reflexivity].
  f_equal. apply IH. intros z Hz. apply H. now right.
Qed.

Lemma array_sort_ext {A} (c1 c2 : A -> A -> number) (l : list A) :
  (forall x y, In x l -> In y l -> follows (c1 x y) = follows (c2 x y)) ->
  array_sort c1 l = array_sort c2 l.
Proof.
  induction l as [|x l IH]; intros H; [reflexivity |].
  cbn [array_sort fold_right]. fold (array_sort c1 l) (array_sort c2 l).
  rewrite IH by (intros; apply H; now right).
  apply sortInsert_ext. intros y Hy. apply H; [now left | right].
  eapply Permutation_in; [apply array_sort_perm | exact Hy].
Qed.

Lemma StronglySorted_rev {A} (R : A -> A -> Prop) (l : list A) :
  StronglySorted R l -> StronglySorted (fun a b => R b a) (rev l).
Proof.
  induction 1 as [|x l Hs IH Hx]; cbn; [constructor |].
  apply StronglySorted_app_2; [| exact IH | repeat constructor].
  intros a b Ha Hb. apply list_elem_of_In in Ha, Hb.
  destruct Hb as [<- | []]. apply in_rev in Ha.
  rewrite List.Forall_forall in Hx. now apply Hx.
Qed.

Lemma StronglySorted_impl {A} (R1 R2 : A -> A -> Prop) (l : list A) :
  (forall a b, R1 a b -> R2 a b) -> StronglySorted R1 l -> StronglySorted R2 l.
Proof.
  intros H. induction 1 as [|x l Hs IH Hx]; constructor; [exact IH |].
  eapply List.Forall_impl; [| exact Hx]. apply H.
Qed.

(** ** Sorting by date *)

Section DateSort.

Variable tza : Z.
Variable lc : string -> string -> Z.

Lemma compare_date_asc (x y : RecordT) :
  dateKey tza x <> NaN -> dateKey tza y <> NaN ->
  follows (compareRecords tza lc (Some ByDate) asc x y)
  = (dateValue tza y <? dateValue tza x).
Proof.
  unfold compareRecords, dateValue, dateKey.
  destruct (parseDate tza (date (details x))) as [a|];
    [| intros H; now contradiction H].
  destruct (parseDate tza (date (details y))) as [b|];
    [| intros _ H; now contradiction H].
  intros _ _. cbn. destruct (Z.ltb_spec 0 (a - b)), (Z.ltb_spec b a); lia.
Qed.

Lemma compare_date_desc (x y : RecordT) :
  dateKey tza x <> NaN -> dateKey tza y <> NaN ->
  follows (compareRecords tza lc (Some ByDate) desc x y)
  = (- dateValue tza y <? - dateValue tza x).
Proof.
  unfold compareRecords, dateValue, dateKey.
  destruct (parseDate tza (date (details x))) as [a|];
    [| intros H; now contradiction H].
  destruct (parseDate tza (date (details y))) as [b|];
    [| intros _ H; now contradiction H].
  intros _ _. cbn. destruct (Z.ltb_spec 0 (b - a)), (Z.ltb_spec (- b) (- a)); lia.
Qed.

(** On valid dates the two date sorts are sorts by the time value and by
    its opposite. *)
Lemma sort_date_asc (l : list RecordT) :
  Forall (fun r => dateKey tza r <> NaN) l ->
  sortRecords tza lc (Some ByDate) asc l =
  array_sort (fun x y => Some (dateValue tza x - dateValue tza y)) l.
Proof.
  intros Hv. rewrite List.Forall_forall in Hv. apply array_sort_ext.
  intros x y Hx Hy. rewrite compare_date_asc by auto. cbn.
  destruct (Z.ltb_spec 0 (dateValue tza x - dateValue tza y)),
           (Z.ltb_spec (dateValue tza y) (dateValue tza x)); lia.
Qed.

Lemma sort_date_desc (l : list RecordT) :
  Forall (fun r => dateKey tza r <> NaN) l ->
  sortRecords tza lc (Some ByDate) desc l =
  array_sort (fun x y => Some (- dateValue tza x - - dateValue tza y)) l.
Proof.
  intros Hv. rewrite List.Forall_forall in Hv. apply array_sort_ext.
  intros x y Hx Hy. rewrite compare_date_desc by auto. cbn.
  destruct (Z.ltb_spec 0 (- dateValue tza x - - dateValue tza y)),
           (Z.ltb_spec (- dateValue tza y) (- dateValue tza x)); lia.
Qed.

Lemma follows_difference (k : RecordT -> Z) (x y : RecordT) :
  follows (Some (k x - k y)) = (k y <? k x).
Proof. cbn. destruct (Z.ltb_spec 0 (k x - k y)), (Z.ltb_spec (k y) (k x)); lia. Qed.

(** Ascending by date: the result is in ascending order of time values. *)
Lemma sort_date_asc_sorted (l : list RecordT) :
  Forall (fun r => dateKey tza r <> NaN) l ->
  StronglySorted (fun a b => dateValue tza a <= dateValue tza b)
                 (sortRecords tza lc (Some ByDate) asc l).
Proof.
  intros Hv. rewrite (sort_date_asc l Hv).
  apply (array_sort_sorted (dateValue tza)). apply follows_difference.
Qed.

Lemma sort_date_desc_sorted (l : list RecordT) :
  Forall (fun r => dateKey tza r <> NaN) l ->
  StronglySorted (fun a b => dateValue tza b <= dateValue tza a)
                 (sortRecords tza lc (Some ByDate) desc l).
Proof.
  intros Hv. rewrite (sort_date_desc l Hv).
  pose proof (array_sort_sorted (fun r => - dateValue tza r)
                (fun x y => Some (- dateValue tza x - - dateValue tza y))
                (follows_difference (fun r => - dateValue tza r)) l) as H.
  eapply StronglySorted_impl; [| exact H]. cbv beta. intros; lia.
Qed.

Lemma hasDateKey_value (v : Z) (r : RecordT) :
  dateKey tza r <> NaN -> hasDateKey tza v r = (dateValue tza r =? v).
Proof.
  unfold hasDateKey, dateValue.
  destruct (dateKey tza r); [reflexivity | intros H; now contradiction H].
Qed.

Lemma date_sort_stable (dir : SortDirection) (v : Z) (l : list RecordT) :
  Forall (fun r => dateKey tza r <> NaN) l ->
  List.filter (hasDateKey tza v) (sortRecords tza lc (Some ByDate) dir l) =
  List.filter (hasDateKey tza v) l.
Proof.
  intros Hv.
  assert (Hv' : Forall (fun r => dateKey tza r <> NaN)
                       (sortRecords tza lc (Some ByDate) dir l)).
  { rewrite List.Forall_forall in *. intros r Hr. apply Hv.
    eapply Permutation_in; [apply array_sort_perm | exact Hr]. }
  rewrite List.Forall_forall in Hv, Hv'.
  destruct dir.
  - rewrite (List.filter_ext_in _ (fun r => dateValue tza r =? v) (sortRecords _ _ _ _ _))
      by (intros; apply hasDateKey_value; auto).
    rewrite (List.filter_ext_in _ (fun r => dateValue tza r =? v) l)
      by (intros; apply hasDateKey_value; auto).
    rewrite sort_date_asc by now apply List.Forall_forall.
    apply (array_sort_stable (dateValue tza)). apply follows_difference.
  - rewrite (List.filter_ext_in _ (fun r => - dateValue tza r =? - v)
               (sortRecords _ _ _ _ _)).
    2:{ intros r Hr. rewrite hasDateKey_value by auto.
        destruct (Z.eqb_spec (dateValue tza r) v), (Z.eqb_spec (- dateValue tza r) (- v)); lia. }
    rewrite (List.filter_ext_in (hasDateKey tza v)
               (fun r => - dateValue tza r =? - v) l).
    2:{ intros r Hr. rewrite hasDateKey_value by auto.
        destruct (Z.eqb_spec (dateValue tza r) v), (Z.eqb_spec (- dateValue tza r) (- v)); lia. }
    rewrite sort_date_desc by now apply List.Forall_forall.
    apply (array_sort_stable (fun r => - dateValue tza r)).
    apply (follows_difference (fun r => - dateValue tza r)).
Qed.

Lemma dateValue_injective (l : list RecordT) (a b : RecordT) :
  Forall (fun r => dateKey tza r <> NaN) l ->
  List.NoDup (List.map (dateKey tza) l) ->
  In a l -> In b l -> dateValue tza a = dateValue tza b -> a = b.
Proof.
  intros Hv Hnd Ha Hb E. rewrite List.Forall_forall in Hv.
  assert (Ek : dateKey tza a = dateKey tza b).
  { pose proof (Hv a Ha). pose proof (Hv b Hb). unfold dateValue in E.
    unfold NaN in *. destruct (dateKey tza a), (dateKey tza b); congruence. }
  clear E Hv. induction l as [|x l IH]; [destruct Ha |].
  cbn in Hnd. inversion Hnd as [|? ? Hx Hnd']; subst.
  destruct Ha as [-> | Ha], Hb as [-> | Hb]; auto.
  - exfalso. apply Hx. rewrite Ek. now apply in_map.
  - exfalso. apply Hx. rewrite <- Ek. now apply in_map.
Qed.

(** C5, as the code has it: when every record of the sequence has a valid
    date, sorting by date with direction desc gives the reverse of sorting
    with direction asc as soon as the dates are pairwise distinct, and in
    both directions the records that share a date keep the order they had
    before the sort. *)
Theorem date_sort_reverse_and_stable (l : list RecordT) :
  Forall (fun r => dateKey tza r <> NaN) l ->
  (List.NoDup (List.map (dateKey tza) l) ->
   sortRecords tza lc (Some ByDate) desc l =
   rev (sortRecords tza lc (Some ByDate) asc l)) /\
  (forall (dir : SortDirection) (v : Z),
     List.filter (hasDateKey tza v) (sortRecords tza lc (Some ByDate) dir l) =
     List.filter (hasDateKey tza v) l).
Proof.
  intros Hv. split; [| intros dir v; now apply date_sort_stable].
  intros Hnd.
  apply (StronglySorted_unique_strong
           (fun a b => dateValue tza b <= dateValue tza a)).
  - intros a b Ha Hb H1 H2. apply list_elem_of_In in Ha, Hb.
    apply (dateValue_injective l a b Hv Hnd).
    + eapply Permutation_in; [apply array_sort_perm | exact Ha].
    + apply in_rev in Hb. eapply Permutation_in; [apply array_sort_perm | exact Hb].
    + lia.
  - now apply sort_date_desc_sorted.
  - apply (StronglySorted_rev (fun a b => dateValue tza a <= dateValue tza b)).
    now apply sort_date_asc_sorted.
  - unfold sortRecords. rewrite array_sort_perm.
    rewrite <- Permutation_rev. symmetry. apply array_sort_perm.
Qed.

End DateSort.

(** C5 as stated fails when a date does not parse: a comparison with an
    invalid date is NaN, which the sort takes as equal.  A record with a
    valid date followed by one with an unparsable date has two distinct
    parsed dates, yet both directions leave the two in this order, so desc
    is not the reverse of asc. *)
Lemma date_sort_not_reversed_with_invalid_date :
  let lc : string -> string -> Z := fun _ _ => 0 in
  let mk i d := mkRecord i (mkAbout "Ann Lee" "ACTIVE" "ann.lee@demo.com")
                           (mkDetails d "Bob Ray") in
  let l := [mk "1" "03 Jun 2023"; mk "2" "31/12/2024"] in
  List.NoDup (List.map (dateKey 0) l) /\
  sortRecords 0 lc (Some ByDate) asc l = l /\
  sortRecords 0 lc (Some ByDate) desc l = l /\
  sortRecords 0 lc (Some ByDate) desc l <> rev (sortRecords 0 lc (Some ByDate) asc l).
Proof.
  intros lc mk l. split.
  - vm_compute. repeat constructor; cbn; intuition discriminate.
  - repeat split; try reflexivity. vm_compute. discriminate.
Qed.

(** ** The filter and its contract *)

Lemma startsWith_spec (p s : string) :
  startsWith p s = true <-> exists suf : string, s = (p ++ suf)%string.
Proof.
  revert s. induction p as [|a p IH]; intros s; cbn.
  - split; [intros _; now exists s | reflexivity].
  - destruct s as [|b s]; [split; [discriminate | intros [suf H]; discriminate] |].
    rewrite andb_true_iff, IH. split.
    + intros [Hab [suf ->]]. apply Ascii.eqb_eq in Hab. subst. now exists suf.
    + intros [suf H]. injection H as -> ->. split; [apply Ascii.eqb_refl | now exists suf].
Qed.

Lemma includes_startsWith (s sub : string) :
  startsWith sub s = true -> includes s sub = true.
Proof. intros H. destruct s; cbn [includes]; now rewrite H. Qed.

Lemma includes_spec (s sub : string) :
  includes s sub = true <-> isSubstring sub s.
Proof.
  unfold isSubstring. split.
  - induction s as [|c s IH]; cbn; rewrite orb_true_iff.
    + intros [H | H]; [| discriminate]. apply startsWith_spec in H as [suf ->].
      now exists "", suf.
    + intros [H | H].
      * apply startsWith_spec in H as [suf H]. now exists "", suf.
      * destruct (IH H) as (pre & suf & ->). now exists (String c pre), suf.
  - intros (pre & suf & ->). induction pre as [|c pre IH].
    + apply includes_startsWith, startsWith_spec. now exists suf.
    + change (includes (String c (pre ++ sub ++ suf)%string) sub = true).
      cbn [includes]. rewrite IH. apply orb_true_r.
Qed.

Lemma truthy_false (s : string) : truthy s = false <-> s = "".
Proof. destruct s; cbn; split; congruence. Qed.

Lemma truthy_true (s : string) : truthy s = true <-> s <> "".
Proof. destruct s; cbn; split; congruence. Qed.

Lemma TimeClip_Some (t : Z) :
  Z.abs t <= 8640000000000000 -> TimeClip t = Some t.
Proof. intros H. unfold TimeClip. destruct (Z.leb_spec (Z.abs t) 8640000000000000); [reflexivity | lia]. Qed.

Lemma TimeClip_inv (t u : Z) :
  TimeClip t = Some u -> u = t /\ Z.abs t <= 8640000000000000.
Proof.
  unfold TimeClip. destruct (Z.leb_spec (Z.abs t) 8640000000000000); [| discriminate].
  intros [= <-]. auto.
Qed.

(** A parsed date is a local midnight within the range of time values. *)
Lemma parseDate_shape (tza : Z) (s : string) (t : Z) :
  parseDate tza s = Some t ->
  (exists D : Z, t = D * msPerDay - tza) /\ Z.abs t <= 8640000000000000.
Proof.
  unfold parseDate, newDate.
  destruct (parseInt (nth_error (split " " s) 2)) as [y|]; [| discriminate].
  destruct (months (nth_error (split " " s) 1)) as [m|]; [| discriminate].
  destruct (parseInt (nth_error (split " " s) 0)) as [d|]; [| discriminate].
  destruct (MakeDay _ m d) as [day|]; [| discriminate].
  intros H. apply TimeClip_inv in H as [-> Hr]. split; [| exact Hr].
  unfold UTC. eauto.
Qed.

(** Taking a parsed date to the start of its day changes nothing. *)
Lemma setHours_parsed (tza : Z) (s : string) (t : Z) :
  parseDate tza s = Some t ->
  setHours tza (Some t) 0 0 0 0 = Some t /\ startOfDay tza t = t.
Proof.
  intros H. apply parseDate_shape in H as [[D ->] Hr].
  assert (E : Day (LocalTime tza (D * msPerDay - tza)) = D).
  { unfold Day, LocalTime. replace (D * msPerDay - tza + tza) with (D * msPerDay) by lia.
    apply Z.div_mul. unfold msPerDay. lia. }
  unfold setHours, startOfDay. rewrite E. unfold MakeTime, UTC.
  split; [| reflexivity].
  replace (D * msPerDay + (0 * 3600000 + 0 * 60000 + 0 * 1000 + 0) - tza)
    with (D * msPerDay - tza) by lia.
  now apply TimeClip_Some.
Qed.

Lemma digitValue_10_range (c : ascii) (v : Z) :
  digitValue 10 c = Some v -> 0 <= v <= 9.
Proof.
  unfold digitValue.
  destruct (Z.leb_spec 48 (code c)), (Z.leb_spec (code c) 57); cbn;
    intros [= <-]; lia.
Qed.

Lemma DaysInMonth_le (y m : Z) : DaysInMonth y m <= 31.
Proof.
  unfold DaysInMonth.
  destruct m as [|[[[|[]|]|[[]|[]|]|]|[[|[]|]|[]|]|]|]; try destruct (InLeapYear y); lia.
Qed.

Lemma parseIsoDate_range (s : string) (y m d : Z) :
  parseIsoDate s = Some (y, m, d) ->
  0 <= y <= 9999 /\ 1 <= m <= 12 /\ 1 <= d <= 31.
Proof.
  unfold parseIsoDate.
  do 10 (destruct s as [|? s]; [discriminate |]).
  destruct s; [| discriminate].
  destruct (Ascii.eqb a3 "-" && Ascii.eqb a6 "-"); [| discriminate].
  destruct (digitValue 10 a) as [v1|] eqn:E1; [| discriminate].
  destruct (digitValue 10 a0) as [v2|] eqn:E2; [| discriminate].
  destruct (digitValue 10 a1) as [v3|] eqn:E3; [| discriminate].
  destruct (digitValue 10 a2) as [v4|] eqn:E4; [| discriminate].
  destruct (digitValue 10 a4) as [v5|] eqn:E5; [| discriminate].
  destruct (digitValue 10 a5) as [v6|] eqn:E6; [| discriminate].
  destruct (digitValue 10 a7) as [v7|] eqn:E7; [| discriminate].
  destruct (digitValue 10 a8) as [v8|] eqn:E8; [| discriminate].
  apply digitValue_10_range in E1, E2, E3, E4, E5, E6, E7, E8.
  cbv zeta.
  match goal with
  | |- context [if ?b then _ else _] => destruct b eqn:Hb; [| discriminate]
  end.
  intros [= <- <- <-].
  apply andb_true_iff in Hb as [Hb H4]. apply andb_true_iff in Hb as [Hb H3].
  apply andb_true_iff in Hb as [H1 H2].
  apply Z.leb_le in H1, H2, H3, H4.
  pose proof (DaysInMonth_le (1000 * v1 + 100 * v2 + 10 * v3 + v4) (10 * v5 + v6)).
  lia.
Qed.

Lemma monthStart_range (leap : bool) (m : Z) : 0 <= monthStart leap m <= 335.
Proof.
  unfold monthStart. destruct leap, m as [|p|p]; try lia;
    do 4 (try (destruct p as [p|p|]; try lia)).
Qed.

Lemma dayNumber_iso_range (y m d : Z) :
  0 <= y <= 9999 -> 1 <= m <= 12 -> 1 <= d <= 31 ->
  Z.abs (dayNumber y (m - 1) d) <= 3000000.
Proof.
  intros Hy Hm Hd. unfold dayNumber.
  rewrite (Z.div_small (m - 1) 12) by lia.
  replace (y + 0) with y by lia.
  pose proof (monthStart_range (InLeapYear y) ((m - 1) mod 12)).
  unfold DayFromYear. Z.to_euclidean_division_equations. lia.
Qed.

Lemma MakeDay_iso (y m d : Z) :
  0 <= y <= 9999 -> 1 <= m <= 12 -> 1 <= d <= 31 ->
  MakeDay y (m - 1) d = Some (dayNumber y (m - 1) d).
Proof.
  intros Hy Hm Hd. unfold MakeDay.
  destruct (Z.leb_spec (Z.abs y) 1000000); [| lia].
  destruct (Z.leb_spec (Z.abs (m - 1)) 10000000); [reflexivity | lia].
Qed.

(** East of Greenwich, or on it, the bounds are the chosen days at the
    given local time of day. *)
Lemma setHours_iso (tza : Z) (s : string) (y m d : Z) (h mi sec ms : Z) :
  0 <= tza < msPerDay -> 0 <= MakeTime h mi sec ms < msPerDay ->
  parseIsoDate s = Some (y, m, d) ->
  setHours tza (newDateFromString s) h mi sec ms =
  Some (localInstant tza (y, m, d) (MakeTime h mi sec ms)).
Proof.
  intros Hz Ht Hp. unfold newDateFromString. rewrite Hp.
  apply parseIsoDate_range in Hp as (Hy & Hm & Hd).
  rewrite (MakeDay_iso y m d Hy Hm Hd).
  pose proof (dayNumber_iso_range y m d Hy Hm Hd) as HM.
  set (M := dayNumber y (m - 1) d) in *.
  unfold msPerDay in *.
  rewrite TimeClip_Some by lia.
  unfold setHours, localInstant, UTC, LocalTime, Day. fold M. unfold msPerDay.
  replace ((M * 86400000 + tza) / 86400000) with M.
  2:{ symmetry. rewrite Z.add_comm, Z.div_add by lia. rewrite Z.div_small by lia. lia. }
  apply TimeClip_Some. lia.
Qed.

Lemma from_bound_east (tza : Z) (df : string) (t : Z) :
  0 <= tza < msPerDay ->
  num_ge (Some t) (setHours tza (newDateFromString df) 0 0 0 0) = true <->
  exists from, parseIsoDate df = Some from /\ localInstant tza from 0 <= t.
Proof.
  intros Hz. destruct (parseIsoDate df) as [[[y m] d]|] eqn:E.
  - rewrite (setHours_iso tza df y m d 0 0 0 0 Hz ltac:(unfold MakeTime, msPerDay; lia) E).
    change (MakeTime 0 0 0 0) with 0. cbn [num_ge]. rewrite Z.leb_le. split.
    + intros H. now exists (y, m, d).
    + intros (from & [= <-] & H). exact H.
  - unfold newDateFromString. rewrite E. cbn. split; [discriminate |].
    intros (from & H & _). discriminate.
Qed.

Lemma to_bound_east (tza : Z) (dt : string) (t : Z) :
  0 <= tza < msPerDay ->
  num_le (Some t) (setHours tza (newDateFromString dt) 23 59 59 999) = true <->
  exists to, parseIsoDate dt = Some to /\
             t <= localInstant tza to (MakeTime 23 59 59 999).
Proof.
  intros Hz. destruct (parseIsoDate dt) as [[[y m] d]|] eqn:E.
  - rewrite (setHours_iso tza dt y m d 23 59 59 999 Hz ltac:(unfold MakeTime, msPerDay; lia) E).
    cbn [num_le]. rewrite Z.leb_le. split.
    + intros H. now exists (y, m, d).
    + intros (to & [= <-] & H). exact H.
  - unfold newDateFromString. rewrite E. cbn. split; [discriminate |].
    intros (to & H & _). discriminate.
Qed.

Lemma dateMatch_contract_east (tza : Z) (df dt : string) (r : RecordT) :
  0 <= tza < msPerDay ->
  dateMatch tza df dt r = true <->
  ((df = "" /\ dt = "") \/
   exists t, parseDate tza (date (details r)) = Some t /\
     (df <> "" ->
        exists from, parseIsoDate df = Some from /\
                     localInstant tza from 0 <= startOfDay tza t) /\
     (dt <> "" ->
        exists to, parseIsoDate dt = Some to /\
                   startOfDay tza t <= localInstant tza to (MakeTime 23 59 59 999))).
Proof.
  intros Hz.
  destruct (truthy df || truthy dt) eqn:Hb.
  2:{ apply orb_false_iff in Hb as [H1 H2]. unfold dateMatch. rewrite H1, H2. cbn.
      apply truthy_false in H1, H2. tauto. }
  assert (Hne : ~ (df = "" /\ dt = "")).
  { intros [-> ->]. discriminate Hb. }
  destruct (parseDate tza (date (details r))) as [t|] eqn:Hp.
  2:{ rewrite (dateMatch_invalid tza df dt r Hp Hb). split; [discriminate |].
      intros [H | (t & H & _)]; [tauto | discriminate]. }
  destruct (setHours_parsed tza _ t Hp) as [Hs Hd].
  unfold dateMatch. rewrite Hb, Hp, Hs.
  pose proof (from_bound_east tza df t Hz) as Hf.
  pose proof (to_bound_east tza dt t Hz) as Ht.
  destruct (truthy df) eqn:T1, (truthy dt) eqn:T2; try discriminate Hb;
    try apply truthy_true in T1; try apply truthy_true in T2;
    try apply truthy_false in T1; try apply truthy_false in T2.
  - rewrite andb_true_iff, Hf, Ht. split.
    + intros [H1 H2]. right. exists t. rewrite Hd. tauto.
    + intros [H | (t' & [= <-] & H1 & H2)]; [tauto |]. rewrite Hd in *. tauto.
  - rewrite Hf. split.
    + intros H1. right. exists t. rewrite Hd. tauto.
    + intros [H | (t' & [= <-] & H1 & H2)]; [tauto |]. rewrite Hd in *. tauto.
  - rewrite andb_true_l, Ht. split.
    + intros H1. right. exists t. rewrite Hd. tauto.
    + intros [H | (t' & [= <-] & H1 & H2)]; [tauto |]. rewrite Hd in *. tauto.
Qed.

(** At or east of Greenwich the callback of the filter is the contract. *)
Lemma passesFilter_contract_east (tza : Z) (fs sn df dt : string) (r : RecordT) :
  0 <= tza < msPerDay ->
  passesFilter tza fs sn df dt r = true <-> passesContract tza fs sn df dt r.
Proof.
  intros Hz. unfold passesFilter, passesContract.
  rewrite !andb_true_iff, orb_true_iff, !String.eqb_eq, includes_spec.
  rewrite (dateMatch_contract_east tza df dt r Hz). tauto.
Qed.

(** At or east of Greenwich the filter stage returns exactly the records
    that meet the contract, in the order of the store. *)
Lemma filterRecords_contract_east (tza : Z) (fs sn df dt : string)
  (rs : list RecordT) (p : RecordT -> bool) :
  0 <= tza < msPerDay ->
  (forall r, p r = true <-> passesContract tza fs sn df dt r) ->
  filterRecords tza fs sn df dt rs = List.filter p rs /\
  sublist (filterRecords tza fs sn df dt rs) rs.
Proof.
  intros Hz Hp. split.
  - apply List.filter_ext. intros r.
    pose proof (passesFilter_contract_east tza fs sn df dt r Hz) as H1.
    pose proof (Hp r) as H2.
    destruct (passesFilter tza fs sn df dt r), (p r); intuition congruence.
  - unfold filterRecords. induction rs as [|r rs IH]; cbn; [constructor |].
    destruct (passesFilter tza fs sn df dt r); now constructor.
Qed.

(** With no filter set, the filter stage returns the store as it is. *)
Lemma filterRecords_no_filter (tza : Z) (rs : list RecordT) :
  filterRecords tza "ALL" "" "" "" rs = rs.
Proof.
  unfold filterRecords. induction rs as [|r rs IH]; [reflexivity |].
  cbn [List.filter]. rewrite IH.
  unfold passesFilter, dateMatch. cbn.
  now rewrite (includes_startsWith (toLowerCase (name (about r))) "").
Qed.

(** C1 at a failing input: in a host four hours west of Greenwich, the
    range 1 June 2023 to 30 June 2023 admits the record of 31 May and
    rejects the record of 30 June, against the contract; on Greenwich time
    the same input gives the records of June. *)
Theorem filter_bounds_a_day_early_west_of_UTC :
  let mk i d := mkRecord i (mkAbout "Ann Lee" "ACTIVE" "ann.lee@demo.com")
                           (mkDetails d "Bob Ray") in
  let rs := [mk "1" "31 May 2023"; mk "2" "01 Jun 2023"; mk "3" "30 Jun 2023"] in
  let west := -14400000 in
  List.map id (filterRecords west "ALL" "" "2023-06-01" "2023-06-30" rs) = ["1"; "2"] /\
  List.map id (filterRecords 0 "ALL" "" "2023-06-01" "2023-06-30" rs) = ["2"; "3"] /\
  ~ passesContract west "ALL" "" "2023-06-01" "2023-06-30" (mk "1" "31 May 2023") /\
  passesContract west "ALL" "" "2023-06-01" "2023-06-30" (mk "3" "30 Jun 2023").
Proof.
  intros mk rs west. split; [reflexivity |]. split; [reflexivity |]. split.
  - intros (_ & _ & [[H _] | (t & Ht & Hf & _)]); [discriminate |].
    destruct (Hf ltac:(discriminate)) as (from & Hfrom & Hle).
    vm_compute in Ht, Hfrom. injection Ht as <-. injection Hfrom as <-.
    vm_compute in Hle. now apply Hle.
  - split; [now left |]. split; [now exists "", "ann lee" |].
    right. exists 1688097600000. split; [reflexivity |]. split; intros _.
    + exists (2023, 6, 1). split; [reflexivity |]. vm_compute. discriminate.
    + exists (2023, 6, 30). split; [reflexivity |]. vm_compute. discriminate.
Qed.

(** ** Reasoning about heap computations *)

Lemma wp_ret {A} (a : A) (Q : A -> heap -> Prop) (h : heap) :
  Q a h -> wp (ret a) Q h.
Proof. exact (fun H => H). Qed.

Lemma wp_bind {A B} (m : M A) (k : A -> M B) (Q : B -> heap -> Prop) (h : heap) :
  wp m (fun a h' => wp (k a) Q h') h -> wp (bind m k) Q h.
Proof. unfold wp, bind. now destruct (m h) as [[a h']|]. Qed.

Lemma wp_mono {A} (m : M A) (Q1 Q2 : A -> heap -> Prop) (h : heap) :
  (forall a h', Q1 a h' -> Q2 a h') -> wp m Q1 h -> wp m Q2 h.
Proof. unfold wp. intros H. destruct (m h) as [[a h']|]; [apply H | exact (fun x => x)]. Qed.

Lemma wp_alloc (o : object) (Q : loc -> heap -> Prop) (h : heap) :
  (forall l, h !! l = None -> Q l (<[l := o]> h)) -> wp (alloc o) Q h.
Proof.
  intros H. unfold wp, alloc. apply H.
  apply not_elem_of_dom. apply is_fresh.
Qed.

Lemma wp_load (l : loc) (o : object) (Q : object -> heap -> Prop) (h : heap) :
  h !! l = Some o -> Q o h -> wp (load l) Q h.
Proof. intros Hl HQ. unfold wp, load. now rewrite Hl. Qed.

Lemma wp_store (l : loc) (o o' : object) (Q : unit -> heap -> Prop) (h : heap) :
  h !! l = Some o' -> Q tt (<[l := o]> h) -> wp (store l o) Q h.
Proof. intros Hl HQ. unfold wp, store. now rewrite Hl. Qed.

Lemma wp_getElems (l : loc) (es : list loc) (Q : list loc -> heap -> Prop) (h : heap) :
  h !! l = Some (OArray es) -> Q es h -> wp (getElems l) Q h.
Proof.
  intros Hl HQ. unfold getElems. apply wp_bind.
  eapply wp_load; [exact Hl |]. now apply wp_ret.
Qed.

Lemma recordAt_weaken (h h' : heap) (l : loc) (r : RecordT) :
  h ⊆ h' -> recordAt h l r -> recordAt h' l r.
Proof.
  intros Hs (al & dl & H1 & H2 & H3). exists al, dl.
  repeat split; eapply lookup_weaken; eauto.
Qed.

Lemma Forall2_recordAt_weaken (h h' : heap) (ls : list loc) (rs : list RecordT) :
  h ⊆ h' -> Forall2 (recordAt h) ls rs -> Forall2 (recordAt h') ls rs.
Proof.
  intros Hs H. induction H; constructor; eauto using recordAt_weaken.
Qed.

Lemma arrayAt_weaken (h h' : heap) (l : loc) (rs : list RecordT) :
  h ⊆ h' -> arrayAt h l rs -> arrayAt h' l rs.
Proof.
  intros Hs (ls & H1 & H2). exists ls. split.
  - eapply lookup_weaken; eauto.
  - eapply Forall2_recordAt_weaken; eauto.
Qed.

Lemma wp_readRecord (l : loc) (r : RecordT) (Q : RecordT -> heap -> Prop) (h : heap) :
  recordAt h l r -> Q r h -> wp (readRecord l) Q h.
Proof.
  intros (al & dl & H1 & H2 & H3) HQ. unfold readRecord.
  apply wp_bind. eapply wp_load; [exact H1 |].
  apply wp_bind. eapply wp_load; [exact H2 |].
  apply wp_bind. eapply wp_load; [exact H3 |].
  apply wp_ret. now destruct r.
Qed.

Lemma wp_getTimeM (l : loc) (tv : number) (Q : number -> heap -> Prop) (h : heap) :
  h !! l = Some (ODate tv) -> Q tv h -> wp (getTimeM l) Q h.
Proof.
  intros Hl HQ. unfold getTimeM. apply wp_bind.
  eapply wp_load; [exact Hl |]. now apply wp_ret.
Qed.

Lemma wp_setHoursM (tza : Z) (l : loc) (tv : number) (hh m s ms : Z)
  (Q : unit -> heap -> Prop) (h : heap) :
  h !! l = Some (ODate tv) ->
  Q tt (<[l := ODate (setHours tza tv hh m s ms)]> h) ->
  wp (setHoursM tza l hh m s ms) Q h.
Proof.
  intros Hl HQ. unfold setHoursM. apply wp_bind.
  eapply wp_load; [exact Hl |]. eapply wp_store; [exact Hl | exact HQ].
Qed.

(** Writing at a reference that [h0] does not use leaves [h0] inside. *)
Lemma subseteq_insert_fresh (h0 h : heap) (l : loc) (o : object) :
  h0 ⊆ h -> h0 !! l = None -> h0 ⊆ <[l := o]> h.
Proof. intros Hs Hn. now apply insert_subseteq_r. Qed.

Lemma fresh_in_base (h0 h : heap) (l : loc) :
  h0 ⊆ h -> h !! l = None -> h0 !! l = None.
Proof. intros Hs Hn. eapply lookup_weaken_None; eauto. Qed.

Lemma subseteq_alloc (h : heap) (l : loc) (o : object) :
  h !! l = None -> h ⊆ <[l := o]> h.
Proof. intros H. now apply insert_subseteq. Qed.

(** A bound of the date range: the Date made for it is new, and changing
    it touches nothing that was there. *)
Lemma wp_dateBound (tza : Z) (s : string) (hh m sec ms : Z) (l1 : loc) (tv1 : number)
  (f : number -> number -> bool) (Q : bool -> heap -> Prop) (h : heap) :
  h !! l1 = Some (ODate tv1) ->
  (forall h', h ⊆ h' ->
     Q (f tv1 (setHours tza (newDateFromString s) hh m sec ms)) h') ->
  wp (let* d := newDateFromStringM s in
      let* _ := setHoursM tza d hh m sec ms in
      let* a := getTimeM l1 in
      let* b := getTimeM d in
      ret (f a b)) Q h.
Proof.
  intros H1 HQ. apply wp_bind. apply wp_alloc. intros l2 H2.
  assert (Hne : l2 <> l1) by congruence.
  apply wp_bind. eapply wp_setHoursM; [apply lookup_insert_eq |].
  rewrite insert_insert_eq.
  apply wp_bind. eapply wp_getTimeM; [rewrite lookup_insert_ne by exact Hne; exact H1 |].
  apply wp_bind. eapply wp_getTimeM; [apply lookup_insert_eq |].
  apply wp_ret. apply HQ. now apply subseteq_alloc.
Qed.

Lemma keeps_passesFilterM (tza : Z) (h0 : heap) (fs sn df dt : string)
  (rl : loc) (r : RecordT) :
  recordAt h0 rl r ->
  keeps h0 (passesFilterM tza fs sn df dt rl)
        (fun b _ => b = passesFilter tza fs sn df dt r).
Proof.
  intros Hr h Hs. unfold passesFilterM, passesFilter, dateMatch.
  apply wp_bind. eapply wp_readRecord; [eapply recordAt_weaken; eauto |].
  apply wp_bind.
  destruct (truthy df || truthy dt); [| apply wp_ret, wp_ret; auto].
  apply wp_bind. apply wp_alloc. intros l1 H1.
  apply wp_bind. eapply wp_setHoursM; [apply lookup_insert_eq |].
  rewrite insert_insert_eq.
  set (tv1 := setHours tza (parseDate tza (date (details r))) 0 0 0 0).
  set (h1 := <[l1 := ODate tv1]> h).
  assert (Hs1 : h0 ⊆ h1).
  { transitivity h; [exact Hs | now apply subseteq_alloc]. }
  assert (L1 : h1 !! l1 = Some (ODate tv1)) by apply lookup_insert_eq.
  clearbody h1. clear H1 Hs h.
  apply wp_bind.
  destruct (truthy df).
  - apply (wp_dateBound tza df 0 0 0 0 l1 tv1 (fun a b => num_ge a b)); [exact L1 |].
    intros h2 Hs2.
    assert (L2 : h2 !! l1 = Some (ODate tv1)) by (eapply lookup_weaken; eauto).
    destruct (truthy dt).
    + apply (wp_dateBound tza dt 23 59 59 999 l1 tv1
               (fun a b => num_ge tv1 (setHours tza (newDateFromString df) 0 0 0 0)
                           && num_le a b)); [exact L2 |].
      intros h3 Hs3. apply wp_ret. split; [reflexivity |].
      transitivity h1; [exact Hs1 |]. now transitivity h2.
    + apply wp_ret, wp_ret. split; [reflexivity |]. now transitivity h1.
  - apply wp_ret.
    destruct (truthy dt).
    + apply (wp_dateBound tza dt 23 59 59 999 l1 tv1
               (fun a b => true && num_le a b)); [exact L1 |].
      intros h3 Hs3. apply wp_ret. split; [reflexivity |]. now transitivity h1.
    + apply wp_ret, wp_ret. split; [reflexivity | exact Hs1].
Qed.

Lemma keeps_compareRecordsM (tza : Z) (lc : string -> string -> Z) (h0 : heap)
  (field : option SortField) (dir : SortDirection) (al bl : loc) (a b : RecordT) :
  recordAt h0 al a -> recordAt h0 bl b ->
  keeps h0 (compareRecordsM tza lc field dir al bl)
        (fun v _ => v = compareRecords tza lc field dir a b).
Proof.
  intros Ha Hb h Hs.
  assert (Other : wp (let* a' := readRecord al in
                      let* b' := readRecord bl in
                      ret (compareRecords tza lc field dir a' b'))
                     (fun v h' => v = compareRecords tza lc field dir a b /\ h0 ⊆ h') h).
  { apply wp_bind. eapply wp_readRecord; [eapply recordAt_weaken; eauto |].
    apply wp_bind. eapply wp_readRecord; [eapply recordAt_weaken; eauto |].
    apply wp_ret. auto. }
  destruct field as [[]|]; try exact Other. clear Other.
  unfold compareRecordsM, compareRecords.
  apply wp_bind. eapply wp_readRecord; [eapply recordAt_weaken; eauto |].
  apply wp_bind. apply wp_alloc. intros l1 H1.
  apply wp_bind. eapply wp_getTimeM; [apply lookup_insert_eq |].
  assert (Hs1 : h0 ⊆ <[l1 := ODate (parseDate tza (date (details a)))]> h).
  { transitivity h; [exact Hs | now apply subseteq_alloc]. }
  apply wp_bind. eapply wp_readRecord; [eapply recordAt_weaken; eauto |].
  apply wp_bind. apply wp_alloc. intros l2 H2.
  apply wp_bind. eapply wp_getTimeM; [apply lookup_insert_eq |].
  apply wp_ret. split; [reflexivity |].
  etransitivity; [exact Hs1 | now apply subseteq_alloc].
Qed.

Section ListLevel.

(** [R l r]: the reference [l] stands for the record [r]. *)
Context (R : loc -> RecordT -> Prop) (h0 : heap).

Lemma keeps_filterM (cb : loc -> M bool) (p : RecordT -> bool)
  (ls : list loc) (rs : list RecordT) :
  (forall l r, R l r -> keeps h0 (cb l) (fun b _ => b = p r)) ->
  Forall2 R ls rs ->
  keeps h0 (filterM cb ls) (fun out _ => Forall2 R out (List.filter p rs)).
Proof.
  intros Hcb HF. induction HF as [|l r ls rs Hlr HF IH]; intros h Hs.
  - apply wp_ret. split; [constructor | exact Hs].
  - cbn [filterM List.filter]. apply wp_bind.
    eapply wp_mono; [| apply (Hcb l r Hlr h Hs)].
    intros b h1 [-> Hs1]. apply wp_bind.
    eapply wp_mono; [| apply (IH h1 Hs1)].
    intros kept h2 [Hk Hs2]. apply wp_ret. split; [| exact Hs2].
    destruct (p r); [now constructor | exact Hk].
Qed.

Section Sorting.

Context (cmpM : loc -> loc -> M number) (cmp : RecordT -> RecordT -> number).

Hypothesis cmp_spec : forall al bl a b,
  R al a -> R bl b -> keeps h0 (cmpM al bl) (fun v _ => v = cmp a b).

Lemma keeps_sortInsertM (x : loc) (r : RecordT) (sorted : list loc) (srs : list RecordT) :
  R x r -> Forall2 R sorted srs ->
  keeps h0 (sortInsertM cmpM x sorted)
        (fun out _ => Forall2 R out (sortInsert cmp r srs)).
Proof.
  intros Hx HF. induction HF as [|y yr sorted srs Hy HF IH]; intros h Hs.
  - apply wp_ret. split; [repeat constructor; exact Hx | exact Hs].
  - cbn [sortInsertM sortInsert]. apply wp_bind.
    eapply wp_mono; [| apply (cmp_spec x y r yr Hx Hy h Hs)].
    intros v h1 [-> Hs1]. destruct (follows (cmp r yr)).
    + apply wp_bind. eapply wp_mono; [| apply (IH h1 Hs1)].
      intros out h2 [Ho Hs2]. apply wp_ret. split; [now constructor | exact Hs2].
    + apply wp_ret. split; [| exact Hs1]. constructor; [exact Hx | now constructor].
Qed.

Lemma keeps_sortElemsM (ls : list loc) (rs : list RecordT) :
  Forall2 R ls rs ->
  keeps h0 (sortElemsM cmpM ls) (fun out _ => Forall2 R out (array_sort cmp rs)).
Proof.
  intros HF. induction HF as [|l r ls rs Hlr HF IH]; intros h Hs.
  - apply wp_ret. split; [constructor | exact Hs].
  - cbn [sortElemsM array_sort fold_right]. fold (array_sort cmp rs).
    apply wp_bind. eapply wp_mono; [| apply (IH h Hs)].
    intros sorted h1 [Hsorted Hs1].
    now apply keeps_sortInsertM.
Qed.

End Sorting.

End ListLevel.

Lemma Forall2_array_slice {A B} (R : A -> B -> Prop) (l : list A) (k : list B)
  (start end_ : Z) :
  Forall2 R l k -> Forall2 R (array_slice l start end_) (array_slice k start end_).
Proof.
  intros H. unfold array_slice. rewrite (Forall2_length _ _ _ H).
  now apply Forall2_take, Forall2_drop.
Qed.

(** ** Arrays in the heap *)

Lemma arrayOf_weaken (hb hb' h h' : heap) (l : loc) (rs : list RecordT) :
  hb ⊆ hb' -> h ⊆ h' -> arrayOf hb h l rs -> arrayOf hb' h' l rs.
Proof.
  intros Hb Hh (ls & H1 & H2). exists ls. split.
  - eapply lookup_weaken; eauto.
  - eapply Forall2_recordAt_weaken; eauto.
Qed.

Lemma arrayOf_arrayAt (h : heap) (l : loc) (rs : list RecordT) :
  arrayOf h h l rs <-> arrayAt h l rs.
Proof. reflexivity. Qed.

Lemma wp_array_filterM (hb h : heap) (cb : loc -> M bool) (p : RecordT -> bool)
  (arr : loc) (rs : list RecordT) (Q : loc -> heap -> Prop) :
  (forall l r, recordAt hb l r -> keeps h (cb l) (fun b _ => b = p r)) ->
  arrayOf hb h arr rs ->
  (forall l h', h ⊆ h' -> h !! l = None ->
     arrayOf hb h' l (List.filter p rs) -> Q l h') ->
  wp (array_filterM cb arr) Q h.
Proof.
  intros Hcb (ls & Hl & HF) HQ. unfold array_filterM.
  apply wp_bind. eapply wp_getElems; [exact Hl |].
  apply wp_bind.
  eapply wp_mono; [| apply (keeps_filterM (recordAt hb) h cb p ls rs Hcb HF h); reflexivity].
  intros kept h1 [Hk Hs1]. apply wp_alloc. intros l Hn.
  apply HQ.
  - transitivity h1; [exact Hs1 | now apply subseteq_alloc].
  - eapply fresh_in_base; eauto.
  - exists kept. split; [apply lookup_insert_eq | exact Hk].
Qed.

Lemma wp_spreadM (hb h : heap) (arr : loc) (rs : list RecordT)
  (Q : loc -> heap -> Prop) :
  arrayOf hb h arr rs ->
  (forall l h', h ⊆ h' -> h !! l = None -> arrayOf hb h' l rs -> Q l h') ->
  wp (spreadM arr) Q h.
Proof.
  intros (ls & Hl & HF) HQ. unfold spreadM.
  apply wp_bind. eapply wp_getElems; [exact Hl |].
  apply wp_alloc. intros l Hn. apply HQ; [now apply subseteq_alloc | exact Hn |].
  exists ls. split; [apply lookup_insert_eq | exact HF].
Qed.

(** Sorting changes the array it is given, and nothing of a heap [hf] that
    does not hold that array. *)
Lemma wp_array_sortM (hb hf h : heap) (cmpM : loc -> loc -> M number)
  (cmp : RecordT -> RecordT -> number) (arr : loc) (rs : list RecordT)
  (Q : loc -> heap -> Prop) :
  (forall al bl a b, recordAt hb al a -> recordAt hb bl b ->
     keeps h (cmpM al bl) (fun v _ => v = cmp a b)) ->
  arrayOf hb h arr rs ->
  hf ⊆ h -> hf !! arr = None ->
  (forall h', hf ⊆ h' -> arrayOf hb h' arr (array_sort cmp rs) -> Q arr h') ->
  wp (array_sortM cmpM arr) Q h.
Proof.
  intros Hcmp (ls & Hl & HF) Hf Hn HQ. unfold array_sortM.
  apply wp_bind. eapply wp_getElems; [exact Hl |].
  apply wp_bind.
  eapply wp_mono;
    [| apply (keeps_sortElemsM (recordAt hb) h cmpM cmp Hcmp ls rs HF h); reflexivity].
  intros sorted h1 [Hsorted Hs1].
  apply wp_bind. eapply wp_store; [eapply lookup_weaken; eauto |].
  apply wp_ret. apply HQ.
  - apply subseteq_insert_fresh; [now transitivity h | exact Hn].
  - exists sorted. split; [apply lookup_insert_eq | exact Hsorted].
Qed.

Lemma wp_array_sliceM (hb h : heap) (arr : loc) (rs : list RecordT) (a b : Z)
  (Q : loc -> heap -> Prop) :
  arrayOf hb h arr rs ->
  (forall l h', h ⊆ h' -> h !! l = None ->
     arrayOf hb h' l (array_slice rs a b) -> Q l h') ->
  wp (array_sliceM arr a b) Q h.
Proof.
  intros (ls & Hl & HF) HQ. unfold array_sliceM.
  apply wp_bind. eapply wp_getElems; [exact Hl |].
  apply wp_alloc. intros l Hn. apply HQ; [now apply subseteq_alloc | exact Hn |].
  exists (array_slice ls a b). split; [apply lookup_insert_eq |].
  now apply Forall2_array_slice.
Qed.

Lemma wp_countStatusM (hb h : heap) (st : string) (arr : loc) (rs : list RecordT)
  (Q : nat -> heap -> Prop) :
  hb ⊆ h -> arrayOf hb h arr rs ->
  (forall h', h ⊆ h' -> Q (countStatus st rs) h') ->
  wp (countStatusM st arr) Q h.
Proof.
  intros Hb Ha HQ. unfold countStatusM. apply wp_bind.
  apply (wp_array_filterM hb h _ (fun r => String.eqb (status (about r)) st) arr rs);
    [| exact Ha |].
  - intros l r Hr h1 Hs1. apply wp_bind.
    eapply wp_readRecord.
    + eapply recordAt_weaken; [| exact Hr]. now transitivity h.
    + apply wp_ret. auto.
  - intros l h' Hs Hn (ls & Hl & HF).
    apply wp_bind. eapply wp_getElems; [exact Hl |].
    apply wp_ret. unfold countStatus.
    rewrite (Forall2_length _ _ _ HF). now apply HQ.
Qed.

(** ** Rendering leaves the store alone *)

Lemma wp_renderM (tza : Z) (lc : string -> string -> Z) (h : heap)
  (recordsRef : loc) (s : State) :
  arrayAt h recordsRef (records s) ->
  wp (renderM tza lc recordsRef s)
     (fun out h' =>
        h ⊆ h' /\
        (h !! filteredRef out = None /\ h !! sortedRef out = None /\
         h !! currentRef out = None) /\
        (arrayAt h' (filteredRef out) (filteredData tza s) /\
         arrayAt h' (sortedRef out) (sortedData tza lc s) /\
         arrayAt h' (currentRef out) (currentRecords tza lc s)) /\
        pageCount out = totalPages tza lc s /\
        shownTotal out = totalUsers (records s) /\
        shownActive out = activeCount (records s) /\
        shownInactive out = inactivePercentage (records s) /\
        shownBlocked out = blockedPercentage (records s)) h.
Proof.
  intros Hrec. apply arrayOf_arrayAt in Hrec. unfold renderM.
  (* filteredData *)
  apply wp_bind.
  apply (wp_array_filterM h h _
           (passesFilter tza (filterStatus s) (searchName s) (dateFrom s) (dateTo s))
           recordsRef (records s)); [| exact Hrec |].
  { intros l r Hr. now apply keeps_passesFilterM. }
  fold (filterRecords tza (filterStatus s) (searchName s) (dateFrom s) (dateTo s) (records s)).
  fold (filteredData tza s).
  intros lf h1 Hs1 Nf Af.
  (* the copy *)
  apply wp_bind. apply (wp_spreadM h h1 lf (filteredData tza s) _ Af).
  intros lc' h2 Hs2 Nc Ac.
  (* sortedData *)
  apply wp_bind.
  apply (wp_array_sortM h h1 h2 _
           (compareRecords tza lc (sortField s) (sortDirection s)) lc'
           (filteredData tza s)); [| exact Ac | exact Hs2 | exact Nc |].
  { intros al bl a b Ha Hb. apply keeps_compareRecordsM;
      (eapply recordAt_weaken; [| eassumption]); now transitivity h1. }
  fold (sortRecords tza lc (sortField s) (sortDirection s) (filteredData tza s)).
  fold (sortedData tza lc s).
  intros h3 Hs3 As.
  (* totalPages *)
  apply wp_bind. destruct As as (sorted & Hsl & HsF).
  eapply wp_getElems; [exact Hsl |].
  (* currentRecords *)
  apply wp_bind.
  apply (wp_array_sliceM h h3 lc' (sortedData tza lc s)
           ((currentPage s - 1) * recordsPerPage)
           ((currentPage s - 1) * recordsPerPage + recordsPerPage)).
  { now exists sorted. }
  intros lp h4 Hs4 Np Ap.
  (* statistics *)
  assert (H04 : h ⊆ h4) by (transitivity h1; [exact Hs1 | now transitivity h3]).
  destruct Hrec as (ls & Hl & HF).
  apply wp_bind. eapply wp_getElems; [eapply lookup_weaken; eauto |].
  assert (A4 : arrayOf h h4 recordsRef (records s)).
  { exists ls. split; [eapply lookup_weaken; eauto | exact HF]. }
  apply wp_bind. apply (wp_countStatusM h h4 "ACTIVE" recordsRef (records s) _ H04 A4).
  intros h5 Hs5.
  assert (H05 : h ⊆ h5) by now transitivity h4.
  apply wp_bind.
  apply (wp_countStatusM h h5 "INACTIVE" recordsRef (records s) _ H05
           (arrayOf_weaken h h h4 h5 _ _ ltac:(reflexivity) Hs5 A4)).
  intros h6 Hs6.
  assert (H06 : h ⊆ h6) by now transitivity h5.
  apply wp_bind.
  apply (wp_countStatusM h h6 "BLOCKED" recordsRef (records s) _ H06
           (arrayOf_weaken h h h5 h6 _ _ ltac:(reflexivity) Hs6
              (arrayOf_weaken h h h4 h5 _ _ ltac:(reflexivity) Hs5 A4))).
  intros h7 Hs7.
  assert (H07 : h ⊆ h7) by now transitivity h6.
  assert (H47 : h4 ⊆ h7) by (transitivity h5; [exact Hs5 | now transitivity h6]).
  apply wp_ret. cbn [filteredRef sortedRef currentRef pageCount shownTotal
                     shownActive shownInactive shownBlocked].
  split; [exact H07 |]. split.
  { repeat split; [exact Nf | | ].
    - exact (fresh_in_base h h1 lc' Hs1 Nc).
    - apply (fresh_in_base h h3 lp); [now transitivity h1 | exact Np]. }
  split.
  { repeat split; apply arrayOf_arrayAt.
    - eapply arrayOf_weaken; [exact H07 | | exact Af].
      transitivity h3; [exact Hs3 | now transitivity h4].
    - eapply arrayOf_weaken; [exact H07 | | exists sorted; split; eassumption].
      now transitivity h4.
    - eapply arrayOf_weaken; [exact H07 | exact H47 | exact Ap]. }
  split.
  { unfold totalPages. now rewrite (Forall2_length _ _ _ HsF). }
  unfold totalUsers, inactivePercentage, blockedPercentage, totalUsers.
  rewrite (Forall2_length _ _ _ HF). auto.
Qed.

(** The row buttons are the only actions that replace the store. *)
Lemma table_controls_keep_records (tza : Z) (lc : string -> string -> Z)
  (a : Action) (s : State) :
  isTableControl a = true -> records (handle tza lc a s) = records s.
Proof.
  destruct a; try discriminate; intros _; try reflexivity.
  apply handleSort_keeps_page.
Qed.

(** C10: one rendering (the filter, the sort of a copy, the page count, the
    page slice and the statistics) ends, and leaves every object the heap
    held before it as it was: the [records] array, each record in it and
    their [about] and [details] objects.  The arrays it computes are new
    objects that hold the filtered, the sorted and the current-page
    records.  Of the actions, only the row buttons replace the store. *)
Theorem render_leaves_store (tza : Z) (lc : string -> string -> Z) (h : heap)
  (recordsRef : loc) (s : State) :
  arrayAt h recordsRef (records s) ->
  (exists (out : Rendered) (h' : heap),
     renderM tza lc recordsRef s h = Some (out, h') /\
     h ⊆ h' /\
     arrayAt h' recordsRef (records s) /\
     (h !! filteredRef out = None /\ h !! sortedRef out = None /\
      h !! currentRef out = None) /\
     (arrayAt h' (filteredRef out) (filteredData tza s) /\
      arrayAt h' (sortedRef out) (sortedData tza lc s) /\
      arrayAt h' (currentRef out) (currentRecords tza lc s)) /\
     pageCount out = totalPages tza lc s) /\
  (forall a : Action, isTableControl a = true ->
     records (handle tza lc a s) = records s).
Proof.
  intros Hrec. split; [| intros a; apply table_controls_keep_records].
  pose proof (wp_renderM tza lc h recordsRef s Hrec) as H. unfold wp in H.
  destruct (renderM tza lc recordsRef s h) as [[out h']|]; [| contradiction].
  exists out, h'. destruct H as (Hs & Hn & Ha & Hp & _).
  split; [reflexivity |]. split; [exact Hs |].
  split; [eapply arrayAt_weaken; eauto |]. auto.
Qed.

(** ** The status update in the heap *)

Lemma wp_updateStatusM (recordId : string) (newStatus : Status) (h : heap)
  (rl : loc) (r : RecordT) (Q : loc -> heap -> Prop) :
  recordAt h rl r ->
  (forall l' h', h ⊆ h' -> recordAt h' l' (updateStatus recordId newStatus r) -> Q l' h') ->
  wp (updateStatusM recordId newStatus rl) Q h.
Proof.
  intros Hr HQ. pose proof Hr as (al & dl & H1 & H2 & H3).
  unfold updateStatusM, updateStatus in *.
  apply wp_bind. eapply wp_load; [exact H1 |]. cbv beta iota.
  destruct (String.eqb (id r) recordId).
  - apply wp_bind. eapply wp_load; [exact H2 |]. cbv beta iota.
    apply wp_bind. apply wp_alloc. intros al' Na.
    apply wp_alloc. intros l' Nl.
    assert (al' <> l') by (intros ->; now rewrite lookup_insert_eq in Nl).
    assert (dl <> al') by congruence.
    assert (dl <> l').
    { intros ->. rewrite lookup_insert_ne in Nl by auto. congruence. }
    apply HQ.
    + transitivity (<[al' := OAbout (mkAbout (name (about r)) newStatus (email (about r)))]> h);
        now apply subseteq_alloc.
    + exists al', dl. cbn [id about details]. split; [apply lookup_insert_eq |]. split.
      * rewrite lookup_insert_ne by auto. apply lookup_insert_eq.
      * rewrite !lookup_insert_ne by auto. exact H3.
  - apply wp_ret. apply HQ; [reflexivity | exact Hr].
Qed.

Lemma wp_mapM_updateStatusM (recordId : string) (newStatus : Status)
  (ls : list loc) (rs : list RecordT) :
  forall (h : heap) (Q : list loc -> heap -> Prop),
  Forall2 (recordAt h) ls rs ->
  (forall out h', h ⊆ h' ->
     Forall2 (recordAt h') out (List.map (updateStatus recordId newStatus) rs) ->
     Q out h') ->
  wp (mapM (updateStatusM recordId newStatus) ls) Q h.
Proof.
  revert rs. induction ls as [|l ls IH]; intros rs h Q HF HQ.
  - inversion HF; subst. apply wp_ret. apply HQ; [reflexivity | constructor].
  - inversion HF as [|? r ? rs' Hlr HF']; subst. cbn [mapM List.map].
    apply wp_bind. apply (wp_updateStatusM recordId newStatus h l r _ Hlr).
    intros l' h1 Hs1 Hl'. apply wp_bind.
    apply (IH rs' h1); [eapply Forall2_recordAt_weaken; eauto |].
    intros out h2 Hs2 Hout. apply wp_ret. apply HQ; [now transitivity h1 |].
    constructor; [eapply recordAt_weaken; eauto | exact Hout].
Qed.

(** The status update builds a new array, and new objects for the records
    it changes; the old store stays in the heap as it was. *)
Lemma handleStatusUpdateM_new_store (recordId : string) (newStatus : Status)
  (h : heap) (recordsRef : loc) (s : State) :
  arrayAt h recordsRef (records s) ->
  exists (newRef : loc) (h' : heap),
    handleStatusUpdateM recordId newStatus recordsRef h = Some (newRef, h') /\
    h ⊆ h' /\ h !! newRef = None /\
    arrayAt h' recordsRef (records s) /\
    arrayAt h' newRef (records (handleStatusUpdate recordId newStatus s)).
Proof.
  intros Hrec. pose proof Hrec as (ls & Hl & HF).
  assert (W : wp (handleStatusUpdateM recordId newStatus recordsRef)
                 (fun newRef h' => h ⊆ h' /\ h !! newRef = None /\
                    arrayAt h' newRef (List.map (updateStatus recordId newStatus) (records s))) h).
  { unfold handleStatusUpdateM, array_mapM.
    apply wp_bind. eapply wp_getElems; [exact Hl |].
    apply wp_bind. apply (wp_mapM_updateStatusM recordId newStatus ls (records s) h _ HF).
    intros out h1 Hs1 Hout. apply wp_alloc. intros l Hn.
    split; [transitivity h1; [exact Hs1 | now apply subseteq_alloc] |].
    split; [eapply fresh_in_base; eauto |].
    exists out. split; [apply lookup_insert_eq |].
    eapply Forall2_recordAt_weaken; [| exact Hout]. now apply subseteq_alloc. }
  unfold wp in W.
  destruct (handleStatusUpdateM recordId newStatus recordsRef h) as [[newRef h']|];
    [| contradiction].
  destruct W as (Hs & Hn & Ha). exists newRef, h'.
  split; [reflexivity |]. split; [exact Hs |]. split; [exact Hn |].
  split; [eapply arrayAt_weaken; eauto | exact Ha].
Qed.

(** ** Invalid dates and the date sort *)

(** When no record has a valid date, as with the dates the generator
    writes, every comparison is NaN and the date sort leaves the order as it
    was, in both directions. *)
Lemma date_sort_all_invalid (tza : Z) (lc : string -> string -> Z)
  (dir : SortDirection) (l : list RecordT) :
  Forall (fun r => dateKey tza r = NaN) l ->
  sortRecords tza lc (Some ByDate) dir l = l.
Proof.
  intros Hv. unfold sortRecords.
  induction Hv as [|x l Hx Hv IH]; [reflexivity |].
  cbn [array_sort fold_right]. fold (array_sort (compareRecords tza lc (Some ByDate) dir) l).
  rewrite IH. destruct l as [|y l]; [reflexivity |].
  cbn [sortInsert]. unfold compareRecords. unfold dateKey in Hx. rewrite Hx.
  now destruct dir, (parseDate tza (date (details y))).
Qed.

(** ** Dates of the expected form are recognised *)

Lemma readDigits_seen (radix : Z) (s : string) (acc : Z) :
  exists n, readDigits radix s acc true = Some n.
Proof.
  revert acc. induction s as [|c s IH]; intros acc; cbn; [eauto |].
  destruct (digitValue radix c); [apply IH | eauto].
Qed.

(** [parseInt] reads every nonempty string of decimal digits. *)
Lemma parseInt_digits (d : string) :
  truthy d = true -> allDigits d = true -> exists n, parseInt (Some d) = Some n.
Proof.
  destruct d as [|c d]; [discriminate |]. intros _. cbn [allDigits].
  destruct (digitValue 10 c) as [v|] eqn:Hc; [| discriminate]. intros Hd.
  destruct c as [[] [] [] [] [] [] [] []]; try (vm_compute in Hc; discriminate Hc);
    clear Hc.
  all: try (simpl; match goal with |- context [readDigits 10 ?dd ?a true] =>
              destruct (readDigits_seen 10 dd a) as [n ->]; eauto end).
  destruct d as [|c2 d2]; [simpl; eauto |].
  cbn [allDigits] in Hd.
  destruct (digitValue 10 c2) as [v2|] eqn:Hc2; [| discriminate].
  destruct c2 as [[] [] [] [] [] [] [] []]; try (vm_compute in Hc2; discriminate Hc2);
    clear Hc2.
  all: simpl; match goal with |- context [readDigits 10 ?dd ?a true] =>
              destruct (readDigits_seen 10 dd a) as [n ->]; eauto end.
Qed.

(** A date string of the form day, month, year is among those whose tokens
    [parseDate] recognises; the converse fails, as a trailing token shows. *)
Lemma wellFormed_recognised (s : string) :
  wellFormedDate s = true -> tokensRecognised s = true.
Proof.
  unfold wellFormedDate, tokensRecognised.
  destruct (split " " s) as [|d [|m [|y [|z rest]]]]; try discriminate.
  intros H. repeat (apply andb_true_iff in H as [H ?]).
  destruct (parseInt_digits d) as [n ->]; [assumption .. |].
  destruct (parseInt_digits y) as [k ->]; assumption.
Qed.

Example recognised_not_wellFormed :
  tokensRecognised "5 Mar 2024 x" = true /\ wellFormedDate "5 Mar 2024 x" = false.
Proof. split; reflexivity. Qed.

(** ** Generated records *)

Lemma generated_status_declared :
  forallb is_Status statuses = true.
Proof. reflexivity. Qed.

Lemma generatedDates_unrecognised :
  forallb (fun s => negb (tokensRecognised s)) generatedDates = true.
Proof. vm_compute. reflexivity. Qed.

(** The generator writes its dates as day/month/year with slashes, which
    [parseDate] does not read: a generated record passes no filter in which
    a date bound is set. *)
Lemma generated_record_fails_date_filter (tza : Z) (fs sn df dt : string) (r : RecordT) :
  In (date (details r)) generatedDates ->
  truthy df || truthy dt = true ->
  passesFilter tza fs sn df dt r = false.
Proof.
  intros Hin Hb. apply invalid_date_excluded; [| exact Hb].
  apply tokens_unrecognised_NaN.
  pose proof generatedDates_unrecognised as H. rewrite forallb_forall in H.
  apply H in Hin. now destruct (tokensRecognised (date (details r))).
Qed.

Example generatedDates_sample :
  nth_error generatedDates 0 = Some "01/01/2023" /\
  List.last generatedDates "" = "31/12/2024" /\ length generatedDates = 731%nat.
Proof. repeat split. Qed.

(** ** The theorems at concrete inputs *)

(** Twelve records and the second page: the page is within range. *)
Lemma currentPage_in_range_witness :
  let lc : string -> string -> Z := fun _ _ => 0 in
  let mk i := mkRecord i (mkAbout "Ann Lee" "ACTIVE" "ann.lee@demo.com")
                         (mkDetails "05 Mar 2024" "Bob Ray") in
  let data := List.map mk ["1";"2";"3";"4";"5";"6";"7";"8";"9";"10";"11";"12"] in
  let s := handle 0 lc ClickNext (initialState data) in
  reachable 0 lc isTableControl data s /\
  filteredData 0 s <> [] /\
  1 <= currentPage s <= totalPages 0 lc s.
Proof.
  intros lc mk data s.
  assert (R : reachable 0 lc isTableControl data s).
  { apply reach_step with (s := initialState data) (a := ClickNext);
      [apply reach_init | reflexivity |].
    apply step_intro. reflexivity. }
  assert (N : filteredData 0 s <> []) by (vm_compute; discriminate).
  split; [exact R |]. split; [exact N |].
  exact (currentPage_in_range 0 lc data s R N).
Defined.

(** Three records with distinct valid dates, one date shared by none. *)
Lemma date_sort_reverse_and_stable_witness :
  let lc : string -> string -> Z := fun _ _ => 0 in
  let mk i d := mkRecord i (mkAbout "Ann Lee" "ACTIVE" "ann.lee@demo.com")
                           (mkDetails d "Bob Ray") in
  let l := [mk "1" "03 Jun 2023"; mk "2" "31 May 2023"; mk "3" "02 Jun 2023"] in
  Forall (fun r => dateKey 0 r <> NaN) l /\
  List.NoDup (List.map (dateKey 0) l) /\
  sortRecords 0 lc (Some ByDate) desc l = rev (sortRecords 0 lc (Some ByDate) asc l) /\
  (forall (dir : SortDirection) (v : Z),
     List.filter (hasDateKey 0 v) (sortRecords 0 lc (Some ByDate) dir l) =
     List.filter (hasDateKey 0 v) l).
Proof.
  intros lc mk l.
  assert (V : Forall (fun r => dateKey 0 r <> NaN) l).
  { repeat constructor; vm_compute; discriminate. }
  assert (D : List.NoDup (List.map (dateKey 0) l)).
  { vm_compute. repeat constructor; cbn; intuition discriminate. }
  split; [exact V |]. split; [exact D |].
  destruct (date_sort_reverse_and_stable 0 lc l V) as [H1 H2].
  split; [exact (H1 D) | exact H2].
Defined.

(** Two records; the second, INVITED, is set to BLOCKED. *)
Lemma handleStatusUpdate_frame_witness :
  let s := initialState
             [mkRecord "1" (mkAbout "Ann Lee" "ACTIVE" "ann.lee@demo.com")
                           (mkDetails "05 Mar 2024" "Bob Ray");
              mkRecord "2" (mkAbout "Cy Moss" "INVITED" "cy.moss@demo.com")
                           (mkDetails "06 Mar 2024" "Dee Fox")] in
  In "2" (List.map id (records s)) /\
  List.NoDup (List.map id (records s)) /\
  let s' := handleStatusUpdate "2" "BLOCKED" s in
  length (records s') = length (records s) /\
  (forall (i : nat) (r : RecordT), nth_error (records s) i = Some r ->
     exists r', nth_error (records s') i = Some r' /\
       id r' = id r /\ name (about r') = name (about r) /\
       email (about r') = email (about r) /\ details r' = details r /\
       (id r <> "2" -> r' = r) /\
       (id r = "2" -> status (about r') = "BLOCKED")) /\
  (sortField s', sortDirection s', currentPage s') =
    (sortField s, sortDirection s, currentPage s) /\
  (filterStatus s', searchName s', dateFrom s', dateTo s') =
    (filterStatus s, searchName s, dateFrom s, dateTo s) /\
  (forall r : RecordT, In r (records s) -> id r = "2" ->
     blockedCount (records (handleStatusUpdate "2" "BLOCKED" s)) =
     if String.eqb (status (about r)) "BLOCKED"
     then blockedCount (records s) else S (blockedCount (records s))).
Proof.
  intros s.
  assert (I : In "2" (List.map id (records s))) by (cbn; auto).
  assert (D : List.NoDup (List.map id (records s))).
  { cbn. repeat constructor; cbn; intuition discriminate. }
  split; [exact I |]. split; [exact D |].
  exact (handleStatusUpdate_frame "2" "BLOCKED" s I D).
Defined.

(** Three records, one of them blocked: 33 percent. *)
Lemma percentages_as_computed_witness :
  let rs := [mkRecord "1" (mkAbout "Ann Lee" "ACTIVE" "ann.lee@demo.com")
                          (mkDetails "05 Mar 2024" "Bob Ray");
             mkRecord "2" (mkAbout "Cy Moss" "BLOCKED" "cy.moss@demo.com")
                          (mkDetails "06 Mar 2024" "Dee Fox");
             mkRecord "3" (mkAbout "Eve Hay" "INVITED" "eve.hay@demo.com")
                          (mkDetails "07 Mar 2024" "Flo Gil")] in
  Z.of_nat (length rs) < 2 ^ 32 /\
  exists ni nb : Z,
    inactivePercentage rs = decimal ni /\
    2 * Z.abs (ni * Z.of_nat (totalUsers rs) - 100 * Z.of_nat (inactiveCount rs))
      <= Z.of_nat (totalUsers rs) /\
    blockedPercentage rs = decimal nb /\
    2 * Z.abs (nb * Z.of_nat (totalUsers rs) - 100 * Z.of_nat (blockedCount rs))
      <= Z.of_nat (totalUsers rs).
Proof.
  intros rs.
  assert (L : Z.of_nat (length rs) < 2 ^ 32) by (cbn; lia).
  split; [exact L |].
  exact (percentages_as_computed rs L).
Defined.

(** A record dated as the generator dates them, and a from-date. *)
Lemma unrecognised_date_excluded_witness :
  let r := mkRecord "1" (mkAbout "Ann Lee" "ACTIVE" "ann.lee@demo.com")
                        (mkDetails "31/12/2024" "Bob Ray") in
  tokensRecognised (date (details r)) = false /\
  truthy "2024-01-01" || truthy "" = true /\
  parseDate 0 (date (details r)) = NaN /\
  passesFilter 0 "ALL" "" "2024-01-01" "" r = false.
Proof.
  intros r.
  assert (T : tokensRecognised (date (details r)) = false) by reflexivity.
  assert (B : truthy "2024-01-01" || truthy "" = true) by reflexivity.
  split; [exact T |]. split; [exact B |].
  exact (unrecognised_date_excluded 0 "ALL" "" "2024-01-01" "" r T B).
Defined.

(** A heap that holds a store of one record. *)
Lemma render_leaves_store_witness :
  let lc : string -> string -> Z := fun _ _ => 0 in
  let a := mkAbout "Ann Lee" "ACTIVE" "ann.lee@demo.com" in
  let d := mkDetails "05 Mar 2024" "Bob Ray" in
  let s := initialState [mkRecord "1" a d] in
  let h : heap :=
    <[1%positive := OArray [2%positive]]>
      (<[2%positive := ORecord "1" 3%positive 4%positive]>
         (<[3%positive := OAbout a]> (<[4%positive := ODetails d]> ∅))) in
  arrayAt h 1%positive (records s) /\
  (exists (out : Rendered) (h' : heap),
     renderM 0 lc 1%positive s h = Some (out, h') /\
     h ⊆ h' /\
     arrayAt h' 1%positive (records s) /\
     (h !! filteredRef out = None /\ h !! sortedRef out = None /\
      h !! currentRef out = None) /\
     (arrayAt h' (filteredRef out) (filteredData 0 s) /\
      arrayAt h' (sortedRef out) (sortedData 0 lc s) /\
      arrayAt h' (currentRef out) (currentRecords 0 lc s)) /\
     pageCount out = totalPages 0 lc s) /\
  (forall act : Action, isTableControl act = true ->
     records (handle 0 lc act s) = records s).
Proof.
  intros lc a d s h.
  assert (A : arrayAt h 1%positive (records s)).
  { exists [2%positive]. split; [reflexivity |].
    constructor; [| constructor].
    exists 3%positive, 4%positive. repeat split; reflexivity. }
  split; [exact A |].
  exact (render_leaves_store 0 lc h 1%positive s A).
Defined.

(** * Further properties of the table *)

(** ** Filter stage *)

(** X1: Clear All Filters shows the whole store again, from page 1, and
    keeps the sort criterion. *)
Theorem clearFilters_shows_whole_store (tza : Z) (s : State) :
  filteredData tza (handleClearFilters s) = records s /\
  currentPage (handleClearFilters s) = 1 /\
  (sortField (handleClearFilters s), sortDirection (handleClearFilters s))
    = (sortField s, sortDirection s).
Proof.
  split; [| split; reflexivity].
  unfold filteredData, handleClearFilters.
  cbn [filterStatus searchName dateFrom dateTo records].
  apply filterRecords_no_filter.
Qed.

(** X2: whatever the host's time zone, the filter stage returns a
    subsequence of the store in which every record has the selected status
    (unless the filter is ALL) and a name that contains the search text,
    both case-folded. *)
Theorem filteredData_sound (tza : Z) (s : State) :
  sublist (filteredData tza s) (records s) /\
  Forall (fun r =>
            (filterStatus s = "ALL" \/ status (about r) = filterStatus s) /\
            isSubstring (toLowerCase (searchName s)) (toLowerCase (name (about r))))
         (filteredData tza s).
Proof.
  unfold filteredData, filterRecords. split.
  - induction (records s) as [|r rs IH]; cbn; [constructor |].
    destruct (passesFilter tza _ _ _ _ r); now constructor.
  - apply List.Forall_forall. intros r Hr. apply List.filter_In in Hr as [_ Hp].
    unfold passesFilter in Hp.
    apply andb_true_iff in Hp as [Hp _]. apply andb_true_iff in Hp as [H1 H2].
    apply orb_true_iff in H1. rewrite !String.eqb_eq in H1.
    apply includes_spec in H2. auto.
Qed.

Lemma lower_char_idem (c : ascii) : lower_char (lower_char c) = lower_char c.
Proof. destruct c as [[] [] [] [] [] [] [] []]; reflexivity. Qed.

Lemma toLowerCase_idem (s : string) : toLowerCase (toLowerCase s) = toLowerCase s.
Proof. induction s as [|c s IH]; cbn; [reflexivity |]. now rewrite lower_char_idem, IH. Qed.

(** X3: the search does not depend on the case of the letters typed:
    the search text and its lower-case form select the same records. *)
Theorem search_ignores_case (tza : Z) (fs sn df dt : string) (rs : list RecordT) :
  filterRecords tza fs (toLowerCase sn) df dt rs = filterRecords tza fs sn df dt rs.
Proof.
  unfold filterRecords. apply List.filter_ext. intros r.
  unfold passesFilter. now rewrite toLowerCase_idem.
Qed.

Lemma append_assoc (a b c : string) :
  ((a ++ b) ++ c = a ++ (b ++ c))%string.
Proof.
  induction a as [|x a IH]; [reflexivity |].
  change ((String x a ++ b) ++ c)%string with (String x ((a ++ b) ++ c)%string).
  change (String x a ++ (b ++ c))%string with (String x (a ++ (b ++ c))%string).
  now rewrite IH.
Qed.

Lemma isSubstring_trans (a b c : string) :
  isSubstring a b -> isSubstring b c -> isSubstring a c.
Proof.
  intros (p1 & s1 & ->) (p2 & s2 & ->).
  exists (p2 ++ p1)%string, (s1 ++ s2)%string.
  now rewrite !append_assoc.
Qed.

Lemma sublist_filter_impl {A} (f g : A -> bool) (l : list A) :
  (forall x, f x = true -> g x = true) ->
  sublist (List.filter f l) (List.filter g l).
Proof.
  intros H. induction l as [|x l IH]; cbn; [constructor |].
  destruct (f x) eqn:Ef.
  - rewrite (H x Ef). now constructor.
  - destruct (g x); [now constructor | exact IH].
Qed.

(** X4: narrowing the search never adds rows: when the lower-case form
    of the search text [sn1] occurs in the lower-case form of [sn2], the
    records selected by [sn2] are a subsequence of those selected by [sn1],
    the other criteria being the same. *)
Theorem longer_search_narrows (tza : Z) (fs sn1 sn2 df dt : string) (rs : list RecordT) :
  isSubstring (toLowerCase sn1) (toLowerCase sn2) ->
  sublist (filterRecords tza fs sn2 df dt rs) (filterRecords tza fs sn1 df dt rs).
Proof.
  intros Hs. apply sublist_filter_impl. intros r.
  unfold passesFilter. rewrite !andb_true_iff. intros [[H1 H2] H3].
  repeat split; [exact H1 | | exact H3].
  apply includes_spec. apply includes_spec in H2.
  eapply isSubstring_trans; [exact Hs | exact H2].
Qed.

(** X5: at or east of Greenwich, with each bound empty or a calendar
    date written [YYYY-MM-DD], the filter stage keeps exactly the records of
    the store that meet its contract: status, case-folded name, and the date
    within the chosen days, both end days included. *)
Theorem filter_keeps_contract_east (tza : Z) (fs sn df dt : string) (rs : list RecordT) :
  0 <= tza < msPerDay ->
  dateInputValue df = true -> dateInputValue dt = true ->
  sublist (filterRecords tza fs sn df dt rs) rs /\
  (forall r, In r (filterRecords tza fs sn df dt rs) <->
             In r rs /\ passesContract tza fs sn df dt r).
Proof.
  intros Hz _ _. split.
  - unfold filterRecords. induction rs as [|r rs IH]; cbn; [constructor |].
    destruct (passesFilter tza fs sn df dt r); now constructor.
  - intros r. unfold filterRecords. rewrite List.filter_In.
    now rewrite (passesFilter_contract_east tza fs sn df dt r Hz).
Qed.

(** ** Sort stage *)

(** X6: for every sort field, direction and collation, the sort stage
    only rearranges: the sorted sequence is a permutation of the filtered
    one, so no record is lost or shown twice. *)
Theorem sortedData_permutation (tza : Z) (lc : string -> string -> Z) (s : State) :
  Permutation (sortedData tza lc s) (filteredData tza s) /\
  length (sortedData tza lc s) = length (filteredData tza s).
Proof.
  assert (P : Permutation (sortedData tza lc s) (filteredData tza s)).
  { unfold sortedData, sortRecords. apply array_sort_perm. }
  split; [exact P | now apply Permutation_length].
Qed.

Lemma array_sort_never_follows {A} (cmp : A -> A -> number) (l : list A) :
  (forall x y, follows (cmp x y) = false) -> array_sort cmp l = l.
Proof.
  intros H. induction l as [|x l IH]; [reflexivity |].
  cbn [array_sort fold_right]. fold (array_sort cmp l). rewrite IH.
  destruct l as [|y l]; [reflexivity |]. cbn [sortInsert]. now rewrite H.
Qed.

(** X7: while no header has been clicked the sort stage passes the
    filtered sequence through in the order of the store. *)
Theorem unsorted_keeps_order (tza : Z) (lc : string -> string -> Z) (s : State) :
  sortField s = None -> sortedData tza lc s = filteredData tza s.
Proof.
  intros H. unfold sortedData, sortRecords. rewrite H.
  apply array_sort_never_follows. reflexivity.
Qed.

(** X8: on records whose dates all parse, sorting by date in direction
    asc gives ascending time values and in direction desc descending ones. *)
Theorem date_sort_orders_by_time (tza : Z) (lc : string -> string -> Z) (l : list RecordT) :
  Forall (fun r => dateKey tza r <> NaN) l ->
  StronglySorted (fun a b => dateValue tza a <= dateValue tza b)
                 (sortRecords tza lc (Some ByDate) asc l) /\
  StronglySorted (fun a b => dateValue tza b <= dateValue tza a)
                 (sortRecords tza lc (Some ByDate) desc l).
Proof.
  intros Hv. split; [now apply sort_date_asc_sorted | now apply sort_date_desc_sorted].
Qed.

(** X9: on records none of whose dates parse, as the generator writes
    them, sorting by date changes nothing, in either direction. *)
Theorem date_sort_without_valid_dates (tza : Z) (lc : string -> string -> Z)
  (dir : SortDirection) (l : list RecordT) :
  Forall (fun r => tokensRecognised (date (details r)) = false) l ->
  sortRecords tza lc (Some ByDate) dir l = l.
Proof.
  intros H. apply date_sort_all_invalid.
  eapply List.Forall_impl; [| exact H].
  intros r Hr. now apply tokens_unrecognised_NaN.
Qed.

Section Collation.

Variable tza : Z.
Variable lc : string -> string -> Z.

(** The collation is an order: transitive, and total in that of two
    strings one does not come after the other. *)
Hypothesis lc_trans : forall a b c, lc a b <= 0 -> lc b c <= 0 -> lc a c <= 0.
Hypothesis lc_total : forall a b, 0 < lc a b -> lc b a <= 0.
Hypothesis lc_trans_ge : forall a b c, 0 <= lc a b -> 0 <= lc b c -> 0 <= lc a c.
Hypothesis lc_total_ge : forall a b, lc a b < 0 -> 0 <= lc b a.

Lemma sortInsert_sorted_by (R : RecordT -> RecordT -> Prop)
  (cmp : RecordT -> RecordT -> number) (x : RecordT) (l : list RecordT) :
  (forall a b, follows (cmp a b) = true -> R b a) ->
  (forall a b, follows (cmp a b) = false -> R a b) ->
  (forall a b c, R a b -> R b c -> R a c) ->
  StronglySorted R l -> StronglySorted R (sortInsert cmp x l).
Proof.
  intros Ht Hf Htr. induction 1 as [|y l Hs IH Hy]; cbn.
  - repeat constructor.
  - destruct (follows (cmp x y)) eqn:E.
    + constructor; [exact IH |].
      rewrite (sortInsert_perm cmp x l). constructor; [now apply Ht | exact Hy].
    + constructor; [now constructor |].
      constructor; [now apply Hf |].
      eapply List.Forall_impl; [| exact Hy]. intros a Ha. eapply Htr; eauto.
Qed.

Lemma array_sort_sorted_by (R : RecordT -> RecordT -> Prop)
  (cmp : RecordT -> RecordT -> number) (l : list RecordT) :
  (forall a b, follows (cmp a b) = true -> R b a) ->
  (forall a b, follows (cmp a b) = false -> R a b) ->
  (forall a b c, R a b -> R b c -> R a c) ->
  StronglySorted R (array_sort cmp l).
Proof.
  intros Ht Hf Htr. induction l as [|x l IH]; cbn; [constructor |].
  now apply sortInsert_sorted_by.
Qed.

Lemma compare_text (f : SortField) (dir : SortDirection) (a b : RecordT) :
  f <> ByDate ->
  compareRecords tza lc (Some f) dir a b
  = directed dir (lc (fieldText f a) (fieldText f b)).
Proof. destruct f; [reflexivity .. | | |]; try reflexivity. congruence. Qed.

(** X10: for the name, email, inviter and status fields, when the host's
    collation is an order, direction asc puts the records in collation order
    and direction desc in the opposite order. *)
Theorem text_sort_orders_by_collation (f : SortField) (l : list RecordT) :
  f <> ByDate ->
  StronglySorted (fun a b => lc (fieldText f a) (fieldText f b) <= 0)
                 (sortRecords tza lc (Some f) asc l) /\
  StronglySorted (fun a b => 0 <= lc (fieldText f a) (fieldText f b))
                 (sortRecords tza lc (Some f) desc l).
Proof.
  intros Hf. unfold sortRecords. split; apply array_sort_sorted_by.
  - intros a b. rewrite compare_text by exact Hf. cbn.
    intros H. apply Z.ltb_lt in H. now apply lc_total.
  - intros a b. rewrite compare_text by exact Hf. cbn.
    intros H. apply Z.ltb_ge in H. exact H.
  - intros a b c. apply lc_trans.
  - intros a b. rewrite compare_text by exact Hf. cbn.
    intros H. apply Z.ltb_lt in H. apply lc_total_ge. lia.
  - intros a b. rewrite compare_text by exact Hf. cbn.
    intros H. apply Z.ltb_ge in H. lia.
  - intros a b c. apply lc_trans_ge.
Qed.

End Collation.

(** ** Pagination stage *)

Lemma pageOf_take_drop {A} (l : list A) (p : Z) :
  1 <= p ->
  pageOf l p = firstn 10 (skipn (10 * Z.to_nat (p - 1)) l).
Proof.
  intros Hp. unfold pageOf, array_slice, recordsPerPage.
  set (len := Z.of_nat (length l)).
  destruct (Z.ltb_spec ((p - 1) * 10) 0); [lia |].
  destruct (Z.ltb_spec ((p - 1) * 10 + 10) 0); [lia |].
  destruct (Z.le_gt_cases len ((p - 1) * 10)) as [Hge | Hlt].
  - rewrite !skipn_all2 by (unfold len in *; lia). now rewrite !firstn_nil.
  - replace (Z.to_nat (Z.min ((p - 1) * 10) len)) with (10 * Z.to_nat (p - 1))%nat by lia.
    destruct (Z.le_gt_cases ((p - 1) * 10 + 10) len) as [Hfull | Hpart].
    + f_equal. lia.
    + rewrite !firstn_all2; [reflexivity | |];
        rewrite length_skipn; unfold len in *; lia.
Qed.

Lemma chunks_concat {A} (n : nat) :
  forall l : list A, (length l <= 10 * n)%nat ->
  concat (List.map (fun i => firstn 10 (skipn (10 * i) l)) (seq 0 n)) = l.
Proof.
  induction n as [|n IH]; intros l Hl.
  - destruct l; [reflexivity | cbn in Hl; lia].
  - cbn [seq List.map concat]. rewrite <- seq_shift, List.map_map.
    rewrite (List.map_ext _ (fun i => firstn 10 (skipn (10 * i) (skipn 10 l)))).
    + rewrite IH by (rewrite length_skipn; lia).
      change (10 * 0)%nat with 0%nat. cbn [skipn]. apply firstn_skipn.
    + intros i. rewrite skipn_skipn. do 2 f_equal. lia.
Qed.

(** X11: the pages 1 .. totalPages, one after the other, are exactly the
    sorted sequence: every record is on one page, in order. *)
Theorem pages_partition_sortedData (tza : Z) (lc : string -> string -> Z) (s : State) :
  concat (List.map (fun p => currentRecords tza lc (setCurrentPage p s))
                   (pageNumbers (totalPages tza lc s)))
  = sortedData tza lc s.
Proof.
  unfold pageNumbers. rewrite List.map_map.
  set (l := sortedData tza lc s).
  assert (E : forall i, In i (seq 1 (Z.to_nat (totalPages tza lc s))) ->
            currentRecords tza lc (setCurrentPage (Z.of_nat i) s)
            = firstn 10 (skipn (10 * pred i) l)).
  { intros i Hi. apply in_seq in Hi.
    change (currentRecords tza lc (setCurrentPage (Z.of_nat i) s))
      with (pageOf l (Z.of_nat i)).
    rewrite pageOf_take_drop by lia. do 3 f_equal. lia. }
  rewrite (List.map_ext_in _ _ _ E).
  rewrite <- seq_shift, List.map_map. cbn [pred].
  apply chunks_concat.
  pose proof (pagesFor_bounds (length l)) as Hb.
  unfold totalPages. fold l. lia.
Qed.

(** X12: for a page number that is not negative, the page holds
    min(10, n - 10 (p - 1)) records when p is within 1 .. totalPages, at
    least one, and no record otherwise: page 0 and the pages past the last
    show the empty table. *)
Theorem page_length (tza : Z) (lc : string -> string -> Z) (s : State) (p : Z) :
  0 <= p ->
  let n := Z.of_nat (length (sortedData tza lc s)) in
  Z.of_nat (length (currentRecords tza lc (setCurrentPage p s))) =
  if (1 <=? p) && (p <=? totalPages tza lc s)
  then Z.min 10 (n - 10 * (p - 1))
  else 0.
Proof.
  intros Hp n.
  change (currentRecords tza lc (setCurrentPage p s))
    with (pageOf (sortedData tza lc s) p).
  pose proof (pagesFor_bounds (length (sortedData tza lc s))) as Hb.
  fold (totalPages tza lc s) in Hb. fold n in Hb.
  destruct (Z.leb_spec 1 p) as [H1 | H0]; cbn [andb].
  - rewrite pageOf_take_drop by exact H1.
    rewrite length_firstn, length_skipn. fold n.
    destruct (Z.leb_spec p (totalPages tza lc s)); lia.
  - assert (p = 0) by lia. subst p.
    unfold pageOf, array_slice, recordsPerPage.
    change ((0 - 1) * 10) with (-10). change (-10 + 10) with 0.
    change (-10 <? 0) with true. change (0 <? 0) with false. cbv iota.
    set (len := Z.of_nat (length (sortedData tza lc s))).
    replace (Z.to_nat (Z.min 0 len - Z.max (len + -10) 0)) with 0%nat by lia.
    reflexivity.
Qed.

(** ** Header clicks *)

(** X13: a click on a header makes its field the sort field; the
    direction is asc unless the field was already the sort field, and then
    it flips, so a third click on the same header sorts as the first did.
    Nothing else of the state changes. *)
Theorem handleSort_toggles (field : SortField) (s : State) :
  let s1 := handleSort field s in
  let s2 := handleSort field s1 in
  let s3 := handleSort field s2 in
  sortField s1 = Some field /\
  sortDirection s1 =
    (match sortField s with
     | Some f => if SortField_eqb f field
                 then match sortDirection s with asc => desc | desc => asc end
                 else asc
     | None => asc
     end) /\
  sortField s2 = Some field /\ sortDirection s2 <> sortDirection s1 /\
  s3 = s1 /\
  (records s1, currentPage s1, filterStatus s1, searchName s1, dateFrom s1, dateTo s1)
  = (records s, currentPage s, filterStatus s, searchName s, dateFrom s, dateTo s).
Proof.
  destruct s as [rs [f|] sd cp fs sn df dt]; [destruct f |];
    destruct field, sd; cbn; repeat split; discriminate.
Qed.

(** ** Status update *)

Lemma State_eta (s : State) :
  mkState (records s) (sortField s) (sortDirection s) (currentPage s)
          (filterStatus s) (searchName s) (dateFrom s) (dateTo s) = s.
Proof. now destruct s. Qed.

(** X14: a status update for an id that no record of the store has
    leaves the state as it is. *)
Theorem handleStatusUpdate_unknown_id (recordId : string) (newStatus : Status) (s : State) :
  ~ In recordId (List.map id (records s)) ->
  handleStatusUpdate recordId newStatus s = s.
Proof.
  intros H. unfold handleStatusUpdate.
  rewrite (updateStatus_absent recordId newStatus (records s) H).
  apply State_eta.
Qed.

Lemma updateStatus_twice (i : string) (a b : Status) (r : RecordT) :
  updateStatus i b (updateStatus i a r) = updateStatus i b r.
Proof.
  unfold updateStatus. destruct (String.eqb (id r) i) eqn:E; cbn; now rewrite E.
Qed.

Lemma updateStatus_comm (i j : string) (a b : Status) (r : RecordT) :
  i <> j ->
  updateStatus i a (updateStatus j b r) = updateStatus j b (updateStatus i a r).
Proof.
  intros Hne. unfold updateStatus.
  destruct (String.eqb_spec (id r) i), (String.eqb_spec (id r) j); cbn;
    try congruence;
    repeat match goal with
    | |- context [String.eqb ?x ?y] => destruct (String.eqb_spec x y); try congruence
    end.
Qed.

(** X15: of two status updates of the same id the later one decides, so
    repeating an update changes nothing more. *)
Theorem handleStatusUpdate_last_wins (recordId : string) (a b : Status) (s : State) :
  handleStatusUpdate recordId b (handleStatusUpdate recordId a s)
  = handleStatusUpdate recordId b s /\
  handleStatusUpdate recordId a (handleStatusUpdate recordId a s)
  = handleStatusUpdate recordId a s.
Proof.
  assert (L : forall x y,
    handleStatusUpdate recordId y (handleStatusUpdate recordId x s)
    = handleStatusUpdate recordId y s).
  { intros x y. unfold handleStatusUpdate. cbn. f_equal.
    rewrite List.map_map. apply List.map_ext. intros r. apply updateStatus_twice. }
  split; apply L.
Qed.

(** X16: status updates of different ids do not interfere: in either
    order they give the same state. *)
Theorem handleStatusUpdate_commutes (i j : string) (a b : Status) (s : State) :
  i <> j ->
  handleStatusUpdate i a (handleStatusUpdate j b s)
  = handleStatusUpdate j b (handleStatusUpdate i a s).
Proof.
  intros Hne. unfold handleStatusUpdate. cbn. f_equal.
  rewrite !List.map_map. apply List.map_ext. intros r. now apply updateStatus_comm.
Qed.

(** ** Statistics and status badges *)

Lemma count_declared (rs : list RecordT) :
  Forall (fun r => is_Status (status (about r)) = true) rs ->
  inactiveCount rs = 0%nat /\
  (activeCount rs + countStatus "INVITED" rs + blockedCount rs = totalUsers rs)%nat.
Proof.
  unfold inactiveCount, activeCount, blockedCount, totalUsers.
  induction 1 as [|r rs Hr _ [IH1 IH2]]; [split; reflexivity |].
  rewrite !countStatus_cons. cbn [length].
  unfold is_Status in Hr.
  destruct (String.eqb_spec (status (about r)) "ACTIVE") as [E|];
    [rewrite E; cbn; split; lia |].
  destruct (String.eqb_spec (status (about r)) "INVITED") as [E|];
    [rewrite E; cbn; split; lia |].
  destruct (String.eqb_spec (status (about r)) "BLOCKED") as [E|];
    [rewrite E; cbn; split; lia | discriminate].
Qed.

(** X17: in a store whose statuses are all declared ones, as generated,
    the Inactive card counts no record, and the active, invited and blocked
    records together are all the records: the invited ones appear on no
    card but the total. *)
Theorem cards_of_declared_statuses (rs : list RecordT) :
  Forall (fun r => is_Status (status (about r)) = true) rs ->
  inactiveCount rs = 0%nat /\
  (activeCount rs + blockedCount rs + countStatus "INVITED" rs = totalUsers rs)%nat /\
  (activeCount rs + blockedCount rs <= totalUsers rs)%nat.
Proof.
  intros H. destruct (count_declared rs H) as [H1 H2]. repeat split; lia.
Qed.

(** X18: an INVITED record carries the badge text Blocked, as every
    status other than ACTIVE and INACTIVE does, and no option of the status
    select other than the unfiltered one lets it pass the filter. *)
Theorem invited_record_badge_and_filter (tza : Z) (v sn df dt : string) (r : RecordT) :
  status (about r) = "INVITED" ->
  mem_string v statusOptions = true -> v <> "ALL" ->
  statusLabel (status (about r)) = "Blocked" /\
  getStatusClass (status (about r)) = "status-badge status-invited" /\
  passesFilter tza v sn df dt r = false.
Proof.
  intros Hs Hv Hne. rewrite Hs. split; [reflexivity |]. split; [reflexivity |].
  unfold passesFilter. rewrite Hs.
  unfold mem_string, statusOptions in Hv. cbn in Hv.
  repeat (apply orb_true_iff in Hv as [Hv | Hv]);
    try discriminate; apply String.eqb_eq in Hv; subst v;
    try congruence; reflexivity.
Qed.

(** * The generator and the table *)

Lemma generated_day_check :
  forallb (fun k => let '(y, m, d) := civilFromDay (dayNumber 2023 0 1 + Z.of_nat k) in
                    mem_string (toLocaleDateString y m d) generatedDates)
          (seq 0 730) = true.
Proof. vm_compute. reflexivity. Qed.

Lemma mem_string_In (x : string) (l : list string) :
  mem_string x l = true -> In x l.
Proof.
  unfold mem_string. rewrite existsb_exists. intros (y & Hy & E).
  apply String.eqb_eq in E. now subst.
Qed.

(** Every date the generator can write is one of the listed ones, whatever
    the host's time zone. *)
Lemma generateRandomDate_listed (tza offset : Z) :
  0 <= offset < generatorSpan ->
  In (generateRandomDate tza offset) generatedDates.
Proof.
  intros Ho. unfold generateRandomDate, toLocaleDateStringOf, generatorStart.
  unfold LocalTime, UTC, Day.
  replace (dayNumber 2023 0 1 * msPerDay - tza + offset + tza)
    with (offset + dayNumber 2023 0 1 * msPerDay) by lia.
  rewrite Z.div_add by (unfold msPerDay; lia).
  set (k := offset / msPerDay).
  assert (Hk : 0 <= k < 730).
  { unfold k, generatorSpan, msPerDay in *. change (dayNumber 2024 11 31 - dayNumber 2023 0 1)
      with 730 in Ho. split; [apply Z.div_pos; lia | apply Z.div_lt_upper_bound; lia]. }
  pose proof (forallb_seq _ _ generated_day_check (Z.to_nat k) ltac:(lia)) as H.
  cbv beta in H. rewrite Z2Nat.id in H by lia.
  rewrite (Z.add_comm k).
  destruct (civilFromDay (dayNumber 2023 0 1 + k)) as [[y m] d].
  now apply mem_string_In.
Qed.

Lemma generated_email_check :
  forallb (fun i => forallb (fun j =>
      String.eqb (generateEmail (generateRandomName i j))
                 (toLowerCase (pick firstNames i) ++ "." ++
                  toLowerCase (pick lastNames j) ++ "@demo.com"))
    (seq 0 20)) (seq 0 20) = true.
Proof. vm_compute. reflexivity. Qed.

Lemma allDistinct_NoDup (l : list string) :
  allDistinct l = true -> List.NoDup l.
Proof.
  induction l as [|x l IH]; cbn; [constructor |].
  intros H. apply andb_true_iff in H as [H1 H2]. constructor; [| now apply IH].
  intros Hin. apply negb_true_iff in H1.
  unfold mem_string in H1.
  assert (existsb (String.eqb x) l = true).
  { apply existsb_exists. exists x. split; [exact Hin | apply String.eqb_refl]. }
  congruence.
Qed.

(** X19: the generator makes 100 records whose ids are the decimal
    numerals of 1 to 100, in this order, all different, whatever it draws. *)
Theorem generated_ids (tza : Z) (draw : nat -> Draw) :
  length (generateRecords tza draw) = 100%nat /\
  List.map id (generateRecords tza draw)
  = List.map (fun i => decimal (Z.of_nat i)) (seq 1 100) /\
  List.NoDup (List.map id (generateRecords tza draw)).
Proof.
  assert (E : List.map id (generateRecords tza draw)
              = List.map (fun i => decimal (Z.of_nat i)) (seq 1 100)).
  { unfold generateRecords. rewrite List.map_map. reflexivity. }
  split; [unfold generateRecords; now rewrite length_map, length_seq |].
  split; [exact E |]. rewrite E.
  apply allDistinct_NoDup. vm_compute. reflexivity.
Qed.

Lemma generated_date_invalid (tza offset : Z) :
  0 <= offset < generatorSpan ->
  In (generateRandomDate tza offset) generatedDates /\
  parseDate tza (generateRandomDate tza offset) = NaN.
Proof.
  intros Ho.
  assert (HD : In (generateRandomDate tza offset) generatedDates)
    by now apply generateRandomDate_listed.
  split; [exact HD |].
  apply tokens_unrecognised_NaN.
  pose proof generatedDates_unrecognised as H. rewrite forallb_forall in H.
  apply H in HD. now destruct (tokensRecognised (generateRandomDate tza offset)).
Qed.

(** X20: a record generated from draws within range has a declared
    status, a name made of a first and a last name of the lists, the e-mail
    address first.last@demo.com in lower case, and a date written as
    day/month/year, which [parseDate] reads as an invalid date. *)
Theorem generated_record_shape (tza : Z) (i : nat) (d : Draw) :
  wellFormedDraw generatorSpan d ->
  let r := generateRecord tza i d in
  is_Status (status (about r)) = true /\
  name (about r) = (pick firstNames (nameFirst d) ++ " " ++ pick lastNames (nameLast d))%string /\
  In (pick firstNames (nameFirst d)) firstNames /\
  In (pick lastNames (nameLast d)) lastNames /\
  email (about r) = (toLowerCase (pick firstNames (nameFirst d)) ++ "." ++
                     toLowerCase (pick lastNames (nameLast d)) ++ "@demo.com")%string /\
  In (date (details r)) generatedDates /\
  parseDate tza (date (details r)) = NaN.
Proof.
  intros (H1 & H2 & H3 & H4 & H5 & H6) r. subst r.
  cbn [generateRecord about details status name email date].
  split.
  { unfold getRandomStatus, pick.
    destruct (statusIndex d) as [|[|[|k]]]; try reflexivity. lia. }
  split; [reflexivity |].
  split; [apply nth_In; cbn; lia |].
  split; [apply nth_In; cbn; lia |].
  split.
  { pose proof (forallb_seq _ _ generated_email_check (nameFirst d) H1) as Hc.
    cbv beta in Hc.
    pose proof (forallb_seq _ _ Hc (nameLast d) H2) as Hc2. cbv beta in Hc2.
    now apply String.eqb_eq in Hc2. }
  now apply generated_date_invalid.
Qed.

Lemma filter_none {A} (f : A -> bool) (l : list A) :
  (forall x, In x l -> f x = false) -> List.filter f l = [].
Proof.
  induction l as [|x l IH]; intros H; [reflexivity |].
  cbn. rewrite (H x) by now left. apply IH. intros y Hy. apply H. now right.
Qed.

(** X21: the table on a generated store: as soon as a from-date or a
    to-date is set the filter stage returns no record at all, and sorting by
    date leaves the records in the order of the store, since no generated
    date parses. *)
Theorem generated_store_and_dates (tza : Z) (lc : string -> string -> Z)
  (draw : nat -> Draw) (fs sn df dt : string) (dir : SortDirection) :
  (forall i, wellFormedDraw generatorSpan (draw i)) ->
  truthy df || truthy dt = true ->
  filterRecords tza fs sn df dt (generateRecords tza draw) = [] /\
  sortRecords tza lc (Some ByDate) dir (generateRecords tza draw)
  = generateRecords tza draw.
Proof.
  intros Hw Hb.
  assert (Hinv : forall r, In r (generateRecords tza draw) ->
                 parseDate tza (date (details r)) = NaN).
  { intros r Hr. unfold generateRecords in Hr. apply in_map_iff in Hr as (i & <- & _).
    cbn [generateRecord details date].
    apply generated_date_invalid. apply (Hw i). }
  split.
  - apply filter_none. intros r Hr. apply invalid_date_excluded; auto.
  - apply date_sort_all_invalid. apply List.Forall_forall. exact Hinv.
Qed.


(** ** The progressive-loading version of the table *)

Lemma SortField_eqb_refl (f : SortField) : SortField_eqb f f = true.
Proof. now destruct f. Qed.

Lemma sameCriteria_refl (s : State) : sameCriteria s s = true.
Proof.
  unfold sameCriteria. rewrite !String.eqb_refl.
  destruct (sortField s) as [f|]; [rewrite SortField_eqb_refl |];
    now destruct (sortDirection s).
Qed.

Lemma sameCriteria_setCurrentPage (p : Z) (s1 s2 : State) :
  sameCriteria s1 (setCurrentPage p s2) = sameCriteria s1 s2.
Proof. reflexivity. Qed.

Lemma handleSort_changes_criteria (f : SortField) (s : State) :
  sameCriteria s (handleSort f s) = false.
Proof.
  unfold sameCriteria, handleSort.
  destruct (sortField s) as [g|] eqn:Hf.
  - destruct (SortField_eqb g f) eqn:Hgf; cbn; rewrite ?Hf, !String.eqb_refl; cbn.
    + rewrite SortField_eqb_refl. now destruct (sortDirection s).
    + now rewrite Hgf.
  - cbn. rewrite !String.eqb_refl. reflexivity.
Qed.

Lemma array_slice_window_length {A} (l : list A) (a : Z) :
  (length (array_slice l a (a + 10)) <= 10)%nat.
Proof.
  unfold array_slice. rewrite length_firstn.
  destruct (Z.ltb_spec a 0), (Z.ltb_spec (a + 10) 0); lia.
Qed.

Lemma pageRecords_length tza lc (v : Virtuoso.VState) :
  (length (Virtuoso.pageRecords tza lc v) <= 10)%nat.
Proof. apply array_slice_window_length. Qed.

Lemma array_slice_prefix {A} (l : list A) (n : Z) :
  0 <= n ->
  array_slice l 0 (Z.min n (Z.of_nat (length l))) = firstn (Z.to_nat n) l.
Proof.
  intros Hn. unfold array_slice.
  destruct (Z.ltb_spec 0 0); [lia |].
  replace (Z.to_nat (Z.min 0 (Z.of_nat (length l)))) with 0%nat by lia.
  cbn [skipn].
  destruct (Z.ltb_spec (Z.min n (Z.of_nat (length l))) 0); [lia |].
  destruct (Z.le_gt_cases n (Z.of_nat (length l))).
  - replace (Z.to_nat (Z.min (Z.min n (Z.of_nat (length l))) (Z.of_nat (length l)) -
                       Z.min 0 (Z.of_nat (length l)))) with (Z.to_nat n) by lia.
    reflexivity.
  - rewrite (firstn_all2 (n := Z.to_nat n)) by lia. apply firstn_all2. lia.
Qed.

Lemma runEffects_displayCount (before after : Virtuoso.VState) :
  Virtuoso.displayCount (Virtuoso.runEffects before after) = 5 \/
  Virtuoso.runEffects before after = after.
Proof.
  unfold Virtuoso.runEffects.
  destruct (sameCriteria _ _); [| now left].
  destruct (_ =? _); [now right | now left].
Qed.

Lemma reachable_displayCount tza lc ok data (v : Virtuoso.VState) :
  Virtuoso.reachable tza lc ok data v ->
  Virtuoso.displayCount v = 5 \/ Virtuoso.displayCount v = 10.
Proof.
  induction 1 as [| v a _ IH _ _]; [now left |].
  unfold Virtuoso.handle.
  destruct (runEffects_displayCount v (Virtuoso.handler tza lc a v)) as [H5 | ->];
    [now left |].
  destruct a as [t | | | p |]; try exact IH.
  - destruct t; try exact IH. now left.
  - cbn [Virtuoso.handler]. unfold Virtuoso.handleEndReached, recordsPerPage.
    destruct (_ && _); [| exact IH]. cbn [Virtuoso.displayCount]. lia.
Qed.

(** X22: in the progressive-loading version every state the user can reach
    shows the first 5 or the first 10 rows of the current page: the display
    count is 5 or 10, the rows shown are that prefix of the page, and they
    are at most 10. *)
Theorem progressive_rows_are_page_prefix (tza : Z) (lc : string -> string -> Z)
  (ok : Virtuoso.VAction -> bool) (data : list RecordT) (v : Virtuoso.VState) :
  Virtuoso.reachable tza lc ok data v ->
  (Virtuoso.displayCount v = 5 \/ Virtuoso.displayCount v = 10) /\
  Virtuoso.currentRecords tza lc v =
    firstn (Z.to_nat (Virtuoso.displayCount v)) (Virtuoso.pageRecords tza lc v) /\
  (length (Virtuoso.currentRecords tza lc v) <= 10)%nat.
Proof.
  intros Hr. pose proof (reachable_displayCount _ _ _ _ _ Hr) as Hd.
  assert (Virtuoso.currentRecords tza lc v =
          firstn (Z.to_nat (Virtuoso.displayCount v)) (Virtuoso.pageRecords tza lc v)) as He.
  { unfold Virtuoso.currentRecords. apply array_slice_prefix. lia. }
  repeat split; [exact Hd | exact He |].
  rewrite He, length_firstn. pose proof (pageRecords_length tza lc v). lia.
Qed.

(** X23: in the progressive-loading version an event that changes the page
    or any filter or sort criterion leaves the list at its first five
    rows. *)
Theorem change_falls_back_to_five_rows (tza : Z) (lc : string -> string -> Z)
  (a : Virtuoso.VAction) (v : Virtuoso.VState) :
  sameCriteria (Virtuoso.base v) (Virtuoso.base (Virtuoso.handle tza lc a v)) = false \/
  currentPage (Virtuoso.base (Virtuoso.handle tza lc a v)) <> currentPage (Virtuoso.base v) ->
  Virtuoso.displayCount (Virtuoso.handle tza lc a v) = 5.
Proof.
  unfold Virtuoso.handle, Virtuoso.runEffects.
  set (w := Virtuoso.handler tza lc a v).
  destruct (sameCriteria (Virtuoso.base v) (Virtuoso.base w)) eqn:Hc; [| reflexivity].
  destruct (Z.eqb_spec (currentPage (Virtuoso.base v)) (currentPage (Virtuoso.base w)))
    as [Hp | Hp]; [| reflexivity].
  intros [H | H]; [congruence | now contradiction H].
Qed.

(** X24: in the progressive-loading version a click on a column header
    always returns to page 1 and to the first five rows, with the clicked
    column as the sort field and the records and filters as they were. *)
Theorem header_click_returns_to_first_page (tza : Z) (lc : string -> string -> Z)
  (f : SortField) (v : Virtuoso.VState) :
  let v' := Virtuoso.handle tza lc (Virtuoso.Table (ClickHeader f)) v in
  currentPage (Virtuoso.base v') = 1 /\
  Virtuoso.displayCount v' = 5 /\
  sortField (Virtuoso.base v') = Some f /\
  filteredData tza (Virtuoso.base v') = filteredData tza (Virtuoso.base v).
Proof.
  cbv zeta. unfold Virtuoso.handle, Virtuoso.runEffects.
  cbn [Virtuoso.handler Virtuoso.base handle].
  rewrite handleSort_changes_criteria. cbn [Virtuoso.base Virtuoso.displayCount].
  rewrite currentPage_setCurrentPage, filteredData_setCurrentPage, handleSort_filteredData.
  repeat split.
  unfold handleSort. destruct (sortField (Virtuoso.base v)) as [g|] eqn:Hg; [| reflexivity].
  destruct (SortField_eqb g f) eqn:Hgf; [| reflexivity].
  cbn. f_equal. destruct g, f; (reflexivity || discriminate).
Qed.


Lemma handle_EndReached tza lc (v : Virtuoso.VState) :
  Virtuoso.handle tza lc Virtuoso.EndReached v = Virtuoso.handleEndReached tza lc v.
Proof.
  unfold Virtuoso.handle, Virtuoso.runEffects. cbn [Virtuoso.handler].
  assert (Virtuoso.base (Virtuoso.handleEndReached tza lc v) = Virtuoso.base v) as ->.
  { unfold Virtuoso.handleEndReached. now destruct (_ && _). }
  now rewrite sameCriteria_refl, Z.eqb_refl.
Qed.

Lemma handleEndReached_loads tza lc (v : Virtuoso.VState) :
  Virtuoso.displayCount v = 5 \/ Virtuoso.displayCount v = 10 ->
  let v' := Virtuoso.handleEndReached tza lc v in
  Virtuoso.base v' = Virtuoso.base v /\
  Virtuoso.currentRecords tza lc v' = Virtuoso.pageRecords tza lc v /\
  Virtuoso.handleEndReached tza lc v' = v'.
Proof.
  intros Hd. cbv zeta.
  pose proof (pageRecords_length tza lc v) as Hl.
  assert ((Virtuoso.displayCount v = 5 /\
           Virtuoso.handleEndReached tza lc v = Virtuoso.mkV (Virtuoso.base v) 10) \/
          (Z.of_nat (length (Virtuoso.pageRecords tza lc v)) <= Virtuoso.displayCount v /\
           Virtuoso.handleEndReached tza lc v = v)) as [[H5 Hw] | [Hge Hw]].
  { unfold Virtuoso.handleEndReached, recordsPerPage.
    destruct (Z.ltb_spec (Virtuoso.displayCount v) 10);
      destruct (Z.ltb_spec (Virtuoso.displayCount v)
                  (Z.of_nat (length (Virtuoso.pageRecords tza lc v))));
      cbn [andb]; [left | right | right | right]; split; try reflexivity; try lia.
    f_equal. lia. }
  - rewrite Hw. repeat split.
    unfold Virtuoso.currentRecords.
    change (Virtuoso.pageRecords tza lc (Virtuoso.mkV (Virtuoso.base v) 10))
      with (Virtuoso.pageRecords tza lc v).
    cbn [Virtuoso.displayCount]. rewrite array_slice_prefix by lia.
    apply firstn_all2. lia.
  - rewrite Hw. repeat split; [| exact Hw].
    unfold Virtuoso.currentRecords. rewrite array_slice_prefix by lia.
    apply firstn_all2. lia.
Qed.

(** X25: in the progressive-loading version, when the list reaches its end
    the whole current page is shown, the page and the criteria stay as they
    are, and a further end-of-list event changes nothing. *)
Theorem end_reached_loads_whole_page (tza : Z) (lc : string -> string -> Z)
  (ok : Virtuoso.VAction -> bool) (data : list RecordT) (v : Virtuoso.VState) :
  Virtuoso.reachable tza lc ok data v ->
  let v' := Virtuoso.handle tza lc Virtuoso.EndReached v in
  Virtuoso.base v' = Virtuoso.base v /\
  Virtuoso.currentRecords tza lc v' = Virtuoso.pageRecords tza lc v /\
  Virtuoso.handle tza lc Virtuoso.EndReached v' = v'.
Proof.
  intros Hr. cbv zeta. rewrite !handle_EndReached.
  apply handleEndReached_loads. eapply reachable_displayCount; eauto.
Qed.

Lemma runEffects_pageInvariant tza lc (before after : Virtuoso.VState) :
  pageInvariant tza lc (Virtuoso.base after) ->
  pageInvariant tza lc (Virtuoso.base (Virtuoso.runEffects before after)).
Proof.
  intros Hi. unfold Virtuoso.runEffects.
  destruct (sameCriteria _ _); [| now apply pageInvariant_page_1].
  now destruct (_ =? _).
Qed.

Lemma handler_pageInvariant tza lc (a : Virtuoso.VAction) (v : Virtuoso.VState) :
  Virtuoso.isControl a = true -> Virtuoso.offered tza lc v a = true ->
  pageInvariant tza lc (Virtuoso.base v) ->
  pageInvariant tza lc (Virtuoso.base (Virtuoso.handler tza lc a v)).
Proof.
  intros Hc Ho Hi. destruct a as [t | | | p |].
  - assert (pageInvariant tza lc (handle tza lc t (Virtuoso.base v))) as Ht.
    { apply pageInvariant_step with (s := Virtuoso.base v) (a := t); [exact Hc | | exact Hi].
      constructor. destruct t; try exact Ho; try reflexivity; discriminate Hc. }
    destruct t; exact Ht.
  - now apply pageInvariant_page_1.
  - cbn [Virtuoso.handler Virtuoso.base]. unfold pageInvariant.
    change (totalPages tza lc (setCurrentPage (totalPages tza lc (Virtuoso.base v))
                                              (Virtuoso.base v)))
      with (totalPages tza lc (Virtuoso.base v)).
    rewrite currentPage_setCurrentPage.
    pose proof (pagesFor_nonneg (length (sortedData tza lc (Virtuoso.base v)))) as Hn.
    fold (totalPages tza lc (Virtuoso.base v)) in Hn. lia.
  - cbn [Virtuoso.handler Virtuoso.base]. unfold pageInvariant.
    change (totalPages tza lc (setCurrentPage p (Virtuoso.base v)))
      with (totalPages tza lc (Virtuoso.base v)).
    rewrite currentPage_setCurrentPage.
    cbn [Virtuoso.offered] in Ho. apply andb_prop in Ho as [H1 H2].
    apply Z.leb_le in H1, H2. right. lia.
  - cbn [Virtuoso.handler]. unfold Virtuoso.handleEndReached. now destruct (_ && _).
Qed.

Lemma progressive_pageInvariant tza lc (data : list RecordT) (v : Virtuoso.VState) :
  Virtuoso.reachable tza lc Virtuoso.isControl data v ->
  pageInvariant tza lc (Virtuoso.base v).
Proof.
  induction 1 as [| v a _ IH Hok Hoff].
  - now apply pageInvariant_page_1.
  - apply runEffects_pageInvariant. now apply handler_pageInvariant.
Qed.

(** X26: in the progressive-loading version, with First, Last and the page
    select added to the controls, every state reached from the initial one
    through the filter, sort and pagination controls and the end-of-list
    event has its page within 1 .. totalPages whenever the filters leave a
    record; when they leave none the page is 0 or 1. *)
Theorem progressive_page_in_range (tza : Z) (lc : string -> string -> Z)
  (data : list RecordT) (v : Virtuoso.VState) :
  Virtuoso.reachable tza lc Virtuoso.isControl data v ->
  (filteredData tza (Virtuoso.base v) <> [] ->
   1 <= currentPage (Virtuoso.base v) <= totalPages tza lc (Virtuoso.base v)) /\
  (filteredData tza (Virtuoso.base v) = [] ->
   currentPage (Virtuoso.base v) = 0 \/ currentPage (Virtuoso.base v) = 1).
Proof.
  intros Hr. pose proof (progressive_pageInvariant _ _ _ _ Hr) as Hi.
  unfold pageInvariant in Hi. rewrite totalPages_filtered in *.
  split.
  - intros Hne. destruct Hi as [[H0 _] | Hi]; [| exact Hi].
    destruct (filteredData tza (Virtuoso.base v)) as [| r l]; [now contradiction Hne |].
    pose proof (pagesFor_pos (length (r :: l)) ltac:(cbn; lia)). lia.
  - intros He. rewrite He in Hi.
    change (pagesFor (length (@nil RecordT))) with 0 in Hi.
    destruct Hi as [[_ H] | H]; [exact H | lia].
Qed.


(** ** The status update in the heap *)

(** X27: run on a heap that holds the store, the status update ends, leaves
    every object of that heap as it was (the old array still holds the old
    records), and returns a new array, at a location the old heap did not
    use, that holds the updated records. *)
Theorem status_update_builds_new_store (recordId : string) (newStatus : Status)
  (h : heap) (recordsRef : loc) (s : State) :
  arrayAt h recordsRef (records s) ->
  exists (newRef : loc) (h' : heap),
    handleStatusUpdateM recordId newStatus recordsRef h = Some (newRef, h') /\
    (forall (l : loc) (o : object), h !! l = Some o -> h' !! l = Some o) /\
    h !! newRef = None /\ newRef <> recordsRef /\
    arrayAt h' recordsRef (records s) /\
    arrayAt h' newRef (records (handleStatusUpdate recordId newStatus s)).
Proof.
  intros Hrec.
  destruct (handleStatusUpdateM_new_store recordId newStatus h recordsRef s Hrec)
    as (newRef & h' & Hrun & Hsub & Hnew & Hold & Hupd).
  exists newRef, h'. split; [exact Hrun |].
  split; [intros l o Hl; eapply lookup_weaken; eauto |].
  split; [exact Hnew |]. split; [| split; assumption].
  intros ->. destruct Hrec as (ls & Hl & _). congruence.
Qed.

(** * Instances *)

(** Records matching the longer search also match the shorter one. *)
Lemma longer_search_narrows_witness :
  let mk i n := mkRecord i (mkAbout n "ACTIVE" "x@demo.com")
                           (mkDetails "05 Mar 2024" "Bob Ray") in
  let rs := [mk "1" "Ann Lee"; mk "2" "Dan Roe"; mk "3" "Cy Moss"] in
  isSubstring (toLowerCase "An") (toLowerCase "ANN") /\
  sublist (filterRecords 0 "ALL" "ANN" "" "" rs) (filterRecords 0 "ALL" "An" "" "" rs).
Proof.
  intros mk rs.
  assert (S : isSubstring (toLowerCase "An") (toLowerCase "ANN"))
    by (exists "", "n"; reflexivity).
  split; [exact S |].
  exact (longer_search_narrows 0 "ALL" "An" "ANN" "" "" rs S).
Defined.

(** A host five and a half hours east of UTC. *)
Lemma filter_keeps_contract_east_witness :
  let rs := [mkRecord "1" (mkAbout "Ann Lee" "ACTIVE" "ann.lee@demo.com")
                          (mkDetails "05 Mar 2024" "Bob Ray")] in
  0 <= 19800000 < msPerDay /\
  dateInputValue "2024-03-05" = true /\ dateInputValue "" = true /\
  sublist (filterRecords 19800000 "ALL" "" "2024-03-05" "" rs) rs /\
  (forall r, In r (filterRecords 19800000 "ALL" "" "2024-03-05" "" rs) <->
             In r rs /\ passesContract 19800000 "ALL" "" "2024-03-05" "" r).
Proof.
  intros rs.
  assert (T : 0 <= 19800000 < msPerDay) by (unfold msPerDay; lia).
  assert (F : dateInputValue "2024-03-05" = true) by reflexivity.
  assert (E : dateInputValue "" = true) by reflexivity.
  split; [exact T |]. split; [exact F |]. split; [exact E |].
  exact (filter_keeps_contract_east 19800000 "ALL" "" "2024-03-05" "" rs T F E).
Defined.

(** The initial state has no sort field. *)
Lemma unsorted_keeps_order_witness :
  let lc : string -> string -> Z := fun _ _ => 0 in
  let s := initialState
             [mkRecord "1" (mkAbout "Cy Moss" "ACTIVE" "cy.moss@demo.com")
                           (mkDetails "06 Mar 2024" "Dee Fox");
              mkRecord "2" (mkAbout "Ann Lee" "ACTIVE" "ann.lee@demo.com")
                           (mkDetails "05 Mar 2024" "Bob Ray")] in
  sortField s = None /\ sortedData 0 lc s = filteredData 0 s.
Proof.
  intros lc s.
  assert (N : sortField s = None) by reflexivity.
  split; [exact N |].
  exact (unsorted_keeps_order 0 lc s N).
Defined.

(** Three records with valid dates, two of them on the same day. *)
Lemma date_sort_orders_by_time_witness :
  let lc : string -> string -> Z := fun _ _ => 0 in
  let mk i d := mkRecord i (mkAbout "Ann Lee" "ACTIVE" "ann.lee@demo.com")
                           (mkDetails d "Bob Ray") in
  let l := [mk "1" "03 Jun 2023"; mk "2" "31 May 2023"; mk "3" "03 Jun 2023"] in
  Forall (fun r => dateKey 0 r <> NaN) l /\
  StronglySorted (fun a b => dateValue 0 a <= dateValue 0 b)
                 (sortRecords 0 lc (Some ByDate) asc l) /\
  StronglySorted (fun a b => dateValue 0 b <= dateValue 0 a)
                 (sortRecords 0 lc (Some ByDate) desc l).
Proof.
  intros lc mk l.
  assert (V : Forall (fun r => dateKey 0 r <> NaN) l).
  { repeat constructor; vm_compute; discriminate. }
  split; [exact V |].
  exact (date_sort_orders_by_time 0 lc l V).
Defined.

(** Two records dated as the generator dates them. *)
Lemma date_sort_without_valid_dates_witness :
  let lc : string -> string -> Z := fun _ _ => 0 in
  let mk i d := mkRecord i (mkAbout "Ann Lee" "ACTIVE" "ann.lee@demo.com")
                           (mkDetails d "Bob Ray") in
  let l := [mk "1" "31/12/2024"; mk "2" "01/01/2023"] in
  Forall (fun r => tokensRecognised (date (details r)) = false) l /\
  sortRecords 0 lc (Some ByDate) desc l = l.
Proof.
  intros lc mk l.
  assert (V : Forall (fun r => tokensRecognised (date (details r)) = false) l).
  { repeat constructor. }
  split; [exact V |].
  exact (date_sort_without_valid_dates 0 lc desc l V).
Defined.

(** A collation that orders strings by their length. *)
Lemma text_sort_orders_by_collation_witness :
  let lc : string -> string -> Z :=
    fun a b => Z.of_nat (String.length a) - Z.of_nat (String.length b) in
  let mk i n := mkRecord i (mkAbout n "ACTIVE" "x@demo.com")
                           (mkDetails "05 Mar 2024" "Bob Ray") in
  let l := [mk "1" "Dee Fox Hay"; mk "2" "Cy Moss"; mk "3" "Eve Hayes"] in
  (forall a b c, lc a b <= 0 -> lc b c <= 0 -> lc a c <= 0) /\
  (forall a b, 0 < lc a b -> lc b a <= 0) /\
  (forall a b c, 0 <= lc a b -> 0 <= lc b c -> 0 <= lc a c) /\
  (forall a b, lc a b < 0 -> 0 <= lc b a) /\
  ByName <> ByDate /\
  StronglySorted (fun a b => lc (fieldText ByName a) (fieldText ByName b) <= 0)
                 (sortRecords 0 lc (Some ByName) asc l) /\
  StronglySorted (fun a b => 0 <= lc (fieldText ByName a) (fieldText ByName b))
                 (sortRecords 0 lc (Some ByName) desc l).
Proof.
  intros lc mk l.
  assert (T1 : forall a b c, lc a b <= 0 -> lc b c <= 0 -> lc a c <= 0)
    by (unfold lc; intros; lia).
  assert (T2 : forall a b, 0 < lc a b -> lc b a <= 0) by (unfold lc; intros; lia).
  assert (T3 : forall a b c, 0 <= lc a b -> 0 <= lc b c -> 0 <= lc a c)
    by (unfold lc; intros; lia).
  assert (T4 : forall a b, lc a b < 0 -> 0 <= lc b a) by (unfold lc; intros; lia).
  assert (N : ByName <> ByDate) by discriminate.
  repeat (split; [assumption |]).
  exact (text_sort_orders_by_collation 0 lc T1 T2 T3 T4 ByName l N).
Defined.

(** Page 2 of a store of one record is empty. *)
Lemma page_length_witness :
  let lc : string -> string -> Z := fun _ _ => 0 in
  let s := initialState
             [mkRecord "1" (mkAbout "Ann Lee" "ACTIVE" "ann.lee@demo.com")
                           (mkDetails "05 Mar 2024" "Bob Ray")] in
  0 <= 2 /\
  let n := Z.of_nat (length (sortedData 0 lc s)) in
  Z.of_nat (length (currentRecords 0 lc (setCurrentPage 2 s))) =
  if (1 <=? 2) && (2 <=? totalPages 0 lc s)
  then Z.min 10 (n - 10 * (2 - 1))
  else 0.
Proof.
  intros lc s.
  assert (P : 0 <= 2) by lia.
  split; [exact P |].
  exact (page_length 0 lc s 2 P).
Defined.


(** An update for an id the store does not hold. *)
Lemma handleStatusUpdate_unknown_id_witness :
  let s := initialState
             [mkRecord "1" (mkAbout "Ann Lee" "ACTIVE" "ann.lee@demo.com")
                           (mkDetails "05 Mar 2024" "Bob Ray")] in
  ~ In "9" (List.map id (records s)) /\
  handleStatusUpdate "9" "BLOCKED" s = s.
Proof.
  intros s.
  assert (N : ~ In "9" (List.map id (records s))) by (cbn; intuition discriminate).
  split; [exact N |].
  exact (handleStatusUpdate_unknown_id "9" "BLOCKED" s N).
Defined.

(** Updates of two different records. *)
Lemma handleStatusUpdate_commutes_witness :
  let s := initialState
             [mkRecord "1" (mkAbout "Ann Lee" "ACTIVE" "ann.lee@demo.com")
                           (mkDetails "05 Mar 2024" "Bob Ray");
              mkRecord "2" (mkAbout "Cy Moss" "INVITED" "cy.moss@demo.com")
                           (mkDetails "06 Mar 2024" "Dee Fox")] in
  "1" <> "2" /\
  handleStatusUpdate "1" "BLOCKED" (handleStatusUpdate "2" "ACTIVE" s)
  = handleStatusUpdate "2" "ACTIVE" (handleStatusUpdate "1" "BLOCKED" s).
Proof.
  intros s.
  assert (N : "1" <> "2") by discriminate.
  split; [exact N |].
  exact (handleStatusUpdate_commutes "1" "2" "BLOCKED" "ACTIVE" s N).
Defined.

(** One record of each declared status. *)
Lemma cards_of_declared_statuses_witness :
  let mk i st := mkRecord i (mkAbout "Ann Lee" st "ann.lee@demo.com")
                            (mkDetails "05 Mar 2024" "Bob Ray") in
  let rs := [mk "1" "ACTIVE"; mk "2" "INVITED"; mk "3" "BLOCKED"] in
  Forall (fun r => is_Status (status (about r)) = true) rs /\
  inactiveCount rs = 0%nat /\
  (activeCount rs + blockedCount rs + countStatus "INVITED" rs = totalUsers rs)%nat /\
  (activeCount rs + blockedCount rs <= totalUsers rs)%nat.
Proof.
  intros mk rs.
  assert (V : Forall (fun r => is_Status (status (about r)) = true) rs).
  { repeat constructor. }
  split; [exact V |].
  exact (cards_of_declared_statuses rs V).
Defined.

(** An invited record under the status filter ACTIVE. *)
Lemma invited_record_badge_and_filter_witness :
  let r := mkRecord "2" (mkAbout "Cy Moss" "INVITED" "cy.moss@demo.com")
                        (mkDetails "06 Mar 2024" "Dee Fox") in
  status (about r) = "INVITED" /\
  mem_string "ACTIVE" statusOptions = true /\ "ACTIVE" <> "ALL" /\
  statusLabel (status (about r)) = "Blocked" /\
  getStatusClass (status (about r)) = "status-badge status-invited" /\
  passesFilter 0 "ACTIVE" "" "" "" r = false.
Proof.
  intros r.
  assert (S : status (about r) = "INVITED") by reflexivity.
  assert (O : mem_string "ACTIVE" statusOptions = true) by reflexivity.
  assert (N : "ACTIVE" <> "ALL") by discriminate.
  split; [exact S |]. split; [exact O |]. split; [exact N |].
  exact (invited_record_badge_and_filter 0 "ACTIVE" "" "" "" r S O N).
Defined.

(** The draw that picks the first name, the second inviter, the second
    status and the first instant of the range. *)
Lemma generated_record_shape_witness :
  let d := mkDraw 0 0 1 1 1 0 in
  wellFormedDraw generatorSpan d /\
  let r := generateRecord 0 1 d in
  is_Status (status (about r)) = true /\
  name (about r) = (pick firstNames (nameFirst d) ++ " " ++ pick lastNames (nameLast d))%string /\
  In (pick firstNames (nameFirst d)) firstNames /\
  In (pick lastNames (nameLast d)) lastNames /\
  email (about r) = (toLowerCase (pick firstNames (nameFirst d)) ++ "." ++
                     toLowerCase (pick lastNames (nameLast d)) ++ "@demo.com")%string /\
  In (date (details r)) generatedDates /\
  parseDate 0 (date (details r)) = NaN.
Proof.
  intros d.
  assert (W : wellFormedDraw generatorSpan d).
  { unfold wellFormedDraw, d. cbn. repeat split; try lia; reflexivity. }
  split; [exact W |].
  exact (generated_record_shape 0 1 d W).
Defined.

(** The same draw for every record, and a from-date. *)
Lemma generated_store_and_dates_witness :
  let lc : string -> string -> Z := fun _ _ => 0 in
  let draw : nat -> Draw := fun _ => mkDraw 0 0 1 1 1 0 in
  (forall i, wellFormedDraw generatorSpan (draw i)) /\
  truthy "2024-01-01" || truthy "" = true /\
  filterRecords 0 "ALL" "" "2024-01-01" "" (generateRecords 0 draw) = [] /\
  sortRecords 0 lc (Some ByDate) asc (generateRecords 0 draw) = generateRecords 0 draw.
Proof.
  intros lc draw.
  assert (W : forall i, wellFormedDraw generatorSpan (draw i)).
  { intros i. unfold wellFormedDraw, draw. cbn. repeat split; try lia; reflexivity. }
  assert (B : truthy "2024-01-01" || truthy "" = true) by reflexivity.
  split; [exact W |]. split; [exact B |].
  exact (generated_store_and_dates 0 lc draw "ALL" "" "2024-01-01" "" asc W B).
Defined.


(** The progressive-loading table after one end-of-list event. *)
Lemma progressive_rows_are_page_prefix_witness :
  let lc : string -> string -> Z := fun _ _ => 0 in
  let data := [mkRecord "1" (mkAbout "Ann Lee" "ACTIVE" "ann.lee@demo.com")
                            (mkDetails "05 Mar 2024" "Bob Ray")] in
  let ok : Virtuoso.VAction -> bool := fun _ => true in
  let v := Virtuoso.handle 0 lc Virtuoso.EndReached (Virtuoso.initial data) in
  Virtuoso.reachable 0 lc ok data v /\
  (Virtuoso.displayCount v = 5 \/ Virtuoso.displayCount v = 10) /\
  Virtuoso.currentRecords 0 lc v =
    firstn (Z.to_nat (Virtuoso.displayCount v)) (Virtuoso.pageRecords 0 lc v) /\
  (length (Virtuoso.currentRecords 0 lc v) <= 10)%nat.
Proof.
  intros lc data ok v.
  assert (R : Virtuoso.reachable 0 lc ok data v).
  { apply Virtuoso.reach_step; [apply Virtuoso.reach_init | reflexivity | reflexivity]. }
  split; [exact R |].
  exact (progressive_rows_are_page_prefix 0 lc ok data v R).
Defined.

(** A header click changes a criterion. *)
Lemma change_falls_back_to_five_rows_witness :
  let lc : string -> string -> Z := fun _ _ => 0 in
  let data := [mkRecord "1" (mkAbout "Ann Lee" "ACTIVE" "ann.lee@demo.com")
                            (mkDetails "05 Mar 2024" "Bob Ray")] in
  let a := Virtuoso.Table (ClickHeader ByName) in
  let v := Virtuoso.mkV (initialState data) 10 in
  (sameCriteria (Virtuoso.base v) (Virtuoso.base (Virtuoso.handle 0 lc a v)) = false \/
   currentPage (Virtuoso.base (Virtuoso.handle 0 lc a v)) <> currentPage (Virtuoso.base v)) /\
  Virtuoso.displayCount (Virtuoso.handle 0 lc a v) = 5.
Proof.
  intros lc data a v.
  assert (C : sameCriteria (Virtuoso.base v) (Virtuoso.base (Virtuoso.handle 0 lc a v)) = false \/
              currentPage (Virtuoso.base (Virtuoso.handle 0 lc a v)) <> currentPage (Virtuoso.base v)).
  { left. reflexivity. }
  split; [exact C |].
  exact (change_falls_back_to_five_rows 0 lc a v C).
Defined.

(** The end-of-list event in the initial state. *)
Lemma end_reached_loads_whole_page_witness :
  let lc : string -> string -> Z := fun _ _ => 0 in
  let data := [mkRecord "1" (mkAbout "Ann Lee" "ACTIVE" "ann.lee@demo.com")
                            (mkDetails "05 Mar 2024" "Bob Ray")] in
  let ok : Virtuoso.VAction -> bool := fun _ => true in
  let v := Virtuoso.initial data in
  Virtuoso.reachable 0 lc ok data v /\
  let v' := Virtuoso.handle 0 lc Virtuoso.EndReached v in
  Virtuoso.base v' = Virtuoso.base v /\
  Virtuoso.currentRecords 0 lc v' = Virtuoso.pageRecords 0 lc v /\
  Virtuoso.handle 0 lc Virtuoso.EndReached v' = v'.
Proof.
  intros lc data ok v.
  assert (R : Virtuoso.reachable 0 lc ok data v) by apply Virtuoso.reach_init.
  split; [exact R |].
  exact (end_reached_loads_whole_page 0 lc ok data v R).
Defined.

(** The progressive-loading table after a search and a click on Last. *)
Lemma progressive_page_in_range_witness :
  let lc : string -> string -> Z := fun _ _ => 0 in
  let data := [mkRecord "1" (mkAbout "Ann Lee" "ACTIVE" "ann.lee@demo.com")
                            (mkDetails "05 Mar 2024" "Bob Ray")] in
  let v := Virtuoso.handle 0 lc Virtuoso.ClickLast
             (Virtuoso.handle 0 lc (Virtuoso.Table (TypeSearch "zed"))
                (Virtuoso.initial data)) in
  Virtuoso.reachable 0 lc Virtuoso.isControl data v /\
  (filteredData 0 (Virtuoso.base v) <> [] ->
   1 <= currentPage (Virtuoso.base v) <= totalPages 0 lc (Virtuoso.base v)) /\
  (filteredData 0 (Virtuoso.base v) = [] ->
   currentPage (Virtuoso.base v) = 0 \/ currentPage (Virtuoso.base v) = 1).
Proof.
  intros lc data v.
  assert (R : Virtuoso.reachable 0 lc Virtuoso.isControl data v).
  { apply Virtuoso.reach_step; [| reflexivity | reflexivity].
    apply Virtuoso.reach_step; [apply Virtuoso.reach_init | reflexivity | reflexivity]. }
  split; [exact R |].
  exact (progressive_page_in_range 0 lc data v R).
Defined.

(** A heap that holds a store of one record, which the update blocks. *)
Lemma status_update_builds_new_store_witness :
  let a := mkAbout "Ann Lee" "ACTIVE" "ann.lee@demo.com" in
  let d := mkDetails "05 Mar 2024" "Bob Ray" in
  let s := initialState [mkRecord "1" a d] in
  let h : heap :=
    <[1%positive := OArray [2%positive]]>
      (<[2%positive := ORecord "1" 3%positive 4%positive]>
         (<[3%positive := OAbout a]> (<[4%positive := ODetails d]> ∅))) in
  arrayAt h 1%positive (records s) /\
  exists (newRef : loc) (h' : heap),
    handleStatusUpdateM "1" "BLOCKED" 1%positive h = Some (newRef, h') /\
    (forall (l : loc) (o : object), h !! l = Some o -> h' !! l = Some o) /\
    h !! newRef = None /\ newRef <> 1%positive /\
    arrayAt h' 1%positive (records s) /\
    arrayAt h' newRef (records (handleStatusUpdate "1" "BLOCKED" s)).
Proof.
  intros a d s h.
  assert (A : arrayAt h 1%positive (records s)).
  { exists [2%positive]. split; [reflexivity |].
    constructor; [| constructor].
    exists 3%positive, 4%positive. repeat split; reflexivity. }
  split; [exact A |].
  exact (status_update_builds_new_store "1" "BLOCKED" h 1%positive s A).
Defined.


(** ** Further properties of the filter and of the pagination *)

Lemma filter_filter_andb {A} (f g : A -> bool) (l : list A) :
  List.filter f (List.filter g l) = List.filter (fun x => g x && f x) l.
Proof.
  induction l as [|x l IH]; [reflexivity |]. cbn [List.filter].
  destruct (g x); cbn [andb List.filter]; [destruct (f x) |]; now rewrite IH.
Qed.

Lemma passesFilter_split (tza : Z) (fs sn df dt : string) (r : RecordT) :
  passesFilter tza fs sn df dt r =
  passesFilter tza fs "" "" "" r && passesFilter tza "ALL" sn "" "" r &&
  passesFilter tza "ALL" "" df dt r.
Proof.
  unfold passesFilter.
  change (dateMatch tza "" "" r) with true.
  change (toLowerCase "") with EmptyString.
  rewrite (includes_startsWith (toLowerCase (name (about r))) "") by reflexivity.
  change (String.eqb "ALL" "ALL") with true. cbn [orb andb].
  now rewrite !andb_true_r.
Qed.

(** X28: the three filters act independently: filtering by status, search
    text and date range at once gives what the three filters give one after
    the other, in either order. *)
Theorem filters_compose (tza : Z) (fs sn df dt : string) (rs : list RecordT) :
  filterRecords tza fs sn df dt rs =
    filterRecords tza "ALL" "" df dt
      (filterRecords tza "ALL" sn "" "" (filterRecords tza fs "" "" "" rs)) /\
  filterRecords tza fs sn df dt rs =
    filterRecords tza fs "" "" ""
      (filterRecords tza "ALL" sn "" "" (filterRecords tza "ALL" "" df dt rs)).
Proof.
  unfold filterRecords. rewrite !filter_filter_andb.
  split; apply List.filter_ext; intros r; rewrite (passesFilter_split tza fs sn df dt r).
  all: apply eq_true_iff_eq; rewrite !andb_true_iff; tauto.
Qed.

Lemma setCurrentPage_twice (p q : Z) (s : State) :
  setCurrentPage p (setCurrentPage q s) = setCurrentPage p s.
Proof. reflexivity. Qed.

Lemma setCurrentPage_same (s : State) : setCurrentPage (currentPage s) s = s.
Proof. now destruct s. Qed.

Lemma totalPages_setCurrentPage tza lc (p : Z) (s : State) :
  totalPages tza lc (setCurrentPage p s) = totalPages tza lc s.
Proof. reflexivity. Qed.

(** X29: while the page is within 1 .. totalPages, Next followed by
    Previous returns to the state it started from unless the page was the
    last, Previous followed by Next does unless it was the first, Previous
    does nothing on page 1 and Next nothing on the last page. *)
Theorem next_previous_round_trip (tza : Z) (lc : string -> string -> Z) (s : State) :
  1 <= currentPage s <= totalPages tza lc s ->
  (currentPage s < totalPages tza lc s -> onPrevious (onNext tza lc s) = s) /\
  (1 < currentPage s -> onNext tza lc (onPrevious s) = s) /\
  (currentPage s = 1 -> onPrevious s = s) /\
  (currentPage s = totalPages tza lc s -> onNext tza lc s = s).
Proof.
  intros Hr. repeat split; intros H.
  - unfold onPrevious. unfold onNext at 1 2.
    rewrite currentPage_setCurrentPage, setCurrentPage_twice.
    replace (Z.max _ 1) with (currentPage s) by lia. apply setCurrentPage_same.
  - unfold onNext. unfold onPrevious at 1 2 3.
    rewrite currentPage_setCurrentPage, totalPages_setCurrentPage, setCurrentPage_twice.
    replace (Z.min _ _) with (currentPage s) by lia. apply setCurrentPage_same.
  - unfold onPrevious. replace (Z.max _ 1) with (currentPage s) by lia.
    apply setCurrentPage_same.
  - unfold onNext. replace (Z.min _ _) with (currentPage s) by lia.
    apply setCurrentPage_same.
Qed.

(** Page 1 of two, in a store of eleven records. *)
Lemma next_previous_round_trip_witness :
  let lc : string -> string -> Z := fun _ _ => 0 in
  let mk i := mkRecord i (mkAbout "Ann Lee" "ACTIVE" "ann.lee@demo.com")
                         (mkDetails "05 Mar 2024" "Bob Ray") in
  let s := initialState
             [mk "1"; mk "2"; mk "3"; mk "4"; mk "5"; mk "6"; mk "7"; mk "8";
              mk "9"; mk "10"; mk "11"] in
  1 <= currentPage s <= totalPages 0 lc s /\
  (currentPage s < totalPages 0 lc s -> onPrevious (onNext 0 lc s) = s) /\
  (1 < currentPage s -> onNext 0 lc (onPrevious s) = s) /\
  (currentPage s = 1 -> onPrevious s = s) /\
  (currentPage s = totalPages 0 lc s -> onNext 0 lc s = s).
Proof.
  intros lc mk s.
  assert (R : 1 <= currentPage s <= totalPages 0 lc s).
  { split; vm_compute; discriminate. }
  split; [exact R |].
  exact (next_previous_round_trip 0 lc s R).
Defined.
